(** * Policast: discovery, claimability and leaderboard pipeline

    A shallow embedding of four parts of the repository:

    - the leaderboard route ([withRetry], [batchFetchNeynarUsers], [GET]),
      which merges the two contract generations behind a NodeCache;
    - the winnings route ([discoverUserMarketsFromTrades],
      [fallbackScanParticipation], [readUserTradeHistory],
      [computeClaimableWinnings], [POST]);
    - the on-chain views of [contract PolicastViews] that list markets,
      balances, odds, winnings and quotes, on which the routes' reads rest;
    - the position table of [MarketV2PositionManager].

    Conventions of the embedding.
    - A [bigint] is a [Z].  A JavaScript number that holds a count, an index
      or a delay in milliseconds is a [Z] or a [nat]; a display amount
      (the [winnings] of a leaderboard row) is a double, held as the
      rational it denotes and rounded to nearest-even where the code
      rounds, or [NaN].
    - A promise that resolves is [Ok v], one that rejects is [Throw e].
    - A contract call that returns is [Some v], one that reverts is [None];
      [uint256] arithmetic is checked as in Solidity 0.8.
    - The remote ledger and the identity service are oracles.  In the
      leaderboard route every remote operation goes through [withRetry], so
      its oracle is indexed by the attempt number; the route threads the
      cache, the clock and the trace of remote calls explicitly. *)

From Stdlib Require Import ZArith QArith Qpower List String Ascii Lia.
From Stdlib Require Import Sorting.Sorted Sorting.Permutation.
From stdpp Require Import base gmap strings list pretty.
Import ListNotations.

Local Open Scope string_scope.
Local Open Scope Z_scope.

(** ** JavaScript values shared by both routes *)

Module Js.

(** A thrown value: the fields the routes inspect are [status]
    ([error?.status]) and the message ([shortMessage || message]). *)
Record Err : Type := mkErr { status : option Z; message : string }.

Inductive Res (T : Type) : Type :=
| Ok (v : T)
| Throw (e : Err).
Arguments Ok {T} v.
Arguments Throw {T} e.

Definition is_ok {T} (r : Res T) : bool :=
  match r with Ok _ => true | Throw _ => false end.

(** [new Error(msg)] *)
Definition Error (msg : string) : Err := mkErr None msg.

(** [String.prototype.toLowerCase] on ASCII text (addresses and revert
    reasons are ASCII). *)
Definition lower_ascii (c : ascii) : ascii :=
  let n := N_of_ascii c in
  if ((65 <=? n) && (n <=? 90))%N then ascii_of_N (n + 32) else c.

Fixpoint toLowerCase (s : string) : string :=
  match s with
  | EmptyString => EmptyString
  | String c s' => String (lower_ascii c) (toLowerCase s')
  end.

(** [String.prototype.includes] *)
Fixpoint includes (s needle : string) : bool :=
  if String.prefix needle s then true
  else match s with
       | EmptyString => false
       | String _ s' => includes s' needle
       end.

(** [s.slice(0, n)] and [s.slice(-n)] for [n >= 0]. *)
Definition slice_to (n : nat) (s : string) : string := String.substring 0 n s.
Definition slice_last (n : nat) (s : string) : string :=
  String.substring (String.length s - n) n s.

(** *** Numbers

    A JavaScript number is an IEEE 754 double.  A finite double is
    represented by the rational it denotes, and [to_double q] is the
    double nearest to [q], ties to even: what [Number(bigint)] and the
    division of two doubles deliver.  The exponent is not bounded here:
    the amounts the routes convert are [uint256] and the decimals [uint8],
    on which no result leaves the range of the normal doubles. *)

Definition scale (x e : Z) : Z := if 0 <=? e then x * 2 ^ e else x.

(** The integer nearest to [n / d], ties to even, for [0 <= n], [0 < d]. *)
Definition nearest_even (n d : Z) : Z :=
  let q := n / d in
  let r := n mod d in
  if 2 * r <? d then q
  else if d <? 2 * r then q + 1
  else if Z.even q then q else q + 1.

(** [floor (log2 (n / d))] for positive [n] and [d]. *)
Definition log2_quot (n d : Z) : Z :=
  let k := Z.log2 n - Z.log2 d in
  if scale d k <=? scale n (- k) then k else k - 1.

(** A significand of 53 bits: [m * 2 ^ e] with [2 ^ 52 <= m <= 2 ^ 53]. *)
Definition to_double (q : Q) : Q :=
  let n := Z.abs (Qnum q) in
  let d := Zpos (Qden q) in
  if n =? 0 then 0%Q
  else
    let e := log2_quot n d - 52 in
    let m := nearest_even (scale n (- e)) (scale d e) in
    Qred (inject_Z (Z.sgn (Qnum q) * m) * Qpower 2 e)%Q.

(** [NaN], and [null], which is what [JSON.stringify] writes for it. *)
Inductive NaN : Type := nan.

(** [x - y > 0], the test a sort makes on the comparator
    [(a, b) => b.winnings - a.winnings].  On doubles that are not [NaN]
    the difference is positive exactly when [x] is the greater; a
    difference that is [NaN] is read as [+0] by the sort. *)
Class Number (N : Type) : Type := difference_positive : N -> N -> bool.

#[export] Instance Number_Q : Number Q := fun x y => negb (Qle_bool x y).
#[export] Instance Number_NaN : Number NaN := fun _ _ => false.

End Js.
Export Js.

(** ** ResilientCaller: [withRetry] *)

Module Retry.

(** What one run of [withRetry] did: how it settled, how many times it
    invoked the operation, and the delays it slept, in order. *)
Record Run (T : Type) : Type :=
  mkRun { outcome : Res T; calls : nat; sleeps : list Z }.
Arguments mkRun {T} _ _ _.
Arguments outcome {T} _.
Arguments calls {T} _.
Arguments sleeps {T} _.

(** [let delay = baseDelay * Math.pow(2, i);
     if (error?.status === 429) delay = Math.max(delay, 10000);] *)
Definition backoff (baseDelay : Z) (i : nat) (error : Err) : Z :=
  let delay := baseDelay * 2 ^ Z.of_nat i in
  match status error with
  | Some 429 => Z.max delay 10000
  | _ => delay
  end.

(** The [for (let i = 0; i < retries; i++)] loop; [fn i] is how the
    invocation made in iteration [i] settles.  [fuel] counts the
    iterations that remain, so [O] is the loop's exit, after which the
    function throws "Max retries reached". *)
Fixpoint retry_loop {T} (fn : nat -> Res T) (retries : nat) (baseDelay : Z)
    (fuel i : nat) : Run T :=
  match fuel with
  | O => mkRun (Throw (Error "Max retries reached")) 0 []
  | S fuel' =>
      match fn i with
      | Ok v => mkRun (Ok v) 1 []
      | Throw error =>
          if (Z.of_nat i =? Z.of_nat retries - 1)%Z
          then mkRun (Throw error) 1 []
          else
            let delay := backoff baseDelay i error in
            let rest := retry_loop fn retries baseDelay fuel' (S i) in
            mkRun (outcome rest) (S (calls rest)) (delay :: sleeps rest)
      end
  end.

Definition withRetry {T} (fn : nat -> Res T) (retries : nat) (baseDelay : Z)
  : Run T :=
  retry_loop fn retries baseDelay retries 0.

(** The delay the specification prescribes after failed attempt [i]:
    [baseDelay * 2^i], floored to 10 s when the failure is a rate limit. *)
Definition rate_limited {T} (r : Res T) : bool :=
  match r with
  | Throw e => match status e with Some s => s =? 429 | None => false end
  | Ok _ => false
  end.

Definition prescribed_delay {T} (fn : nat -> Res T) (baseDelay : Z) (i : nat) : Z :=
  let exponential := baseDelay * 2 ^ Z.of_nat i in
  if rate_limited (fn i) then Z.max exponential 10000 else exponential.

End Retry.
Export Retry.

(** ** The leaderboard route *)

Module Leaderboard.

Definition Address : Type := string.

Definition CACHE_KEY : string := "leaderboard_v7".
Definition NEYNAR_CACHE_KEY : string := "neynar_users_v7".
Definition PAGE_SIZE : Z := 100.

Record NeynarRawUser : Type := mkRawUser
  { raw_username : string; raw_fid : Z; raw_pfp_url : option string }.

Record NeynarUser : Type := mkNeynarUser
  { nu_username : string; nu_fid : string; nu_pfp_url : option string }.

(** A row of the leaderboard over the numbers [N] its [winnings] are
    taken from. *)
Record Row (N : Type) : Type := mkRow
  { username : string; fid : string; pfp_url : option string;
    winnings : N; voteCount : Z; address : string }.
Arguments mkRow {N} _ _ _ _ _ _.
Arguments username {N} _.
Arguments fid {N} _.
Arguments pfp_url {N} _.
Arguments winnings {N} _.
Arguments voteCount {N} _.
Arguments address {N} _.

(** [interface LeaderboardEntry], whose [winnings] is a [number]. *)
Definition LeaderboardEntry : Type := Row Q.

(** [{ user, totalWinnings, voteCount }], the shape of both generations'
    entries before the merge. *)
Record ChainEntry : Type := mkEntry
  { user : Address; totalWinnings : Z; entryVotes : Z }.

(** [userPortfolios]: [totalInvested, totalWinnings, unrealizedPnL,
    realizedPnL, tradeCount]. *)
Record Portfolio : Type := mkPortfolio
  { totalInvested : Z; portfolioWinnings : Z; unrealizedPnL : Z;
    realizedPnL : Z; tradeCount : Z }.

Record Winner (N : Type) : Type := mkWinner
  { w_address : string; w_winnings : N; w_voteCount : Z }.
Arguments mkWinner {N} _ _ _.
Arguments w_address {N} _.
Arguments w_winnings {N} _.
Arguments w_voteCount {N} _.

(** *** NodeCache

    The store of the [node-cache] package as the route configures it
    ([stdTTL: 3600], default [deleteOnExpire]): an item carries the
    instant [t] (ms) after which it is expired, [0] meaning never; [get]
    on an expired item deletes it and answers [undefined]. *)

Inductive CacheValue : Type :=
| CLeaderboard (rows : list LeaderboardEntry)
| CLeaderboardNaN (rows : list (Row NaN))
| CNeynar (users : gmap string (list NeynarUser)).

(** What can stand under [CACHE_KEY]: rows whose winnings are numbers,
    or rows whose winnings are [null]. *)
Inductive Board : Type :=
| Ranked (rows : list LeaderboardEntry)
| Unranked (rows : list (Row NaN)).

Record CacheItem : Type := mkItem { item_v : CacheValue; item_t : Z }.

Definition stdTTL : Z := 3600.

Definition expired (it : CacheItem) (now : Z) : bool :=
  negb (item_t it =? 0) && (item_t it <? now).

Definition cache_get (c : gmap string CacheItem) (now : Z) (key : string)
  : option CacheValue * gmap string CacheItem :=
  match c !! key with
  | Some it => if expired it now then (None, delete key c)
               else (Some (item_v it), c)
  | None => (None, c)
  end.

Definition cache_set (c : gmap string CacheItem) (now : Z) (key : string)
    (v : CacheValue) (ttl : Z) : gmap string CacheItem :=
  <[key := mkItem v (if ttl =? 0 then 0 else now + ttl * 1000)]> c.

(** *** State of one request: cache, clock, trace of remote calls *)

Inductive Call : Type :=
| CDecimals
| CParticipantsCount
| CLeaderboardPage (start size : Z)
| CAllParticipants (index : Z)
| CUserPortfolio (who : Address)
| CNeynarBulk (batch : list Address).

(** [EvCall] is the first attempt of a read, [EvRetry] a further attempt
    of the same read after the [EvSleep] before it. *)
Inductive Event : Type :=
| EvCall (c : Call)
| EvSleep (ms : Z)
| EvRetry (c : Call).

Record St : Type := mkSt
  { cache : gmap string CacheItem; now : Z; trace : list Event }.

Definition M (A : Type) : Type := St -> Res A * St.

Definition ret {A} (a : A) : M A := fun st => (Ok a, st).

Definition bind {A B} (m : M A) (k : A -> M B) : M B :=
  fun st => match m st with
            | (Ok a, st') => k a st'
            | (Throw e, st') => (Throw e, st')
            end.

Notation "'let*' x ':=' m 'in' k" := (bind m (fun x => k))
  (at level 10, x name, m at level 100, k at level 200).

(** An action that cannot reject. *)
Definition lift {A} (f : St -> A * St) : M A :=
  fun st => let (a, st') := f st in (Ok a, st').

(** [Promise.all] over reads that cannot reject and do not touch the
    cache: every read starts at the clock of the call, the clock
    afterwards is that of the last one to settle; the trace lists the
    reads in index order. *)
Fixpoint allS {A B} (f : A -> St -> B * St) (l : list A) : St -> list B * St :=
  fun st =>
    match l with
    | [] => ([], st)
    | a :: l' =>
        let (b, st1) := f a st in
        let (bs, st2) := allS f l' (mkSt (cache st1) (now st) (trace st1)) in
        (b :: bs, mkSt (cache st2) (Z.max (now st1) (now st2)) (trace st2))
    end.

Definition sumZ (l : list Z) : Z := fold_right Z.add 0 l.

(** The remote calls and sleeps of one [withRetry] run, in order. *)
Definition retry_events {T} (c : Call) (r : Run T) : list Event :=
  match calls r with
  | O => []
  | S _ => EvCall c :: flat_map (fun d => [EvSleep d; EvRetry c]) (sleeps r)
  end.

(** [await withRetry(() => remote call c)] with the default arguments. *)
Definition await_withRetry {T} (c : Call) (fn : nat -> Res T) : M T :=
  fun st =>
    let r := withRetry fn 3 2000 in
    (outcome r,
     mkSt (cache st) (now st + sumZ (sleeps r)) (trace st ++ retry_events c r)).

Definition get_cache (key : string) : St -> option CacheValue * St :=
  fun st => let (v, c') := cache_get (cache st) (now st) key in
            (v, mkSt c' (now st) (trace st)).

Definition set_cache (key : string) (v : CacheValue) (ttl : Z) : St -> unit * St :=
  fun st => (tt, mkSt (cache_set (cache st) (now st) key v ttl) (now st) (trace st)).

(** [cache.get<LeaderboardEntry[]>(CACHE_KEY)]: only leaderboards are ever
    stored under that key. *)
Definition get_leaderboard : St -> option Board * St :=
  fun st => match get_cache CACHE_KEY st with
            | (Some (CLeaderboard rows), st') => (Some (Ranked rows), st')
            | (Some (CLeaderboardNaN rows), st') => (Some (Unranked rows), st')
            | (_, st') => (None, st')
            end.

(** [cache.get<Record<string, NeynarUser[]>>(NEYNAR_CACHE_KEY) || {}] *)
Definition get_neynar : St -> gmap string (list NeynarUser) * St :=
  fun st => match get_cache NEYNAR_CACHE_KEY st with
            | (Some (CNeynar users), st') => (users, st')
            | (_, st') => (∅, st')
            end.

(** *** The remote world of one request *)

Record Env : Type := mkEnv
  { NEYNAR_API_KEY : option string;
    (** [results[0].result] of the [decimals] multicall, which settles
        with one entry per call: [Some d] when the entry succeeded, [None]
        when it failed and carries no [result] *)
    decimals : nat -> Res (option Z);
    getAllParticipantsCount : nat -> Res Z;
    getLeaderboard : Z -> Z -> nat -> Res (list ChainEntry);
    allParticipants : Z -> nat -> Res Address;
    userPortfolios : Address -> nat -> Res Portfolio;
    fetchBulkUsersByEthOrSolAddress :
      list Address -> nat -> Res (list (string * list NeynarRawUser)) }.

(** *** Generation 1 *)

(** [for (let start = 0; start < Number(totalParticipantsV1);
         start += PAGE_SIZE)] *)
Fixpoint fetchV1_loop (env : Env) (fuel : nat) (start total : Z)
    (entriesV1 : list ChainEntry) : M (list ChainEntry) :=
  match fuel with
  | O => ret entriesV1
  | S fuel' =>
      if start <? total then
        let* batch := await_withRetry (CLeaderboardPage start PAGE_SIZE)
                        (getLeaderboard env start PAGE_SIZE) in
        fetchV1_loop env fuel' (start + PAGE_SIZE) total (entriesV1 ++ batch)
      else ret entriesV1
  end.

Definition pages_needed (total : Z) : nat :=
  Z.to_nat ((total + PAGE_SIZE - 1) / PAGE_SIZE).

Definition fetchV1 (env : Env) : M (list ChainEntry) :=
  let* totalParticipantsV1 :=
    await_withRetry CParticipantsCount (getAllParticipantsCount env) in
  fetchV1_loop env (pages_needed totalParticipantsV1) 0 totalParticipantsV1 [].

(** *** Generation 2 *)

(** [withRetry(...).catch(() => null)] *)
Definition participant_or_null (env : Env) (currentIndex : Z)
  : St -> option Address * St :=
  fun st =>
    match await_withRetry (CAllParticipants currentIndex)
            (allParticipants env currentIndex) st with
    | (Ok a, st') => (Some a, st')
    | (Throw _, st') => (None, st')
    end.

(** [for (const participantAddress of batchResults)]; the boolean is
    [hasMoreParticipants] when the loop is left.  [!participantAddress]
    holds of [null] and of the empty string. *)
Fixpoint process_batch (env : Env) (batchResults : list (option Address))
    (entriesV2 : list ChainEntry) : St -> (bool * list ChainEntry) * St :=
  fun st =>
    match batchResults with
    | [] => ((true, entriesV2), st)
    | p :: rest =>
        match p with
        | Some participantAddress =>
            if String.eqb participantAddress "" then ((false, entriesV2), st)
            else
              match await_withRetry (CUserPortfolio participantAddress)
                      (userPortfolios env participantAddress) st with
              | (Ok portfolio, st') =>
                  let totalWinnings := portfolioWinnings portfolio in
                  let tradeCount := tradeCount portfolio in
                  if 0 <? totalWinnings
                  then process_batch env rest
                         (entriesV2 ++ [mkEntry participantAddress totalWinnings tradeCount]) st'
                  else process_batch env rest entriesV2 st'
              | (Throw _, st') => process_batch env rest entriesV2 st'
              end
        | None => ((false, entriesV2), st)
        end
    end.

(** [while (hasMoreParticipants && v2ParticipantIndex < 10000)], each
    turn awaiting a batch of [PAGE_SIZE] reads; [fuel] counts the turns
    the bound on the index leaves. *)
Fixpoint fetchV2_loop (env : Env) (fuel : nat) (v2ParticipantIndex : Z)
    (entriesV2 : list ChainEntry) : St -> list ChainEntry * St :=
  fun st =>
    match fuel with
    | O => (entriesV2, st)
    | S fuel' =>
        if v2ParticipantIndex <? 10000 then
          let (batchResults, st1) :=
            allS (fun i => participant_or_null env (v2ParticipantIndex + i))
                 (seqZ 0 PAGE_SIZE) st in
          let '((hasMoreParticipants, entries'), st2) :=
            process_batch env batchResults entriesV2 st1 in
          if hasMoreParticipants
          then fetchV2_loop env fuel' (v2ParticipantIndex + PAGE_SIZE) entries' st2
          else (entries', st2)
        else (entriesV2, st)
    end.

(** Every promise awaited in the generation-2 block is caught on its own,
    so the block's outer [catch (v2Error)] is never entered. *)
Definition fetchV2 (env : Env) : St -> list ChainEntry * St :=
  fetchV2_loop env (Z.to_nat (10000 / PAGE_SIZE)) 0 [].

(** *** Merge of the two generations

    [combinedEntries] is a JavaScript [Map]: [set] on a present key
    replaces the value where it stands, on a new key appends, and
    [values()] lists in that order. *)

Fixpoint map_set {V} (k : string) (v : V) (m : list (string * V))
  : list (string * V) :=
  match m with
  | [] => [(k, v)]
  | (k', v') :: m' =>
      if String.eqb k' k then (k, v) :: m' else (k', v') :: map_set k v m'
  end.

Fixpoint map_get {V} (k : string) (m : list (string * V)) : option V :=
  match m with
  | [] => None
  | (k', v') :: m' => if String.eqb k' k then Some v' else map_get k m'
  end.

Definition map_values {V} (m : list (string * V)) : list V := List.map snd m.

(** [entriesV1.forEach(...)]: plain [set]. *)
Definition add_v1 (m : list (string * ChainEntry)) (entry : ChainEntry)
  : list (string * ChainEntry) :=
  map_set (toLowerCase (user entry)) entry m.

(** [entriesV2.forEach(...)]: sum with the existing entry, if any. *)
Definition add_v2 (m : list (string * ChainEntry)) (entry : ChainEntry)
  : list (string * ChainEntry) :=
  let addr := toLowerCase (user entry) in
  match map_get addr m with
  | Some existing =>
      map_set addr
        (mkEntry (user entry)
                 (totalWinnings existing + totalWinnings entry)
                 (entryVotes existing + entryVotes entry)) m
  | None => map_set addr entry m
  end.

Definition combinedEntries (entriesV1 entriesV2 : list ChainEntry)
  : list (string * ChainEntry) :=
  fold_left add_v2 entriesV2 (fold_left add_v1 entriesV1 []).

(** [Math.pow(10, tokenDecimals)]: the powers of ten up to [10 ^ 22] are
    doubles, and they are what [Math.pow] returns.  Beyond, where the
    language leaves [Math.pow] an approximation, the double nearest to the
    power is taken. *)
Definition pow10 (tokenDecimals : Z) : Q :=
  to_double (Qpower (inject_Z 10) tokenDecimals).

(** [Number(totalWinnings) / Math.pow(10, tokenDecimals)] *)
Definition display (totalWinnings tokenDecimals : Z) : Q :=
  to_double (to_double (inject_Z totalWinnings) / pow10 tokenDecimals)%Q.

(** [Array.from(combinedEntries.values()).filter(...).map(...)], with
    [number] for the conversion of the winnings. *)
Definition winners_with {N} (number : Z -> N)
    (combined : list (string * ChainEntry)) : list (Winner N) :=
  List.map
    (fun entry => mkWinner (toLowerCase (user entry))
                           (number (totalWinnings entry))
                           (entryVotes entry))
    (List.filter (fun entry => 0 <? totalWinnings entry)
                 (map_values combined)).

Definition winners_of (combined : list (string * ChainEntry))
    (tokenDecimals : Z) : list (Winner Q) :=
  winners_with (fun totalWinnings => display totalWinnings tokenDecimals) combined.

(** With [tokenDecimals] not a number, [Math.pow(10, tokenDecimals)] and
    every quotient by it are [NaN]. *)
Definition winners_nan (combined : list (string * ChainEntry))
  : list (Winner NaN) :=
  winners_with (fun _ => nan) combined.

(** *** Identity enrichment *)

Definition or_null (s : option string) : option string :=
  match s with
  | Some "" => None
  | _ => s
  end.

Definition convert_user (u : NeynarRawUser) : NeynarUser :=
  mkNeynarUser (raw_username u) (pretty (raw_fid u)) (or_null (raw_pfp_url u)).

Definition store_users (result : gmap string (list NeynarUser))
    (kv : string * list NeynarRawUser) : gmap string (list NeynarUser) :=
  <[toLowerCase (fst kv) := List.map convert_user (snd kv)]> result.

(** [for (let i = 0; i < addresses.length; i += batchSize)] with
    [batchSize = 25]; [addresses] here is what is left from index [i]. *)
Fixpoint batch_loop (env : Env) (fuel : nat) (addresses : list Address)
    (result : gmap string (list NeynarUser))
  : St -> gmap string (list NeynarUser) * St :=
  fun st =>
    match fuel, addresses with
    | O, _ => (result, st)
    | _, [] => (result, st)
    | S fuel', _ :: _ =>
        let batch := take 25 addresses in
        match await_withRetry (CNeynarBulk batch)
                (fetchBulkUsersByEthOrSolAddress env batch) st with
        | (Ok usersMap, st') =>
            batch_loop env fuel' (drop 25 addresses)
                       (fold_left store_users usersMap result) st'
        | (Throw _, st') =>
            batch_loop env fuel' (drop 25 addresses) result st'
        end
    end.

Definition batchFetchNeynarUsers (env : Env) (addresses : list Address)
  : St -> gmap string (list NeynarUser) * St :=
  batch_loop env (List.length addresses) addresses ∅.

(** [user?.username || `${address.slice(0, 6)}...${address.slice(-4)}`] *)
Definition or_else (s : option string) (d : string) : string :=
  match s with
  | Some "" | None => d
  | Some v => v
  end.

Definition build_row {N} (addressToUsersMap : gmap string (list NeynarUser))
    (winner : Winner N) : Row N :=
  let user :=
    match addressToUsersMap !! w_address winner with
    | Some (u :: _) => Some u
    | _ => None
    end in
  mkRow
    (or_else (nu_username <$> user)
       (slice_to 6 (w_address winner) ++ "..." ++ slice_last 4 (w_address winner)))
    (or_else (nu_fid <$> user) "nil")
    (or_null (user ≫= nu_pfp_url))
    (w_winnings winner) (w_voteCount winner) (w_address winner).

(** [.sort((a, b) => b.winnings - a.winnings)]: a stable sort; [a] is put
    behind [b] exactly when the comparator is positive. *)
Definition behind {N} `{Number N} (a b : Row N) : bool :=
  difference_positive (winnings b) (winnings a).

Fixpoint insert_row {N} `{Number N} (a : Row N) (l : list (Row N))
  : list (Row N) :=
  match l with
  | [] => [a]
  | b :: l' => if behind a b then b :: insert_row a l' else a :: b :: l'
  end.

Definition sort_rows {N} `{Number N} (l : list (Row N)) : list (Row N) :=
  fold_right insert_row [] l.

(** *** [GET] *)

Inductive Response : Type :=
| Json (rows : list LeaderboardEntry)
| JsonNaN (rows : list (Row NaN))
| JsonError (error : string) (details : option string) (http_status : Z).

(** [NextResponse.json(safeLeaderboard)] *)
Definition answer (board : Board) : Response :=
  match board with
  | Ranked rows => Json rows
  | Unranked rows => JsonNaN rows
  end.

(** From [winners] to [leaderboard]: the identities, the rows, the sort
    and the cut. *)
Definition rank {N} `{Number N} (env : Env) (winners : list (Winner N))
  : M (list (Row N)) :=
  let* neynarCache := lift get_neynar in
  let addressesToFetch :=
    List.filter
      (fun addr => match neynarCache !! addr with
                   | Some _ => false
                   | None => true
                   end)
      (List.map w_address winners) in
  let* addressToUsersMap :=
    match addressesToFetch with
    | [] => ret neynarCache
    | _ :: _ =>
        let* newUsersMap := lift (batchFetchNeynarUsers env addressesToFetch) in
        let merged := newUsersMap ∪ neynarCache in
        let* _ := lift (set_cache NEYNAR_CACHE_KEY (CNeynar merged) 86400) in
        ret merged
    end in
  ret (take 10 (sort_rows (List.map (build_row addressToUsersMap) winners))).

(** The body of the [try] block, from the credential check on.
    [tokenDecimals] is [Number(results[0].result)]: [NaN] when the decimals
    entry of the multicall carries no result.  Every winnings is then
    [NaN], the comparator of the sort is [NaN] on every pair, and
    [JSON.stringify] writes each winnings as [null]. *)
Definition refresh (env : Env) : M Response :=
  match NEYNAR_API_KEY env with
  | None | Some "" =>
      ret (JsonError "Server configuration error: Missing NEYNAR_API_KEY"
                     None 500)
  | Some _ =>
      let* tokenDecimals := await_withRetry CDecimals (decimals env) in
      let* entriesV1 := fetchV1 env in
      let* entriesV2 := lift (fetchV2 env) in
      let combined := combinedEntries entriesV1 entriesV2 in
      match tokenDecimals with
      | Some tokenDecimals =>
          let* leaderboard := rank env (winners_of combined tokenDecimals) in
          let* _ := lift (set_cache CACHE_KEY (CLeaderboard leaderboard) stdTTL) in
          ret (Json leaderboard)
      | None =>
          let* leaderboard := rank env (winners_nan combined) in
          let* _ := lift (set_cache CACHE_KEY (CLeaderboardNaN leaderboard) stdTTL) in
          ret (JsonNaN leaderboard)
      end
  end.

(** The handler.  [JSON.parse(JSON.stringify(rows, ...))] leaves rows of
    strings, finite numbers and [null] as they are, so it is not shown. *)
Definition GET (env : Env) : St -> Response * St :=
  fun st =>
    match get_leaderboard st with
    | (Some cachedLeaderboard, st0) => (answer cachedLeaderboard, st0)
    | (None, st0) =>
        match refresh env st0 with
        | (Ok response, st1) => (response, st1)
        | (Throw _, st1) =>
            match get_leaderboard st1 with
            | (Some cachedLeaderboard, st2) => (answer cachedLeaderboard, st2)
            | (None, st2) =>
                (JsonError "Failed to fetch leaderboard"
                           (Some "Please try again later.") 500, st2)
            end
        end
    end.

(** *** Vocabulary of the leaderboard properties *)

(** The offsets of the generation-1 pages a trace asked for, in order. *)
Definition page_starts (tr : list Event) : list Z :=
  flat_map (fun ev => match ev with
                      | EvCall (CLeaderboardPage start _) => [start]
                      | _ => []
                      end) tr.

(** The page [withRetry] settles on at an offset. *)
Definition page_of (env : Env) (start : Z) : list ChainEntry :=
  match outcome (withRetry (getLeaderboard env start PAGE_SIZE) 3 2000) with
  | Ok batch => batch
  | Throw _ => []
  end.

(** [0, PAGE_SIZE, 2 * PAGE_SIZE, ...] below [total]. *)
Definition page_offsets (total : Z) : list Z :=
  List.map (fun k => Z.of_nat k * PAGE_SIZE) (seq 0 (pages_needed total)).

(** The termination rule of the specification, read on the pages asked
    for: all of them were full but the last, which was short. *)
Definition ended_by_short_page (env : Env) (starts : list Z) : Prop :=
  exists full last,
    starts = (full ++ [last])%list /\
    Forall (fun start => Z.of_nat (List.length (page_of env start)) = PAGE_SIZE) full /\
    Z.of_nat (List.length (page_of env last)) < PAGE_SIZE.

(** What a refresh has read before it ranks: the decimals entry, then
    the two generations. *)
Definition fetched (env : Env) (st : St) (tokenDecimals : option Z)
    (entriesV1 entriesV2 : list ChainEntry) : Prop :=
  exists st1 st2 st3,
    await_withRetry CDecimals (decimals env) st = (Ok tokenDecimals, st1) /\
    fetchV1 env st1 = (Ok entriesV1, st2) /\
    fetchV2 env st2 = (entriesV2, st3).

Definition descending (rows : list LeaderboardEntry) : Prop :=
  StronglySorted (fun a b => (winnings b <= winnings a)%Q) rows.

Definition well_formed_board (rows : list LeaderboardEntry) : Prop :=
  (List.length rows <= 10)%nat /\
  descending rows /\
  Forall (fun r => (0 < winnings r)%Q) rows.

(** What earlier requests may have left under [CACHE_KEY]. *)
Definition cache_well_formed (c : gmap string CacheItem) : Prop :=
  forall rows t,
    c !! CACHE_KEY = Some (mkItem (CLeaderboard rows) t) ->
    well_formed_board rows.

End Leaderboard.

(** ** The winnings route *)

Module Winnings.

(** [getMarketBasicInfo]: of the nine components the route reads
    [optionCount] (index 4), [resolved] (5) and [invalidated] (7). *)
Record MarketBasicInfo : Type := mkBasic
  { optionCount : Z; resolved : bool; invalidated : bool }.

(** [getMarketExtendedMeta]: [winningOptionId] (index 0), [disputed] (1). *)
Record ExtendedMeta : Type := mkExtended
  { winningOptionId : Z; disputed : bool }.

(** A trade record, reduced to [Number(trade.marketId ?? trade[0])];
    [None] is [NaN]. *)
Record Trade : Type := mkTrade { tradeMarketId : option Z }.

Record UserWinnings : Type := mkWinnings
  { marketId : Z; amount : Z; hasWinnings : bool }.

(** The generation-2 ledger at the head the request reads against.  The
    route calls it directly, without [withRetry]. *)
Record Chain : Type := mkChain
  { marketCount : Res Z;
    PAYOUT_PER_SHARE : Res Z;
    getMarketBasicInfo : Z -> Res MarketBasicInfo;
    getMarketExtendedMeta : Z -> Res ExtendedMeta;
    getMarketOptionUserShares : Z -> Z -> string -> Res Z;
    (** [Ok None] is a falsy reply *)
    userTradeHistory : string -> Z -> Res (option Trade);
    (** [simulateContract] of [claimWinnings(marketId)] from the account *)
    simulateClaimWinnings : Z -> string -> Res unit }.

Definition rbind {A B} (r : Res A) (k : A -> Res B) : Res B :=
  match r with
  | Ok a => k a
  | Throw e => Throw e
  end.

Notation "'try*' x ':=' r 'in' k" := (rbind r (fun x => k))
  (at level 10, x name, r at level 100, k at level 200).

(** [while (index < maxAttempts)] with [maxAttempts = 100]; a rejected
    or falsy read ends the history. *)
Fixpoint history_loop (chain : Chain) (userAddress : string) (fuel : nat)
    (index : Z) (trades : list Trade) : list Trade :=
  match fuel with
  | O => trades
  | S fuel' =>
      if index <? 100 then
        match userTradeHistory chain userAddress index with
        | Ok (Some trade) =>
            history_loop chain userAddress fuel' (index + 1) (trades ++ [trade])
        | Ok None => trades
        | Throw _ => trades
        end
      else trades
  end.

(** Nothing inside the outer [try] rejects, so its rethrowing [catch] is
    never entered; the result is kept in [Res] as the caller awaits it. *)
Definition readUserTradeHistory (chain : Chain) (userAddress : string)
  : Res (list Trade) :=
  Ok (history_loop chain userAddress 100 0 []).

(** A JavaScript [Set] of numbers, in insertion order. *)
Definition set_add (s : list Z) (x : Z) : list Z :=
  if existsb (Z.eqb x) s then s else s ++ [x].

Definition set_of (l : list Z) : list Z := fold_left set_add l [].

(** [.sort((a, b) => a - b)] *)
Fixpoint insert_asc (a : Z) (l : list Z) : list Z :=
  match l with
  | [] => [a]
  | b :: l' => if 0 <? a - b then b :: insert_asc a l' else a :: b :: l'
  end.

Definition sort_asc (l : list Z) : list Z := fold_right insert_asc [] l.

Definition add_trade (markets : list Z) (trade : Trade) : list Z :=
  match tradeMarketId trade with
  | Some mId => set_add markets mId
  | None => markets
  end.

Definition discoverUserMarketsFromTrades (chain : Chain) (userAddress : string)
  : Res (list Z) :=
  try* tradeHistory := readUserTradeHistory chain userAddress in
  match tradeHistory with
  | [] => Ok []
  | _ :: _ => Ok (sort_asc (fold_left add_trade tradeHistory []))
  end.

(** [for (let option = 0; option < optionCount; option++)]: [Ok true] when
    a positive balance is met ([break]), [Throw] when a read rejects. *)
Fixpoint option_loop (chain : Chain) (userAddress : string) (marketId : Z)
    (fuel : nat) (option optionCount : Z) : Res bool :=
  match fuel with
  | O => Ok false
  | S fuel' =>
      if option <? optionCount then
        try* shares := getMarketOptionUserShares chain marketId option userAddress in
        if 0 <? shares then Ok true
        else option_loop chain userAddress marketId fuel' (option + 1) optionCount
      else Ok false
  end.

(** One iteration of the market loop, before its [catch]. *)
Definition scan_market (chain : Chain) (userAddress : string) (marketId : Z)
  : Res bool :=
  try* basic := getMarketBasicInfo chain marketId in
  let optionCount := optionCount basic in
  option_loop chain userAddress marketId (Z.to_nat optionCount) 0 optionCount.

Definition scan_step (chain : Chain) (userAddress : string)
    (markets : list Z) (marketId : Z) : list Z :=
  match scan_market chain userAddress marketId with
  | Ok true => markets ++ [marketId]
  | Ok false => markets
  | Throw _ => markets            (* ignore individual market errors *)
  end.

Definition fallbackScanParticipation (chain : Chain) (userAddress : string)
  : Res (list Z) :=
  match marketCount chain with
  | Throw _ => Ok []
  | Ok mCount =>
      if mCount =? 0 then Ok []
      else
        match PAYOUT_PER_SHARE chain with
        | Throw _ => Ok []
        | Ok _ =>
            let maxScan := Z.min mCount 300 in
            Ok (fold_left (scan_step chain userAddress) (seqZ 0 maxScan) [])
        end
  end.

(** [(simError?.shortMessage || simError?.message || "").toLowerCase()]
    and the two reasons the route looks for; either way the market is
    not claimable. *)
Definition classify_sim_error (simError : Err) : bool :=
  let msg := toLowerCase (message simError) in
  if includes msg "alreadyclaimed" || includes msg "nowinningshares"
  then false
  else false.

(** One iteration of the market loop, before its [catch]: [Ok None] is a
    [continue], [Ok (Some w)] a [results.push(w)]. *)
Definition check_market (chain : Chain) (userAddress : string)
    (payoutPerShare : Z) (marketId : Z) : Res (option UserWinnings) :=
  try* basic := getMarketBasicInfo chain marketId in
  if negb (resolved basic) || invalidated basic then Ok None
  else
    try* extended := getMarketExtendedMeta chain marketId in
    if disputed extended then Ok None
    else
      try* sharesBI :=
        getMarketOptionUserShares chain marketId (winningOptionId extended)
                                  userAddress in
      if sharesBI =? 0 then Ok None
      else
        let claimable :=
          match simulateClaimWinnings chain marketId userAddress with
          | Ok _ => true
          | Throw simError => classify_sim_error simError
          end in
        if negb claimable then Ok None
        else
          let amount := Z.quot (sharesBI * payoutPerShare) (10 ^ 18) in
          if 0 <? amount then Ok (Some (mkWinnings marketId amount true))
          else Ok None.

Definition claim_step (chain : Chain) (userAddress : string)
    (payoutPerShare : Z) (results : list UserWinnings) (marketId : Z)
  : list UserWinnings :=
  match check_market chain userAddress payoutPerShare marketId with
  | Ok (Some w) => results ++ [w]
  | Ok None => results
  | Throw _ => results            (* skip problematic market *)
  end.

Definition computeClaimableWinnings (chain : Chain) (userAddress : string)
    (markets : list Z) : Res (list UserWinnings) :=
  match markets with
  | [] => Ok []
  | _ :: _ =>
      let payoutPerShare :=
        match PAYOUT_PER_SHARE chain with
        | Ok p => p
        | Throw _ => 100 * 10 ^ 18
        end in
      Ok (fold_left (claim_step chain userAddress payoutPerShare) markets [])
  end.

Inductive Response : Type :=
| Json (participatedMarkets : list Z) (winningsData : list UserWinnings)
       (totalMarkets claimableMarkets : Z)
| JsonError (error : string) (http_status : Z).

(** What [await request.json()] settles to: [null], or a value whose
    [userAddress] property, if it has one, is a string. *)
Inductive Body : Type :=
| Null
| Object (userAddress : option string).

(** [const { userAddress } = body]: destructuring [null] throws a
    [TypeError] (the message is V8's); a missing property reads
    [undefined]. *)
Definition destructure (body : Body) : Res (option string) :=
  match body with
  | Null =>
      Throw (Error "Cannot destructure property 'userAddress' of 'body' as it is null.")
  | Object userAddress => Ok userAddress
  end.

(** Steps 1 and 2 of the handler and its
    [Array.from(new Set(participatedMarkets)).sort((a, b) => a - b)]:
    the value of [participatedMarkets] that step 3 receives. *)
Definition participated (chain : Chain) (userAddress : string) : Res (list Z) :=
  try* fromTrades := discoverUserMarketsFromTrades chain userAddress in
  try* participatedMarkets :=
    match fromTrades with
    | [] => fallbackScanParticipation chain userAddress
    | _ :: _ => Ok fromTrades
    end in
  Ok (sort_asc (set_of participatedMarkets)).

(** [NextResponse.json({ participatedMarkets, winningsData, ... })]
    serialises its argument with [JSON.stringify] and no replacer, which
    throws a [TypeError] on a [bigint] (the message is V8's).  The
    bigints of the answer are the [amount]s of the rows of
    [winningsData]; the market ids and the two counters are numbers. *)
Definition NextResponse_json (participatedMarkets : list Z)
    (winningsData : list UserWinnings) : Res Response :=
  match winningsData with
  | [] =>
      Ok (Json participatedMarkets winningsData
               (Z.of_nat (List.length participatedMarkets))
               (Z.of_nat (List.length winningsData)))
  | _ :: _ => Throw (Error "Do not know how to serialize a BigInt")
  end.

(** The handler; [request] is what [request.json()] settles to.  Reading
    the body, destructuring it and answering all happen inside the
    [try]. *)
Definition POST (chain : Chain) (request : Res Body) : Response :=
  let handled :=
    try* body := request in
    try* userAddress := destructure body in
    match userAddress with
    | None | Some "" => Ok (JsonError "User address is required" 400)
    | Some userAddress =>
        try* participatedMarkets := participated chain userAddress in
        try* winningsData :=
          computeClaimableWinnings chain userAddress participatedMarkets in
        NextResponse_json participatedMarkets winningsData
    end in
  match handled with
  | Ok response => response
  | Throw error =>
      JsonError ("Failed to auto-discover user markets: " ++ message error) 500
  end.

End Winnings.

(** ** Concrete scenarios *)

Module Scenarios.

(** An operation that is rate limited once, fails once more and then
    succeeds. *)
Definition flaky_op (i : nat) : Res Z :=
  match i with
  | O => Throw (mkErr (Some 429) "rate limited")
  | S O => Throw (Error "timeout")
  | _ => Ok 7
  end.

Definition reverted {A} : Res A := Throw (Error "execution reverted").

Definition wallet : string := "0xAbC0000000000000000000000000000000000001".

(** A wallet whose trade history references markets 3, 7, 3. *)
Definition chain_373 : Winnings.Chain :=
  Winnings.mkChain (Ok 10) (Ok (100 * 10 ^ 18))
    (fun _ => Ok (Winnings.mkBasic 2 false false))
    (fun _ => reverted)
    (fun _ _ _ => Ok 0)
    (fun _ index =>
       match index with
       | 0 => Ok (Some (Winnings.mkTrade (Some 3)))
       | 1 => Ok (Some (Winnings.mkTrade (Some 7)))
       | 2 => Ok (Some (Winnings.mkTrade (Some 3)))
       | _ => reverted
       end)
    (fun _ _ => reverted).

(** Market 4 is won and unclaimed; 5 is unresolved; 6 cannot be read;
    9 is won but its claim simulation reverts with AlreadyClaimed.  The
    wallet holds shares of option 1 everywhere. *)
Definition chain_claims : Winnings.Chain :=
  Winnings.mkChain (Ok 10) (Ok (100 * 10 ^ 18))
    (fun m => if m =? 6 then reverted
              else Ok (Winnings.mkBasic 2 (negb (m =? 5)) false))
    (fun _ => Ok (Winnings.mkExtended 1 false))
    (fun _ option _ => if option =? 1 then Ok (2 * 10 ^ 18) else Ok 0)
    (fun _ index =>
       match index with
       | 0 => Ok (Some (Winnings.mkTrade (Some 4)))
       | 1 => Ok (Some (Winnings.mkTrade (Some 5)))
       | 2 => Ok (Some (Winnings.mkTrade (Some 9)))
       | 3 => Ok (Some (Winnings.mkTrade (Some 6)))
       | _ => reverted
       end)
    (fun m _ => if m =? 9
                then Throw (Error "execution reverted: AlreadyClaimed()")
                else Ok tt).

Definition won_4 : Winnings.UserWinnings :=
  Winnings.mkWinnings 4 (200 * 10 ^ 18) true.

Definition alice : string := "0xAAAA000000000000000000000000000000000001".
Definition bob : string := "0xbbbb000000000000000000000000000000000002".

(** Both generations answer: alice holds 100 tokens of winnings in
    generation 1 and 50 in generation 2, bob 7 in generation 1. *)
Definition env_live : Leaderboard.Env :=
  Leaderboard.mkEnv (Some "neynar-key")
    (fun _ => Ok (Some 18))
    (fun _ => Ok 2)
    (fun start _ _ =>
       if start =? 0
       then Ok [Leaderboard.mkEntry alice (100 * 10 ^ 18) 3;
                Leaderboard.mkEntry bob (7 * 10 ^ 18) 1]
       else Ok [])
    (fun index _ => if index =? 0 then Ok (toLowerCase alice) else reverted)
    (fun _ _ => Ok (Leaderboard.mkPortfolio 0 (50 * 10 ^ 18) 0 0 2))
    (fun _ _ => Ok [(alice, [Leaderboard.mkRawUser "alice" 42 None])]).

(** Generation 1 lists bob (7 tokens) before alice (100 tokens) and
    generation 2 adds 50 tokens for alice; [entry] is what the decimals
    entry of the multicall carries. *)
Definition env_bob_first (entry : option Z) : Leaderboard.Env :=
  Leaderboard.mkEnv (Some "neynar-key")
    (fun _ => Ok entry)
    (fun _ => Ok 2)
    (fun start _ _ =>
       if start =? 0
       then Ok [Leaderboard.mkEntry bob (7 * 10 ^ 18) 1;
                Leaderboard.mkEntry alice (100 * 10 ^ 18) 3]
       else Ok [])
    (fun index _ => if index =? 0 then Ok (toLowerCase alice) else reverted)
    (fun _ _ => Ok (Leaderboard.mkPortfolio 0 (50 * 10 ^ 18) 0 0 2))
    (fun _ _ => Ok [(alice, [Leaderboard.mkRawUser "alice" 42 None])]).

(** The rows of alice and bob on that ledger, over the winnings [w]. *)
Definition row_alice {N} (w : N) : Leaderboard.Row N :=
  Leaderboard.mkRow "alice" "42" None w 5 (toLowerCase alice).

Definition row_bob {N} (w : N) : Leaderboard.Row N :=
  Leaderboard.mkRow "0xbbbb...0002" "nil" None w 1 bob.

(** Every remote read rejects, whatever the attempt. *)
Definition env_down (key : option string) : Leaderboard.Env :=
  Leaderboard.mkEnv key
    (fun _ => reverted) (fun _ => reverted) (fun _ _ _ => reverted)
    (fun _ _ => reverted) (fun _ _ => reverted) (fun _ _ => reverted).

Definition st_cold : Leaderboard.St := Leaderboard.mkSt ∅ 0 [].

(** The state a first, successful request leaves behind, and the
    leaderboard it returned. *)
Definition st_warm : Leaderboard.St := snd (Leaderboard.GET env_live st_cold).

Definition board_live : list Leaderboard.LeaderboardEntry :=
  match fst (Leaderboard.GET env_live st_cold) with
  | Leaderboard.Json rows => rows
  | _ => []
  end.

(** The same cache, [ms] milliseconds later, with a fresh trace. *)
Definition later (ms : Z) (st : Leaderboard.St) : Leaderboard.St :=
  Leaderboard.mkSt (Leaderboard.cache st) (Leaderboard.now st + ms) [].

(** Generation 1 holds exactly one full page of participants. *)
Definition env_full : Leaderboard.Env :=
  Leaderboard.mkEnv (Some "neynar-key")
    (fun _ => Ok (Some 18))
    (fun _ => Ok 100)
    (fun start _ _ =>
       if start =? 0 then Ok (List.repeat (Leaderboard.mkEntry alice 1 1) 100)
       else Ok [])
    (fun _ _ => reverted) (fun _ _ => reverted) (fun _ _ => reverted).

(** Market 0 is still open; the wallet holds 5 shares of its option 1 and
    has no trade history. *)
Definition chain_open : Winnings.Chain :=
  Winnings.mkChain (Ok 1) (Ok (100 * 10 ^ 18))
    (fun _ => Ok (Winnings.mkBasic 2 false false))
    (fun _ => Ok (Winnings.mkExtended 0 false))
    (fun _ option _ => if option =? 1 then Ok 5 else Ok 0)
    (fun _ _ => reverted)
    (fun _ _ => reverted).

End Scenarios.
Import Scenarios.

(** ** Vocabulary of the further leaderboard properties *)

Module Aggregation.

Import Leaderboard.

(** What [withRetry(...).catch(() => null)] settles on for the
    generation-2 participant at an index. *)
Definition participant_at (env : Env) (index : Z) : option Address :=
  match outcome (withRetry (allParticipants env index) 3 2000) with
  | Ok a => Some a
  | Throw _ => None
  end.

(** The participant at an index is there: neither [null] nor empty. *)
Definition present (env : Env) (index : Z) : bool :=
  match participant_at env index with
  | Some a => negb (String.eqb a "")
  | None => false
  end.

(** The entry is the one generation 2 builds for the participant at an
    index: the portfolio settled on for that address, with positive
    winnings. *)
Definition entry_from (env : Env) (e : ChainEntry) (index : Z) : Prop :=
  participant_at env index = Some (user e) /\
  exists portfolio,
    outcome (withRetry (userPortfolios env (user e)) 3 2000) = Ok portfolio /\
    totalWinnings e = portfolioWinnings portfolio /\
    entryVotes e = tradeCount portfolio /\
    0 < totalWinnings e.

(** The address batches a trace sent to the identity service, in order. *)
Definition neynar_batches (tr : list Event) : list (list Address) :=
  flat_map (fun ev => match ev with
                      | EvCall (CNeynarBulk batch) => [batch]
                      | _ => []
                      end) tr.

End Aggregation.

(** ** The on-chain views: [contract PolicastViews]

    A call either returns ([Some]) or reverts ([None]).  Arithmetic is
    that of Solidity 0.8 on [uint256]: overflow, underflow and division by
    zero revert.  The main contract [policast] and the [PolicastLogic]
    library are not part of the sources: their getters and the LMSR cost
    function are the fields of [Policast]. *)

Module Views.

Definition uint256_max : Z := 2 ^ 256 - 1.

Definition Tx (A : Type) : Type := option A.

Definition tbind {A B} (t : Tx A) (k : A -> Tx B) : Tx B :=
  match t with
  | Some a => k a
  | None => None
  end.

Notation "'do*' x ':=' t 'in' k" := (tbind t (fun x => k))
  (at level 10, x name, t at level 100, k at level 200).

Definition require (cond : bool) : Tx unit := if cond then Some tt else None.

Definition add (a b : Z) : Tx Z := if a + b <=? uint256_max then Some (a + b) else None.
Definition sub (a b : Z) : Tx Z := if b <=? a then Some (a - b) else None.
Definition mul (a b : Z) : Tx Z := if a * b <=? uint256_max then Some (a * b) else None.
Definition div (a b : Z) : Tx Z := if b =? 0 then None else Some (a / b).

(** [new uint256[](n)], [a[i]] and [a[i] = v]; an index out of bounds
    reverts. *)
Definition new_array (n : Z) : list Z := replicate (Z.to_nat n) 0.

Definition array_get (a : list Z) (i : Z) : Tx Z :=
  if (0 <=? i) && (i <? Z.of_nat (List.length a)) then a !! Z.to_nat i else None.

Definition array_set (a : list Z) (i : Z) (v : Z) : Tx (list Z) :=
  if (0 <=? i) && (i <? Z.of_nat (List.length a))
  then Some (<[Z.to_nat i := v]> a) else None.

(** [getMarketBasicInfo]: question, description, endTime, category,
    optionCount, resolved, marketType, invalidated, totalVolume. *)
Record BasicInfo : Type := mkBasicInfo
  { question : string; description : string; endTime : Z; category : Z;
    optionCount : Z; resolved : bool; marketType : Z; invalidated : bool;
    totalVolume : Z }.

(** [getMarketOption]: name, description, totalShares, totalVolume,
    currentPrice, isActive. *)
Record OptionInfo : Type := mkOptionInfo
  { optionName : string; optionDescription : string; totalShares : Z;
    optionVolume : Z; currentPrice : Z; isActive : bool }.

(** [getMarketExtendedMeta], of whose five components the views read the
    winning option (0), the creator (3) and the early-resolution flag (4);
    the route reads the dispute flag (1). *)
Record ExtendedMeta : Type := mkExtendedMeta
  { winningOptionId : Z; disputed : bool; creator : string;
    earlyResolutionAllowed : bool }.

(** [PolicastLogic.MarketData] *)
Record MarketData : Type := mkMarketData
  { md_optionCount : Z; md_lmsrB : Z; md_maxOptionShares : Z;
    md_userLiquidity : Z; md_adminInitialLiquidity : Z }.

Record Policast : Type := mkPolicast
  { marketCount : Z;
    platformFeeRate : Z;
    PAYOUT_PER_SHARE : Z;
    getMarketBasicInfo : Z -> Tx BasicInfo;
    getMarketOption : Z -> Z -> Tx OptionInfo;
    getMarketOptionUserShares : Z -> Z -> string -> Tx Z;
    getMarketExtendedMeta : Z -> Tx ExtendedMeta;
    getMarketLMSRB : Z -> Tx Z;
    calculateLMSRCostWithShares : MarketData -> list Z -> Tx Z }.

(** The loop shared by [getMarketsByCategory], [getUserMarkets],
    [getUnresolvedMarkets] and [getEventBasedMarkets]:
    [for (i = 0; i < marketCount && more(count); i++)
       if (test(i)) { tempMarkets[count] = i; count++; }]. *)
Fixpoint collect_loop (test : Z -> Tx bool) (more : Z -> bool) (fuel : nat)
    (i marketCount : Z) (tempMarkets : list Z) (count : Z) : Tx (list Z * Z) :=
  match fuel with
  | O => Some (tempMarkets, count)
  | S fuel' =>
      if (i <? marketCount) && more count then
        do* hit := test i in
        if hit : bool then
          do* tempMarkets' := array_set tempMarkets count i in
          collect_loop test more fuel' (i + 1) marketCount tempMarkets' (count + 1)
        else collect_loop test more fuel' (i + 1) marketCount tempMarkets count
      else Some (tempMarkets, count)
  end.

(** [for (i = 0; i < count; i++) result[i] = tempMarkets[i];] *)
Fixpoint copy_loop (fuel : nat) (i count : Z) (tempMarkets result : list Z)
  : Tx (list Z) :=
  match fuel with
  | O => Some result
  | S fuel' =>
      if i <? count then
        do* v := array_get tempMarkets i in
        do* result' := array_set result i v in
        copy_loop fuel' (i + 1) count tempMarkets result'
      else Some result
  end.

Definition collect (p : Policast) (test : Z -> Tx bool) (more : Z -> bool)
  : Tx (list Z) :=
  let marketCount := marketCount p in
  do* found := collect_loop test more (Z.to_nat marketCount) 0 marketCount
                 (new_array marketCount) 0 in
  copy_loop (Z.to_nat (snd found)) 0 (snd found) (fst found) (new_array (snd found)).

Definition getMarketsByCategory (p : Policast) (_category _limit : Z)
  : Tx (list Z) :=
  collect p
    (fun i => do* basic := getMarketBasicInfo p i in
              Some (category basic =? _category))
    (fun count => (_limit =? 0) || (count <? _limit)).

(** The one-argument overload. *)
Definition getMarketsByCategory_all (p : Policast) (_category : Z) : Tx (list Z) :=
  getMarketsByCategory p _category 0.

(** [for (j = 0; j < optionCount; j++)
       if (getMarketOptionUserShares(i, j, _user) > 0) { ...; break; }] *)
Fixpoint holds_loop (p : Policast) (_user : string) (i : Z) (fuel : nat)
    (j optionCount : Z) : Tx bool :=
  match fuel with
  | O => Some false
  | S fuel' =>
      if j <? optionCount then
        do* shares := getMarketOptionUserShares p i j _user in
        if 0 <? shares then Some true
        else holds_loop p _user i fuel' (j + 1) optionCount
      else Some false
  end.

Definition getUserMarkets (p : Policast) (_user : string) : Tx (list Z) :=
  collect p
    (fun i => do* basic := getMarketBasicInfo p i in
              holds_loop p _user i (Z.to_nat (optionCount basic)) 0 (optionCount basic))
    (fun _ => true).

(** The loop that fills a fresh array, as in
    [for (i = 0; i < optionCount; i++) shares[i] = read(i);]. *)
Fixpoint fill_loop (read : Z -> Tx Z) (fuel : nat) (i n : Z) (a : list Z)
  : Tx (list Z) :=
  match fuel with
  | O => Some a
  | S fuel' =>
      if i <? n then
        do* v := read i in
        do* a' := array_set a i v in
        fill_loop read fuel' (i + 1) n a'
      else Some a
  end.

Definition fill (read : Z -> Tx Z) (n : Z) : Tx (list Z) :=
  fill_loop read (Z.to_nat n) 0 n (new_array n).

Definition getUserShares (p : Policast) (_marketId : Z) (_user : string)
  : Tx (list Z) :=
  do* _ := require (_marketId <? marketCount p) in
  do* basic := getMarketBasicInfo p _marketId in
  fill (fun i => getMarketOptionUserShares p _marketId i _user) (optionCount basic).

(** [!resolved && !invalidated && block.timestamp < endTime] *)
Definition tradable (basic : BasicInfo) (timestamp : Z) : bool :=
  negb (resolved basic) && negb (invalidated basic) && (timestamp <? endTime basic).

Definition getUnresolvedMarkets (p : Policast) (timestamp : Z) : Tx (list Z) :=
  collect p
    (fun i => do* basic := getMarketBasicInfo p i in Some (tradable basic timestamp))
    (fun _ => true).

(** The [try ... catch] turns a revert of the getter into [false]. *)
Definition isMarketTradable (p : Policast) (timestamp _marketId : Z) : Tx bool :=
  match getMarketBasicInfo p _marketId with
  | Some basic => Some (tradable basic timestamp)
  | None => Some false
  end.

(** [for (i = 0; i < optionCount && !hasAnyShares; i++)] *)
Fixpoint any_shares_loop (p : Policast) (_marketId : Z) (fuel : nat)
    (i optionCount : Z) (hasAnyShares : bool) : Tx bool :=
  match fuel with
  | O => Some hasAnyShares
  | S fuel' =>
      if (i <? optionCount) && negb hasAnyShares then
        do* option := getMarketOption p _marketId i in
        any_shares_loop p _marketId fuel' (i + 1) optionCount
          (if 0 <? totalShares option then true else hasAnyShares)
      else Some hasAnyShares
  end.

(** Each [catch] answers for a revert of the getter it guards; a revert
    inside a [try]'s success block is not caught. *)
Definition calculateCurrentPrice (p : Policast) (_marketId _optionId : Z) : Tx Z :=
  match getMarketBasicInfo p _marketId with
  | Some basic =>
      let optionCount := optionCount basic in
      if optionCount <=? _optionId then Some 0
      else
        match getMarketOption p _marketId _optionId with
        | Some option =>
            if totalShares option =? 0 then
              do* hasAnyShares :=
                any_shares_loop p _marketId (Z.to_nat optionCount) 0 optionCount false in
              if negb hasAnyShares then div (10 ^ 18) optionCount
              else Some (currentPrice option)
            else Some (currentPrice option)
        | None => div (10 ^ 18) optionCount
        end
  | None => Some 0
  end.

Definition getMarketOptionCount (p : Policast) (_marketId : Z) : Tx Z :=
  do* basic := getMarketBasicInfo p _marketId in Some (optionCount basic).

(** [odds[i] = this.calculateCurrentPrice(_marketId, i)] for each option. *)
Definition getMarketOdds (p : Policast) (_marketId : Z) : Tx (list Z) :=
  do* optionCount := getMarketOptionCount p _marketId in
  fill (calculateCurrentPrice p _marketId) optionCount.

Definition getUserWinnings (p : Policast) (_user : string) (_marketId : Z) : Tx Z :=
  do* meta := getMarketExtendedMeta p _marketId in
  do* basic := getMarketBasicInfo p _marketId in
  if negb (resolved basic) then Some 0
  else
    do* userWinningShares :=
      getMarketOptionUserShares p _marketId (winningOptionId meta) _user in
    do* product := mul userWinningShares (PAYOUT_PER_SHARE p) in
    div product (10 ^ 18).

(** [sharesBefore[i] = totalShares of option i] for each option. *)
Definition total_shares (p : Policast) (_marketId optionCount : Z) : Tx (list Z) :=
  fill (fun i => do* option := getMarketOption p _marketId i in
                 Some (totalShares option)) optionCount.

(** [for (i = 0; i < optionCount; i++) sharesAfter[i] = sharesBefore[i];] *)
Definition copy_shares (optionCount : Z) (sharesBefore : list Z) : Tx (list Z) :=
  fill (array_get sharesBefore) optionCount.

Definition market_data (optionCount b : Z) : MarketData :=
  mkMarketData optionCount b 0 0 0.

Record Quote : Type := mkQuote
  { raw : Z; fee : Z; total : Z; avgPricePerShare : Z }.

Definition quoteBuy (p : Policast) (_marketId _optionId _quantity : Z) : Tx Quote :=
  do* _ := require (_marketId <? marketCount p) in
  do* _ := require (0 <? _quantity) in
  do* basic := getMarketBasicInfo p _marketId in
  let optionCount := optionCount basic in
  do* b := getMarketLMSRB p _marketId in
  do* sharesBefore := total_shares p _marketId optionCount in
  do* sharesAfter := copy_shares optionCount sharesBefore in
  do* held := array_get sharesAfter _optionId in
  do* held' := add held _quantity in
  do* sharesAfter := array_set sharesAfter _optionId held' in
  let m := market_data optionCount b in
  do* costBefore := calculateLMSRCostWithShares p m sharesBefore in
  do* costAfter := calculateLMSRCostWithShares p m sharesAfter in
  do* rawCost := sub costAfter costBefore in
  let feeRate := platformFeeRate p in
  do* scaled := mul rawCost feeRate in
  do* fee := div scaled 10000 in
  do* totalCost := add rawCost fee in
  do* scaledTotal := mul totalCost (10 ^ 18) in
  do* avg := div scaledTotal _quantity in
  Some (mkQuote rawCost fee totalCost avg).

Definition quoteSell (p : Policast) (_marketId _optionId _quantity : Z) : Tx Quote :=
  do* _ := require (_marketId <? marketCount p) in
  do* _ := require (0 <? _quantity) in
  do* basic := getMarketBasicInfo p _marketId in
  let optionCount := optionCount basic in
  do* b := getMarketLMSRB p _marketId in
  do* sharesBefore := total_shares p _marketId optionCount in
  do* held := array_get sharesBefore _optionId in
  do* _ := require (_quantity <=? held) in
  do* sharesAfter := copy_shares optionCount sharesBefore in
  do* held := array_get sharesAfter _optionId in
  do* held' := sub held _quantity in
  do* sharesAfter := array_set sharesAfter _optionId held' in
  let m := market_data optionCount b in
  do* costBefore := calculateLMSRCostWithShares p m sharesBefore in
  do* costAfter := calculateLMSRCostWithShares p m sharesAfter in
  do* rawRefund := sub costBefore costAfter in
  let feeRate := platformFeeRate p in
  do* scaled := mul rawRefund feeRate in
  do* fee := div scaled 10000 in
  do* netRefund := sub rawRefund fee in
  do* scaledNet := mul netRefund (10 ^ 18) in
  do* avg := div scaledNet _quantity in
  Some (mkQuote rawRefund fee netRefund avg).

Definition calculateSellPrice (p : Policast) (_marketId _optionId _quantity : Z)
  : Tx Z :=
  do* quote := quoteSell p _marketId _optionId _quantity in Some (total quote).

(** The ledger the winnings route reads over RPC, seen through the same
    getters: a revert reaches the route as a rejected promise. *)
Definition rpc {A B} (convert : A -> B) (t : Tx A) : Res B :=
  match t with
  | Some a => Ok (convert a)
  | None => Throw (Error "execution reverted")
  end.

Definition as_chain (p : Policast)
    (userTradeHistory : string -> Z -> Res (option Winnings.Trade))
    (simulateClaimWinnings : Z -> string -> Res unit) : Winnings.Chain :=
  Winnings.mkChain
    (Ok (marketCount p))
    (Ok (PAYOUT_PER_SHARE p))
    (fun m => rpc (fun basic => Winnings.mkBasic (optionCount basic) (resolved basic)
                                                 (invalidated basic))
                  (getMarketBasicInfo p m))
    (fun m => rpc (fun meta => Winnings.mkExtended (winningOptionId meta) (disputed meta))
                  (getMarketExtendedMeta p m))
    (fun m option who => rpc (fun shares => shares)
                             (getMarketOptionUserShares p m option who))
    userTradeHistory simulateClaimWinnings.

End Views.

(** ** The position table of [MarketV2PositionManager]

    The component's computation of [positions] and of the totals shown
    under them, from what its three reads have delivered so far. *)

Module Positions.

(** An option of the market handed to the component: its name and the
    price it carried when the market was fetched. *)
Record MarketOption : Type := mkOption { name : string; fetchedPrice : Z }.

Record UserPosition : Type := mkPosition
  { optionId : nat; optionName : string; shares : Z; currentPrice : Z;
    currentValue : Z; unrealizedPnL : Z; unrealizedPnLPercent : Q }.

(** [userShares ? userShares[optionId] || 0n : 0n]; [userShares] is
    [undefined] until the read has answered. *)
Definition shares_of (userShares : option (list Z)) (optionId : nat) : Z :=
  match userShares with
  | Some held => match held !! optionId with
                 | Some s => s
                 | None => 0
                 end
  | None => 0
  end.

(** [optionData ? optionData[4] : option.currentPrice || 0n]; [liveData]
    lists, per option, the price of its [getMarketOption] read once that
    has answered. *)
Definition price_of (liveData : list (option Z)) (optionId : nat)
    (option : MarketOption) : Z :=
  match liveData !! optionId with
  | Some (Some live) => live
  | _ => fetchedPrice option
  end.

(** The callback of [market.options.map]. *)
Definition position (userShares : option (list Z)) (liveData : list (option Z))
    (optionId : nat) (option : MarketOption) : UserPosition :=
  let shares := shares_of userShares optionId in
  let currentPrice := price_of liveData optionId option in
  let currentValue :=
    if 0 <? shares then Z.quot (shares * currentPrice) (10 ^ 18) else 0 in
  let estimatedCostBasis := Z.quot (shares * (5 * 10 ^ 17)) (10 ^ 18) in
  let unrealizedPnL :=
    if (0 <? shares) && (0 <? currentPrice)
    then currentValue - estimatedCostBasis else 0 in
  let unrealizedPnLPercent :=
    if (0 <? shares) && (0 <? currentPrice) && (0 <? estimatedCostBasis)
    then (inject_Z (Z.quot (unrealizedPnL * 10000) estimatedCostBasis) / 100)%Q
    else 0%Q in
  mkPosition optionId (name option) shares currentPrice currentValue
             unrealizedPnL unrealizedPnLPercent.

Definition positions (userShares : option (list Z)) (liveData : list (option Z))
    (options : list MarketOption) : list UserPosition :=
  imap (position userShares liveData) options.

Definition filteredPositions (showZeroPositions : bool) (ps : list UserPosition)
  : list UserPosition :=
  if showZeroPositions then ps else List.filter (fun pos => 0 <? shares pos) ps.

(** [positions.reduce((sum, pos) => sum + pos.currentValue, 0n)] *)
Definition totalValue (ps : list UserPosition) : Z :=
  fold_left (fun sum pos => sum + currentValue pos) ps 0.

Definition totalUnrealizedPnL (ps : list UserPosition) : Z :=
  fold_left (fun sum pos => sum + unrealizedPnL pos) ps 0.

Definition hasPositions (ps : list UserPosition) : bool :=
  existsb (fun pos => 0 <? shares pos) ps.

End Positions.

(** ** Further concrete inputs: a ledger seen through the views, and a
    position table *)

Module Ledgers.

(** A ledger without markets. *)
Definition chain_empty : Winnings.Chain :=
  Winnings.mkChain (Ok 0) (Ok (100 * 10 ^ 18))
    (fun _ => reverted) (fun _ => reverted) (fun _ _ _ => reverted)
    (fun _ _ => reverted) (fun _ _ => reverted).

(** Three markets.  Market 0 is open, of category 0, with two options of
    1000 shares each; market 1 is open, of category 1, with three options
    and no shares yet; market 2 is resolved in favour of option 1, of
    category 0, with two options of 1000 shares each.  The wallet holds
    2e18 shares of option 1 in markets 0 and 2.  The fee is 2 %; the cost
    function charges one unit per share. *)
Definition ledger : Views.Policast :=
  Views.mkPolicast 3 200 (100 * 10 ^ 18)
    (fun m =>
       if (0 <=? m) && (m <? 3)
       then Some (Views.mkBasicInfo "question" "description" 1000
                    (if m =? 1 then 1 else 0) (if m =? 1 then 3 else 2)
                    (m =? 2) 0 false 0)
       else None)
    (fun m _ =>
       if (0 <=? m) && (m <? 3)
       then Some (Views.mkOptionInfo "option" "" (if m =? 1 then 0 else 1000) 0
                    (5 * 10 ^ 17) true)
       else None)
    (fun m option who =>
       Some (if String.eqb who wallet && (option =? 1) && negb (m =? 1)
             then 2 * 10 ^ 18 else 0))
    (fun _ => Some (Views.mkExtendedMeta 1 false "creator" false))
    (fun _ => Some 1000)
    (fun _ shares => Some (fold_right Z.add 0 shares)).

(** The ledger as the winnings route reads it, for a wallet without trade
    history whose claims would go through. *)
Definition ledger_chain : Winnings.Chain :=
  Views.as_chain ledger (fun _ _ => reverted) (fun _ _ => Ok tt).

Definition won_2 : Winnings.UserWinnings :=
  Winnings.mkWinnings 2 (200 * 10 ^ 18) true.

(** A market of two options fetched at prices 0.6 and 0.4; the wallet
    holds 2e18 shares of the first; the live price of the second has
    arrived and is 0.3. *)
Definition yes_no : list Positions.MarketOption :=
  [Positions.mkOption "Yes" (6 * 10 ^ 17); Positions.mkOption "No" (4 * 10 ^ 17)].

Definition held_yes : option (list Z) := Some [2 * 10 ^ 18; 0].

Definition live_no : list (option Z) := [None; Some (3 * 10 ^ 17)].

End Ledgers.
Import Ledgers.

(** * Properties *)

(** ** ResilientCaller *)

Section RetryFacts.

Context {T : Type}.
Variable fn : nat -> Res T.
Variable retries : nat.
Variable baseDelay : Z.

Lemma backoff_prescribed i e :
  fn i = Throw e -> backoff baseDelay i e = prescribed_delay fn baseDelay i.
Proof.
  intros Hi. unfold backoff, prescribed_delay, rate_limited. rewrite Hi.
  destruct (status e) as [s|]; [|reflexivity].
  destruct (Z.eqb_spec s 429) as [->|Hne]; [reflexivity|].
  destruct s as [|p|p]; try reflexivity.
  repeat (destruct p as [p|p|]; try reflexivity); congruence.
Qed.

Lemma retry_loop_calls fuel i :
  (calls (retry_loop fn retries baseDelay fuel i) <= fuel)%nat.
Proof.
  revert i. induction fuel as [|fuel IH]; intros i; simpl; [lia|].
  destruct (fn i); simpl; [lia|].
  destruct (_ =? _); simpl; [lia|]. specialize (IH (S i)). lia.
Qed.

Lemma retry_loop_success fuel : forall i k v,
  (i + fuel = retries)%nat -> (i <= k < retries)%nat ->
  (forall j, (i <= j < k)%nat -> is_ok (fn j) = false) ->
  fn k = Ok v ->
  let r := retry_loop fn retries baseDelay fuel i in
  outcome r = Ok v /\ calls r = S (k - i) /\
  sleeps r = List.map (prescribed_delay fn baseDelay) (seq i (k - i)).
Proof.
  induction fuel as [|fuel IH]; intros i k v Hfuel Hk Hfail Hok; [lia|].
  simpl. destruct (fn i) as [v'|e] eqn:Hi.
  - destruct (decide (i = k)) as [->|Hne].
    + rewrite Hok in Hi. injection Hi as ->.
      replace (k - k)%nat with 0%nat by lia. auto.
    + specialize (Hfail i ltac:(lia)). rewrite Hi in Hfail. discriminate.
  - assert (i <> k) as Hne by (intros ->; congruence).
    destruct (Z.eqb_spec (Z.of_nat i) (Z.of_nat retries - 1)); [lia|].
    destruct (IH (S i) k v) as (H1 & H2 & H3); try lia; auto.
    { intros j Hj. apply Hfail. lia. }
    simpl. rewrite H1, H2, H3.
    replace (k - i)%nat with (S (k - S i)) by lia. simpl.
    rewrite (backoff_prescribed i e Hi). repeat split; auto.
Qed.

Lemma retry_loop_exhausted fuel : forall i e,
  (i + fuel = retries)%nat -> (i < retries)%nat ->
  (forall j, (i <= j < retries)%nat -> is_ok (fn j) = false) ->
  fn (retries - 1)%nat = Throw e ->
  let r := retry_loop fn retries baseDelay fuel i in
  outcome r = Throw e /\ calls r = fuel /\
  sleeps r = List.map (prescribed_delay fn baseDelay) (seq i (fuel - 1)).
Proof.
  induction fuel as [|fuel IH]; intros i e Hfuel Hi Hfail Hlast; [lia|].
  simpl. destruct (fn i) as [v'|e'] eqn:Hfi.
  - specialize (Hfail i ltac:(lia)). rewrite Hfi in Hfail. discriminate.
  - destruct (Z.eqb_spec (Z.of_nat i) (Z.of_nat retries - 1)) as [Heq|Hne].
    + assert (i = (retries - 1)%nat) as -> by lia.
      assert (fuel = 0%nat) as -> by lia.
      rewrite Hlast in Hfi. injection Hfi as ->. simpl. auto.
    + destruct (IH (S i) e) as (H1 & H2 & H3); try lia; auto.
      { intros j Hj. apply Hfail. lia. }
      simpl. rewrite H1, H2, H3.
      replace (fuel - 0)%nat with (S (fuel - 1)) by lia. simpl.
      rewrite (backoff_prescribed i e' Hfi). repeat split; auto.
Qed.

(** C7. [withRetry] with [retries >= 1] invokes the operation at most
    [retries] times; it resolves with the value of the first invocation
    that succeeds, having slept [baseDelay * 2^i] after each failed
    attempt [i] before it, raised to at least 10000 ms when that failure
    carried status 429; when all [retries] invocations fail it rejects
    with the error of the last one. *)
Theorem withRetry_contract :
  (1 <= retries)%nat ->
  let r := withRetry fn retries baseDelay in
  (calls r <= retries)%nat /\
  (forall k v,
      (k < retries)%nat ->
      (forall j, (j < k)%nat -> is_ok (fn j) = false) ->
      fn k = Ok v ->
      outcome r = Ok v /\ calls r = S k /\
      sleeps r = List.map (prescribed_delay fn baseDelay) (seq 0 k)) /\
  (forall e,
      (forall j, (j < retries)%nat -> is_ok (fn j) = false) ->
      fn (retries - 1)%nat = Throw e ->
      outcome r = Throw e /\ calls r = retries /\
      sleeps r = List.map (prescribed_delay fn baseDelay) (seq 0 (retries - 1))).
Proof.
  intros Hn r. subst r. unfold withRetry. split; [apply retry_loop_calls|]. split.
  - intros k v Hk Hfail Hok.
    destruct (retry_loop_success retries 0%nat k v) as (H1 & H2 & H3);
      try lia; auto.
    { intros j Hj. apply Hfail. lia. }
    replace (k - 0)%nat with k in * by lia. auto.
  - intros e Hfail Hlast.
    apply (retry_loop_exhausted retries 0%nat e); try lia; auto.
    intros j Hj. apply Hfail. lia.
Qed.

End RetryFacts.

Lemma withRetry_contract_witness :
  (1 <= 3)%nat /\
  outcome (withRetry flaky_op 3 2000) = Ok 7 /\
  calls (withRetry flaky_op 3 2000) = 3%nat /\
  sleeps (withRetry flaky_op 3 2000)
  = List.map (prescribed_delay flaky_op 2000) (seq 0 2).
Proof.
  split; [lia|].
  destruct (withRetry_contract flaky_op 3 2000 ltac:(lia)) as (_ & H & _).
  apply (H 2%nat 7); [lia | | reflexivity].
  intros [|[|j]] Hj; [reflexivity | reflexivity | lia].
Defined.

Example flaky_run :
  withRetry flaky_op 3 2000 = mkRun (Ok 7) 3 [10000; 4000].
Proof. reflexivity. Qed.

(** ** ParticipationDiscovery *)

Section DiscoveryFacts.

Import Winnings.

Lemma set_add_In s x y : In y (set_add s x) <-> In y s \/ y = x.
Proof.
  unfold set_add. destruct (existsb (Z.eqb x) s) eqn:E.
  - split; [auto|]. intros [H| ->]; [exact H|].
    apply existsb_exists in E as (z & Hz & Heq).
    apply Z.eqb_eq in Heq. subst. exact Hz.
  - rewrite in_app_iff. simpl. intuition.
Qed.

Lemma set_add_NoDup s x : NoDup s -> NoDup (set_add s x).
Proof.
  intros Hs. unfold set_add. destruct (existsb (Z.eqb x) s) eqn:E; [exact Hs|].
  apply NoDup_app. split; [exact Hs|]. split.
  - intros y Hy Hy'. apply list_elem_of_In in Hy, Hy'.
    simpl in Hy'. destruct Hy' as [<-|[]].
    assert (existsb (Z.eqb x) s = true) as E'
      by (apply existsb_exists; exists x; split; [exact Hy | apply Z.eqb_refl]).
    congruence.
  - apply NoDup_singleton.
Qed.

Lemma set_of_NoDup_from l : forall s, NoDup s -> NoDup (fold_left set_add l s).
Proof.
  induction l as [|x l IH]; intros s Hs; simpl; [exact Hs|].
  apply IH, set_add_NoDup, Hs.
Qed.

Lemma set_of_NoDup l : NoDup (set_of l).
Proof. apply set_of_NoDup_from. constructor. Qed.

Lemma add_trade_NoDup_from l : forall s,
  NoDup s -> NoDup (fold_left add_trade l s).
Proof.
  induction l as [|x l IH]; intros s Hs; simpl; [exact Hs|].
  apply IH. unfold add_trade. destruct (tradeMarketId x); [|exact Hs].
  apply set_add_NoDup, Hs.
Qed.

Lemma insert_asc_In a l x : In x (insert_asc a l) <-> x = a \/ In x l.
Proof.
  induction l as [|b l IH]; simpl; [intuition|].
  destruct (0 <? a - b); simpl; rewrite ?IH; intuition.
Qed.

Lemma insert_asc_sorted a l :
  StronglySorted Z.lt l -> ~ In a l -> StronglySorted Z.lt (insert_asc a l).
Proof.
  induction 1 as [|b l Hl IH Hb]; intros Hnotin; simpl.
  - repeat constructor.
  - destruct (Z.ltb_spec 0 (a - b)) as [Hlt|Hge].
    + constructor.
      * apply IH. intros Hin. apply Hnotin. now right.
      * apply Forall_forall. intros x Hx. apply list_elem_of_In in Hx.
        apply insert_asc_In in Hx as [->|Hx]; [lia|].
        rewrite Forall_forall in Hb. apply Hb. now apply list_elem_of_In.
    + assert (a <> b) by (intros ->; apply Hnotin; now left).
      constructor; [constructor; assumption|].
      constructor; [lia|].
      rewrite Forall_forall in Hb |- *. intros x Hx.
      specialize (Hb x Hx). lia.
Qed.

Lemma sort_asc_In l x : In x (sort_asc l) <-> In x l.
Proof.
  induction l as [|a l IH]; simpl; [tauto|].
  rewrite insert_asc_In, IH. intuition.
Qed.

Lemma sort_asc_sorted l : NoDup l -> StronglySorted Z.lt (sort_asc l).
Proof.
  induction l as [|a l IH]; intros Hnd; simpl; [constructor|].
  apply NoDup_cons_1_2 in Hnd as Hl. apply NoDup_cons_1_1 in Hnd as Ha.
  apply insert_asc_sorted; [apply IH, Hl|].
  rewrite sort_asc_In. intros Hin. apply Ha. now apply list_elem_of_In.
Qed.

End DiscoveryFacts.

(** ** The winnings request as a whole *)

Section PostFacts.

Import Winnings.

Variable chain : Chain.
Variable userAddress : string.

Lemma discover_total :
  exists l, discoverUserMarketsFromTrades chain userAddress = Ok l.
Proof.
  unfold discoverUserMarketsFromTrades, readUserTradeHistory, rbind.
  destruct (history_loop chain userAddress 100 0 []); eauto.
Qed.

Lemma fallback_total :
  exists l, fallbackScanParticipation chain userAddress = Ok l.
Proof.
  unfold fallbackScanParticipation.
  destruct (marketCount chain) as [mCount|]; eauto.
  destruct (mCount =? 0); eauto.
  destruct (PAYOUT_PER_SHARE chain); eauto.
Qed.

Lemma compute_total markets :
  exists l, computeClaimableWinnings chain userAddress markets = Ok l.
Proof. unfold computeClaimableWinnings. destruct markets; eauto. Qed.


Lemma set_of_In_from l : forall s m,
  In m (fold_left set_add l s) <-> In m s \/ In m l.
Proof.
  induction l as [|x l IH]; intros s m; simpl; [tauto|].
  rewrite IH, set_add_In. intuition.
Qed.

Lemma set_of_In l m : In m (set_of l) <-> In m l.
Proof. unfold set_of. rewrite set_of_In_from. simpl. tauto. Qed.

Lemma participated_run :
  exists fromTrades found,
    discoverUserMarketsFromTrades chain userAddress = Ok fromTrades /\
    match fromTrades with
    | [] => fallbackScanParticipation chain userAddress
    | _ :: _ => Ok fromTrades
    end = Ok found /\
    participated chain userAddress = Ok (sort_asc (set_of found)).
Proof.
  destruct discover_total as [fromTrades Hd].
  assert (exists found,
             match fromTrades with
             | [] => fallbackScanParticipation chain userAddress
             | _ :: _ => Ok fromTrades
             end = Ok found) as [found Hf].
  { destruct fromTrades; [apply fallback_total | eauto]. }
  exists fromTrades, found. split; [exact Hd|]. split; [exact Hf|].
  unfold participated, rbind. rewrite Hd, Hf. reflexivity.
Qed.

Lemma POST_answer :
  userAddress <> "" ->
  exists fromTrades found winningsData,
    discoverUserMarketsFromTrades chain userAddress = Ok fromTrades /\
    match fromTrades with
    | [] => fallbackScanParticipation chain userAddress
    | _ :: _ => Ok fromTrades
    end = Ok found /\
    computeClaimableWinnings chain userAddress (sort_asc (set_of found))
    = Ok winningsData /\
    POST chain (Ok (Object (Some userAddress)))
    = match winningsData with
      | [] => Json (sort_asc (set_of found)) []
                   (Z.of_nat (List.length (sort_asc (set_of found)))) 0
      | _ :: _ =>
          JsonError ("Failed to auto-discover user markets: "
                     ++ "Do not know how to serialize a BigInt") 500
      end.
Proof.
  intros Hne.
  destruct participated_run as (fromTrades & found & Hd & Hf & Hp).
  destruct (compute_total (sort_asc (set_of found))) as [wd Hc].
  exists fromTrades, found, wd. repeat split; auto.
  unfold POST, rbind, destructure. destruct userAddress as [|a u]; [congruence|].
  rewrite Hp, Hc. destruct wd; reflexivity.
Qed.

Lemma discover_sorted fromTrades :
  discoverUserMarketsFromTrades chain userAddress = Ok fromTrades ->
  StronglySorted Z.lt fromTrades.
Proof.
  unfold discoverUserMarketsFromTrades, rbind.
  destruct (readUserTradeHistory chain userAddress) as [[|t trades]|];
    [intros [= <-]; constructor| |discriminate].
  intros [= <-]. apply sort_asc_sorted.
  apply (add_trade_NoDup_from (t :: trades) []). constructor.
Qed.

(** C6. The markets that discovery hands on, [participatedMarkets] after
    the handler's dedupe-and-sort, are in strictly ascending order, hence
    without duplicates, and are exactly the markets found by the trade
    history or, when that finds none, by the fallback scan; the trade
    history's own result is strictly ascending too; whenever the request
    answers with data, [participatedMarkets] is that list; a trade history
    that references markets 3, 7, 3 yields exactly [3; 7]. *)
Theorem participatedMarkets_ascending :
  exists fromTrades found pm,
    discoverUserMarketsFromTrades chain userAddress = Ok fromTrades /\
    StronglySorted Z.lt fromTrades /\
    match fromTrades with
    | [] => fallbackScanParticipation chain userAddress
    | _ :: _ => Ok fromTrades
    end = Ok found /\
    participated chain userAddress = Ok pm /\
    StronglySorted Z.lt pm /\
    (forall m, In m pm <-> In m found) /\
    (forall pm' wd n c,
       POST chain (Ok (Object (Some userAddress))) = Json pm' wd n c ->
       pm' = pm /\ n = Z.of_nat (List.length pm)) /\
    (List.map tradeMarketId (history_loop chain userAddress 100 0 [])
     = [Some 3; Some 7; Some 3] -> fromTrades = [3; 7] /\ pm = [3; 7]).
Proof.
  destruct participated_run as (fromTrades & found & Hd & Hf & Hp).
  exists fromTrades, found, (sort_asc (set_of found)).
  split; [exact Hd|]. split; [exact (discover_sorted _ Hd)|].
  split; [exact Hf|]. split; [exact Hp|].
  split; [apply sort_asc_sorted, set_of_NoDup|]. split; [|split].
  - intros m. rewrite sort_asc_In. apply set_of_In.
  - intros pm' wd n c HP.
    assert (userAddress <> "") as Hne by (intros ->; discriminate HP).
    destruct (POST_answer Hne) as (ft & fd & wd' & Hd' & Hf' & _ & HP').
    rewrite Hd in Hd'. injection Hd' as <-. rewrite Hf in Hf'. injection Hf' as <-.
    rewrite HP' in HP. destruct wd'; [|discriminate].
    injection HP as <- _ <- _. split; reflexivity.
  - intros Hh.
    unfold discoverUserMarketsFromTrades, readUserTradeHistory, rbind in Hd.
    destruct (history_loop chain userAddress 100 0 [])
      as [|[t1] [|[t2] [|[t3] [|? ?]]]]; try discriminate.
    simpl in Hh. injection Hh as -> -> ->.
    injection Hd as <-. vm_compute in Hf. injection Hf as <-.
    split; reflexivity.
Qed.

End PostFacts.

Lemma participatedMarkets_ascending_witness :
  exists fromTrades found pm,
    Winnings.discoverUserMarketsFromTrades chain_373 wallet = Ok fromTrades /\
    Winnings.participated chain_373 wallet = Ok pm /\
    (forall m, In m pm <-> In m found) /\
    fromTrades = [3; 7] /\ pm = [3; 7] /\
    Winnings.POST chain_373 (Ok (Winnings.Object (Some wallet)))
    = Winnings.Json pm [] 2 0.
Proof.
  destruct (participatedMarkets_ascending chain_373 wallet)
    as (fromTrades & found & pm & Hd & _ & _ & Hp & _ & Hmem & _ & H373).
  destruct (H373 eq_refl) as [-> ->].
  exists [3; 7], found, [3; 7].
  split; [exact Hd|]. split; [exact Hp|]. split; [exact Hmem|].
  split; [reflexivity|]. split; [reflexivity|]. vm_compute. reflexivity.
Defined.

Example discover_373 :
  Winnings.discoverUserMarketsFromTrades chain_373 wallet = Ok [3; 7].
Proof. reflexivity. Qed.

(** ** ClaimabilityVerifier *)

Section ClaimFacts.

Import Winnings.

Variable chain : Chain.
Variable userAddress : string.

Lemma check_market_emits payoutPerShare m r :
  check_market chain userAddress payoutPerShare m = Ok (Some r) ->
  marketId r = m /\ hasWinnings r = true /\
  amount r = Z.quot
               (match getMarketExtendedMeta chain m with
                | Ok extended =>
                    match getMarketOptionUserShares chain m
                            (winningOptionId extended) userAddress with
                    | Ok shares => shares
                    | Throw _ => 0
                    end
                | Throw _ => 0
                end * payoutPerShare) (10 ^ 18) /\
  exists basic extended shares,
    getMarketBasicInfo chain m = Ok basic /\
    resolved basic = true /\ invalidated basic = false /\
    getMarketExtendedMeta chain m = Ok extended /\
    disputed extended = false /\
    getMarketOptionUserShares chain m (winningOptionId extended) userAddress
    = Ok shares /\
    shares <> 0 /\
    simulateClaimWinnings chain m userAddress = Ok tt.
Proof.
  unfold check_market, rbind, classify_sim_error.
  destruct (getMarketBasicInfo chain m) as [basic|] eqn:Hb; [|discriminate].
  destruct (resolved basic) eqn:Hr; [|discriminate].
  destruct (invalidated basic) eqn:Hi; [discriminate|]. simpl.
  destruct (getMarketExtendedMeta chain m) as [extended|] eqn:He; [|discriminate].
  destruct (disputed extended) eqn:Hd; [discriminate|].
  destruct (getMarketOptionUserShares chain m (winningOptionId extended) userAddress)
    as [shares|] eqn:Hs; [|discriminate].
  destruct (Z.eqb_spec shares 0) as [|Hne]; [discriminate|].
  destruct (simulateClaimWinnings chain m userAddress) as [[]|e] eqn:Hsim.
  - simpl. destruct (0 <? _); [|discriminate]. intros [= <-]. simpl.
    repeat split; auto. exists basic, extended, shares. repeat split; auto.
  - destruct (_ || _); discriminate.
Qed.

Lemma claim_fold_acc payoutPerShare ms : forall acc,
  fold_left (claim_step chain userAddress payoutPerShare) ms acc
  = (acc ++ fold_left (claim_step chain userAddress payoutPerShare) ms [])%list.
Proof.
  induction ms as [|m ms IH]; intros acc; simpl; [now rewrite app_nil_r|].
  rewrite IH. rewrite (IH (claim_step _ _ _ [] m)).
  unfold claim_step. destruct (check_market _ _ _ m) as [[w|]|]; simpl;
    rewrite ?app_nil_r, <- ?app_assoc; reflexivity.
Qed.

Lemma claim_fold_In payoutPerShare ms r :
  In r (fold_left (claim_step chain userAddress payoutPerShare) ms []) ->
  exists m, In m ms /\
            check_market chain userAddress payoutPerShare m = Ok (Some r).
Proof.
  induction ms as [|m ms IH]; simpl; [tauto|].
  rewrite claim_fold_acc, in_app_iff. intros [H|H].
  - exists m. split; [now left|]. unfold claim_step in H.
    destruct (check_market _ _ _ m) as [[w|]|]; simpl in H; try tauto.
    destruct H as [->|[]]. reflexivity.
  - destruct (IH H) as (m' & Hin & Hc). exists m'. split; [now right|exact Hc].
Qed.

Lemma compute_unfold markets :
  computeClaimableWinnings chain userAddress markets
  = Ok (fold_left
          (claim_step chain userAddress
             match PAYOUT_PER_SHARE chain with
             | Ok p => p
             | Throw _ => 100 * 10 ^ 18
             end) markets []).
Proof. destruct markets; reflexivity. Qed.

Lemma check_market_skips payoutPerShare m :
  is_ok (getMarketBasicInfo chain m) = false \/
  is_ok (getMarketExtendedMeta chain m) = false \/
  (forall option, is_ok (getMarketOptionUserShares chain m option userAddress) = false) \/
  is_ok (simulateClaimWinnings chain m userAddress) = false ->
  forall acc, claim_step chain userAddress payoutPerShare acc m = acc.
Proof.
  intros H acc. unfold claim_step.
  destruct (check_market chain userAddress payoutPerShare m) as [[r|]|] eqn:Hc;
    try reflexivity.
  apply check_market_emits in Hc
    as (_ & _ & _ & basic & extended & shares & Hb & _ & _ & He & _ & Hs & _ & Hsim).
  destruct H as [H|[H|[H|H]]].
  - rewrite Hb in H. discriminate.
  - rewrite He in H. discriminate.
  - specialize (H (winningOptionId extended)). rewrite Hs in H. discriminate.
  - rewrite Hsim in H. discriminate.
Qed.

Lemma claim_fold_In_conv payoutPerShare ms m r :
  In m ms ->
  check_market chain userAddress payoutPerShare m = Ok (Some r) ->
  In r (fold_left (claim_step chain userAddress payoutPerShare) ms []).
Proof.
  induction ms as [|a ms IH]; simpl; [tauto|].
  intros [->|Hin] Hc; rewrite claim_fold_acc, in_app_iff.
  - left. unfold claim_step. rewrite Hc. now left.
  - right. now apply IH.
Qed.

Lemma check_market_claimable payoutPerShare m basic extended shares :
  getMarketBasicInfo chain m = Ok basic ->
  resolved basic = true -> invalidated basic = false ->
  getMarketExtendedMeta chain m = Ok extended ->
  disputed extended = false ->
  getMarketOptionUserShares chain m (winningOptionId extended) userAddress
  = Ok shares ->
  shares <> 0 ->
  simulateClaimWinnings chain m userAddress = Ok tt ->
  0 < Z.quot (shares * payoutPerShare) (10 ^ 18) ->
  check_market chain userAddress payoutPerShare m
  = Ok (Some (mkWinnings m (Z.quot (shares * payoutPerShare) (10 ^ 18)) true)).
Proof.
  intros Hb Hr Hi He Hd Hs Hne Hsim Hpos.
  unfold check_market, rbind. rewrite Hb, Hr, Hi, He, Hd, Hs, Hsim. simpl.
  destruct (Z.eqb_spec shares 0) as [|_]; [contradiction|].
  destruct (Z.ltb_spec 0 (Z.quot (shares * payoutPerShare) (10 ^ 18))); [|lia].
  reflexivity.
Qed.

(** C8, batch level. A market whose processing rejects at any read, or
    whose claim simulation rejects (for instance with "already claimed"),
    is left out, and no error reaches the caller: the batch returns, with
    exactly the results it returns without that market, among them the
    row of every other market of the batch that is claimable. *)
Theorem faulty_market_skipped pre m post :
  is_ok (getMarketBasicInfo chain m) = false \/
  is_ok (getMarketExtendedMeta chain m) = false \/
  (forall option, is_ok (getMarketOptionUserShares chain m option userAddress) = false) \/
  is_ok (simulateClaimWinnings chain m userAddress) = false ->
  exists results,
    computeClaimableWinnings chain userAddress (pre ++ m :: post) = Ok results /\
    computeClaimableWinnings chain userAddress (pre ++ post) = Ok results /\
    ~ In m (List.map marketId results) /\
    forall m' basic extended shares,
      In m' (pre ++ post) ->
      getMarketBasicInfo chain m' = Ok basic ->
      resolved basic = true -> invalidated basic = false ->
      getMarketExtendedMeta chain m' = Ok extended ->
      disputed extended = false ->
      getMarketOptionUserShares chain m' (winningOptionId extended) userAddress
      = Ok shares ->
      shares <> 0 ->
      simulateClaimWinnings chain m' userAddress = Ok tt ->
      let payoutPerShare :=
        match PAYOUT_PER_SHARE chain with
        | Ok p => p
        | Throw _ => 100 * 10 ^ 18
        end in
      let amount := Z.quot (shares * payoutPerShare) (10 ^ 18) in
      0 < amount ->
      In (mkWinnings m' amount true) results.
Proof.
  intros Hfault. rewrite !compute_unfold.
  set (p := match PAYOUT_PER_SHARE chain with Ok p => p | Throw _ => _ end).
  exists (fold_left (claim_step chain userAddress p) (pre ++ post) []).
  split; [|split; [reflexivity|split]].
  - rewrite !fold_left_app. simpl.
    now rewrite (check_market_skips p m Hfault).
  - intros Hin. apply in_map_iff in Hin as (r & Hr & Hin).
    apply claim_fold_In in Hin as (m' & _ & Hc).
    pose proof (check_market_emits p m' r Hc) as (Hid & _).
    assert (m' = m) as -> by congruence.
    pose proof (check_market_skips p m Hfault []) as Hskip.
    unfold claim_step in Hskip. rewrite Hc in Hskip. discriminate.
  - intros m' basic extended shares Hin Hb Hr Hi He Hd Hs Hne Hsim payout amount Hpos.
    apply (claim_fold_In_conv p _ m' _ Hin).
    now apply (check_market_claimable p m' basic extended shares).
Qed.

(** C2. A row returned by the verifier has [hasWinnings = true] and
    belongs to one of the markets it was given, which reads as resolved,
    not invalidated and not disputed, in whose winning option the wallet
    holds a nonzero balance and whose claim simulation succeeds; a market
    that reads as unresolved has no row. *)
Theorem claimable_only_if_verified markets results :
  computeClaimableWinnings chain userAddress markets = Ok results ->
  (forall r, In r results ->
     hasWinnings r = true /\ In (marketId r) markets /\
     exists basic extended shares,
       getMarketBasicInfo chain (marketId r) = Ok basic /\
       resolved basic = true /\ invalidated basic = false /\
       getMarketExtendedMeta chain (marketId r) = Ok extended /\
       disputed extended = false /\
       getMarketOptionUserShares chain (marketId r)
         (winningOptionId extended) userAddress = Ok shares /\
       shares <> 0 /\
       simulateClaimWinnings chain (marketId r) userAddress = Ok tt) /\
  (forall m basic,
     getMarketBasicInfo chain m = Ok basic -> resolved basic = false ->
     ~ In m (List.map marketId results)).
Proof.
  rewrite compute_unfold. intros [= <-].
  assert (forall r, In r
            (fold_left (claim_step chain userAddress
               match PAYOUT_PER_SHARE chain with
               | Ok p => p
               | Throw _ => 100 * 10 ^ 18
               end) markets []) ->
            In (marketId r) markets /\
            hasWinnings r = true /\
            exists basic extended shares,
              getMarketBasicInfo chain (marketId r) = Ok basic /\
              resolved basic = true /\ invalidated basic = false /\
              getMarketExtendedMeta chain (marketId r) = Ok extended /\
              disputed extended = false /\
              getMarketOptionUserShares chain (marketId r)
                (winningOptionId extended) userAddress = Ok shares /\
              shares <> 0 /\
              simulateClaimWinnings chain (marketId r) userAddress = Ok tt)
    as Hrows.
  { intros r Hin. apply claim_fold_In in Hin as (m & Hm & Hc).
    apply check_market_emits in Hc as (Hid & Hw & _ & Hex).
    subst m. auto. }
  split.
  - intros r Hin. destruct (Hrows r Hin) as (H1 & H2 & H3). auto.
  - intros m basic Hb Hunres Hin.
    apply in_map_iff in Hin as (r & Hr & Hin).
    destruct (Hrows r Hin) as (_ & _ & b & _ & _ & Hb' & Hres & _).
    rewrite Hr, Hb in Hb'. injection Hb' as <-. congruence.
Qed.

End ClaimFacts.

Lemma faulty_market_skipped_witness :
  is_ok (Winnings.simulateClaimWinnings chain_claims 9 wallet) = false /\
  exists results,
    Winnings.computeClaimableWinnings chain_claims wallet [4; 9; 5] = Ok results /\
    Winnings.computeClaimableWinnings chain_claims wallet [4; 5] = Ok results /\
    ~ In 9 (List.map Winnings.marketId results) /\
    In won_4 results.
Proof.
  split; [reflexivity|].
  destruct (faulty_market_skipped chain_claims wallet [4] 9 [5])
    as (results & H1 & H2 & H3 & H4).
  { right. right. right. reflexivity. }
  exists results. split; [exact H1|]. split; [exact H2|]. split; [exact H3|].
  apply (H4 4 (Winnings.mkBasic 2 true false) (Winnings.mkExtended 1 false)
            (2 * 10 ^ 18));
    try reflexivity; [now left | discriminate].
Defined.

Lemma claimable_only_if_verified_witness :
  Winnings.computeClaimableWinnings chain_claims wallet [4; 5; 6; 9] = Ok [won_4] /\
  In won_4 [won_4] /\
  Winnings.hasWinnings won_4 = true /\
  Winnings.getMarketBasicInfo chain_claims 5 = Ok (Winnings.mkBasic 2 false false) /\
  ~ In 5 (List.map Winnings.marketId [won_4]).
Proof.
  assert (Winnings.computeClaimableWinnings chain_claims wallet [4; 5; 6; 9]
          = Ok [won_4]) as Hc by reflexivity.
  destruct (claimable_only_if_verified chain_claims wallet _ _ Hc) as [Hrows Hunres].
  split; [exact Hc|]. split; [now left|]. split.
  - apply (Hrows won_4). now left.
  - split; [reflexivity|]. apply (Hunres 5 (Winnings.mkBasic 2 false false)); reflexivity.
Defined.

(** ** LeaderboardAggregator: the merge *)

Section MergeFacts.

Import Leaderboard.

Lemma map_get_set_eq {V} k (v : V) m : map_get k (map_set k v m) = Some v.
Proof.
  induction m as [|[k' v'] m IH]; simpl.
  - now rewrite String.eqb_refl.
  - destruct (String.eqb_spec k' k) as [->|Hne]; simpl.
    + now rewrite String.eqb_refl.
    + destruct (String.eqb_spec k' k); [contradiction|exact IH].
Qed.

Lemma map_get_set_ne {V} k k' (v : V) m :
  k <> k' -> map_get k' (map_set k v m) = map_get k' m.
Proof.
  intros Hne. induction m as [|[k0 v0] m IH]; simpl.
  - destruct (String.eqb_spec k k'); [contradiction|reflexivity].
  - destruct (String.eqb_spec k0 k) as [->|Hne0]; simpl.
    + destruct (String.eqb_spec k k'); [contradiction|reflexivity].
    + destruct (String.eqb_spec k0 k'); [reflexivity|exact IH].
Qed.

Lemma map_set_keys {V} k (v : V) m k0 v0 :
  In (k0, v0) (map_set k v m) -> (k0 = k /\ v0 = v) \/ In (k0, v0) m.
Proof.
  induction m as [|[k' v'] m IH]; simpl.
  - intros [[= <- <-]|[]]. now left.
  - destruct (String.eqb_spec k' k) as [->|Hne]; simpl.
    + intros [[= <- <-]|H]; [now left|right; now right].
    + intros [H|H]; [right; now left|].
      destruct (IH H) as [?|?]; [now left|right; now right].
Qed.

Lemma fold_add_v1_other V1 : forall m k,
  ~ In k (List.map (fun e => toLowerCase (user e)) V1) ->
  map_get k (fold_left add_v1 V1 m) = map_get k m.
Proof.
  induction V1 as [|a V1 IH]; intros m k Hk; simpl; [reflexivity|].
  simpl in Hk. rewrite IH by tauto.
  unfold add_v1. apply map_get_set_ne. intros Heq. apply Hk. now left.
Qed.

Lemma fold_add_v1_mine V1 : forall m e,
  NoDup (List.map (fun e => toLowerCase (user e)) V1) -> In e V1 ->
  map_get (toLowerCase (user e)) (fold_left add_v1 V1 m) = Some e.
Proof.
  induction V1 as [|a V1 IH]; intros m e Hnd Hin; simpl in *; [tauto|].
  apply NoDup_cons in Hnd as [Ha Hnd]. destruct Hin as [->|Hin].
  - rewrite fold_add_v1_other by (intros H; apply Ha; now apply list_elem_of_In).
    apply map_get_set_eq.
  - now apply IH.
Qed.

Lemma fold_add_v2_other V2 : forall m k,
  ~ In k (List.map (fun e => toLowerCase (user e)) V2) ->
  map_get k (fold_left add_v2 V2 m) = map_get k m.
Proof.
  induction V2 as [|a V2 IH]; intros m k Hk; simpl; [reflexivity|].
  simpl in Hk. rewrite IH by tauto.
  assert (toLowerCase (user a) <> k) as Hne by (intros Heq; apply Hk; now left).
  unfold add_v2. destruct (map_get (toLowerCase (user a)) m); now apply map_get_set_ne.
Qed.

Lemma fold_add_v2_mine V2 : forall m e,
  NoDup (List.map (fun e => toLowerCase (user e)) V2) -> In e V2 ->
  map_get (toLowerCase (user e)) (fold_left add_v2 V2 m)
  = Some match map_get (toLowerCase (user e)) m with
         | Some existing =>
             mkEntry (user e) (totalWinnings existing + totalWinnings e)
                     (entryVotes existing + entryVotes e)
         | None => e
         end.
Proof.
  induction V2 as [|a V2 IH]; intros m e Hnd Hin; simpl in *; [tauto|].
  apply NoDup_cons in Hnd as [Ha Hnd]. destruct Hin as [->|Hin].
  - rewrite fold_add_v2_other by (intros H; apply Ha; now apply list_elem_of_In).
    unfold add_v2. destruct (map_get (toLowerCase (user e)) m); apply map_get_set_eq.
  - rewrite (IH _ _ Hnd Hin). f_equal.
    assert (toLowerCase (user a) <> toLowerCase (user e)) as Hne.
    { intros Heq. apply Ha. rewrite Heq. apply list_elem_of_In, in_map_iff.
      exists e. auto. }
    unfold add_v2.
    destruct (map_get (toLowerCase (user a)) m); now rewrite map_get_set_ne.
Qed.

Lemma toLowerCase_idem s : toLowerCase (toLowerCase s) = toLowerCase s.
Proof.
  induction s as [|c s IH]; simpl; [reflexivity|]. rewrite IH. f_equal.
  clear. destruct c as [[] [] [] [] [] [] [] []]; reflexivity.
Qed.

Lemma fold_add_v1_keys V1 : forall m,
  (forall k v, In (k, v) m -> k = toLowerCase (user v)) ->
  forall k v, In (k, v) (fold_left add_v1 V1 m) -> k = toLowerCase (user v).
Proof.
  induction V1 as [|a V1 IH]; intros m Hm; simpl; [exact Hm|].
  apply IH. intros k v Hin. unfold add_v1 in Hin.
  apply map_set_keys in Hin as [[-> ->]|Hin]; auto.
Qed.

Lemma fold_add_v2_keys V2 : forall m,
  (forall k v, In (k, v) m -> k = toLowerCase (user v)) ->
  forall k v, In (k, v) (fold_left add_v2 V2 m) -> k = toLowerCase (user v).
Proof.
  induction V2 as [|a V2 IH]; intros m Hm; simpl; [exact Hm|].
  apply IH. intros k v Hin. unfold add_v2 in Hin.
  destruct (map_get (toLowerCase (user a)) m);
    apply map_set_keys in Hin as [[-> ->]|Hin]; auto.
Qed.

(** C3. When each generation lists a wallet once, the merged entry of a
    wallet present in both carries the sum of both winnings and the sum
    of both counts; a wallet present in one generation only keeps that
    generation's entry as it is; every toLowerCase (user is) the lower-cased address of
    its entry. *)
Theorem merge_sums_generations entriesV1 entriesV2 :
  NoDup (List.map (fun e => toLowerCase (user e)) entriesV1) ->
  NoDup (List.map (fun e => toLowerCase (user e)) entriesV2) ->
  let merged := combinedEntries entriesV1 entriesV2 in
  (forall e1 e2,
      In e1 entriesV1 -> In e2 entriesV2 -> toLowerCase (user e1) = toLowerCase (user e2) ->
      map_get (toLowerCase (user e1)) merged
      = Some (mkEntry (user e2) (totalWinnings e1 + totalWinnings e2)
                      (entryVotes e1 + entryVotes e2))) /\
  (forall e1,
      In e1 entriesV1 -> ~ In (toLowerCase (user e1)) (List.map (fun e => toLowerCase (user e)) entriesV2) ->
      map_get (toLowerCase (user e1)) merged = Some e1) /\
  (forall e2,
      In e2 entriesV2 -> ~ In (toLowerCase (user e2)) (List.map (fun e => toLowerCase (user e)) entriesV1) ->
      map_get (toLowerCase (user e2)) merged = Some e2) /\
  (forall k v, In (k, v) merged -> k = toLowerCase (user v) /\ toLowerCase k = k).
Proof.
  intros H1 H2 merged. subst merged. unfold combinedEntries.
  split; [|split; [|split]].
  - intros e1 e2 Hin1 Hin2 Hkey. rewrite Hkey.
    rewrite (fold_add_v2_mine _ _ _ H2 Hin2), <- Hkey.
    now rewrite (fold_add_v1_mine _ _ _ H1 Hin1).
  - intros e1 Hin1 Hnot. rewrite fold_add_v2_other by exact Hnot.
    now apply fold_add_v1_mine.
  - intros e2 Hin2 Hnot. rewrite (fold_add_v2_mine _ _ _ H2 Hin2).
    now rewrite fold_add_v1_other by exact Hnot.
  - intros k v Hin.
    assert (k = toLowerCase (user v)) as ->.
    { revert k v Hin. apply fold_add_v2_keys, fold_add_v1_keys.
      intros ? ? []. }
    split; [reflexivity|apply toLowerCase_idem].
Qed.

End MergeFacts.

Lemma merge_sums_generations_witness :
  Leaderboard.map_get "0xabc1"
    (Leaderboard.combinedEntries
       [Leaderboard.mkEntry "0xABC1" 100 3; Leaderboard.mkEntry "0xdef2" 7 1]
       [Leaderboard.mkEntry "0xabc1" 50 2])
  = Some (Leaderboard.mkEntry "0xabc1" 150 5).
Proof.
  pose proof (merge_sums_generations
    [Leaderboard.mkEntry "0xABC1" 100 3; Leaderboard.mkEntry "0xdef2" 7 1]
    [Leaderboard.mkEntry "0xabc1" 50 2]) as H.
  simpl in H.
  destruct H as (Hboth & _).
  - repeat constructor; rewrite ?list_elem_of_In; simpl; intuition discriminate.
  - repeat constructor. rewrite list_elem_of_In. simpl. tauto.
  - apply (Hboth (Leaderboard.mkEntry "0xABC1" 100 3)
                 (Leaderboard.mkEntry "0xabc1" 50 2));
      [now left | now left | reflexivity].
Defined.

(** ** The leaderboard request: state and failure *)

Section RefreshFacts.

Import Leaderboard.

Variable env : Env.

Lemma bind_ok_inv {A B} (m : M A) (k : A -> M B) st b st' :
  bind m k st = (Ok b, st') ->
  exists a st1, m st = (Ok a, st1) /\ k a st1 = (Ok b, st').
Proof.
  unfold bind. destruct (m st) as [[a|e] st1]; [eauto|discriminate].
Qed.

Lemma bind_throw_inv {A B} (m : M A) (k : A -> M B) st e st' :
  bind m k st = (Throw e, st') ->
  m st = (Throw e, st') \/
  exists a st1, m st = (Ok a, st1) /\ k a st1 = (Throw e, st').
Proof.
  unfold bind. destruct (m st) as [[a|e0] st1]; [eauto|].
  intros [= -> ->]. now left.
Qed.

Lemma lift_no_throw {A} (f : St -> A * St) st e st' :
  lift f st <> (Throw e, st').
Proof. unfold lift. destruct (f st). discriminate. Qed.

Lemma await_cache {T} c (fn : nat -> Res T) st r st' :
  await_withRetry c fn st = (r, st') -> cache st' = cache st.
Proof. unfold await_withRetry. intros [= _ <-]. reflexivity. Qed.

Lemma fetchV1_loop_cache fuel : forall start total acc st r st',
  fetchV1_loop env fuel start total acc st = (r, st') -> cache st' = cache st.
Proof.
  induction fuel as [|fuel IH]; intros start total acc st r st'; simpl.
  - unfold ret. now intros [= _ <-].
  - destruct (start <? total); [|unfold ret; now intros [= _ <-]].
    unfold bind.
    destruct (await_withRetry _ _ st) as [[batch|e] st1] eqn:Ha;
      apply await_cache in Ha.
    + intros H. apply IH in H. congruence.
    + intros [= _ <-]. exact Ha.
Qed.

Lemma fetchV1_cache st r st' :
  fetchV1 env st = (r, st') -> cache st' = cache st.
Proof.
  unfold fetchV1, bind.
  destruct (await_withRetry _ _ st) as [[total|e] st1] eqn:Ha;
    apply await_cache in Ha.
  - intros H. apply fetchV1_loop_cache in H. congruence.
  - intros [= _ <-]. exact Ha.
Qed.

Lemma rank_no_throw {N} `{HN : Number N} (winners : list (Winner N)) st e st' :
  rank env winners st <> (Throw e, st').
Proof.
  unfold rank. intros H.
  apply bind_throw_inv in H as [H|(nc & st1 & _ & H)];
    [now apply lift_no_throw in H|].
  apply bind_throw_inv in H as [H|(users & st2 & _ & H)]; [|discriminate H].
  destruct (List.filter _ _); [discriminate H|].
  apply bind_throw_inv in H as [H|(nu & st2 & _ & H)];
    [now apply lift_no_throw in H|].
  apply bind_throw_inv in H as [H|(? & st3 & _ & H)];
    [now apply lift_no_throw in H|discriminate H].
Qed.

(** A refresh that rejects has not written to the cache: only the three
    generation-1 reads can reject, and they precede every [cache.set]. *)
Lemma refresh_throw_cache st e st' :
  refresh env st = (Throw e, st') -> cache st' = cache st.
Proof.
  unfold refresh. destruct (NEYNAR_API_KEY env) as [[|c k]|];
    try (unfold ret; discriminate).
  intros H. apply bind_throw_inv in H as [H|(dec & st1 & Hd & H)].
  { now apply await_cache in H. }
  apply await_cache in Hd.
  apply bind_throw_inv in H as [H|(v1 & st2 & Hv1 & H)].
  { apply fetchV1_cache in H. congruence. }
  exfalso. clear Hd Hv1.
  apply bind_throw_inv in H as [H|(v2 & st3 & _ & H)];
    [now apply lift_no_throw in H|].
  destruct dec as [tokenDecimals|].
  - apply bind_throw_inv in H as [H|(rows & st4 & _ & H)];
      [now apply rank_no_throw in H|].
    apply bind_throw_inv in H as [H|(? & st5 & _ & H)];
      [now apply lift_no_throw in H|discriminate H].
  - apply bind_throw_inv in H as [H|(rows & st4 & _ & H)];
      [now apply rank_no_throw in H|].
    apply bind_throw_inv in H as [H|(? & st5 & _ & H)];
      [now apply lift_no_throw in H|discriminate H].
Qed.

Lemma miss_is_stable st st0 :
  get_leaderboard st = (None, st0) ->
  forall now' tr', fst (get_leaderboard (mkSt (cache st0) now' tr')) = None.
Proof.
  unfold get_leaderboard, get_cache, cache_get. simpl.
  destruct (cache st !! CACHE_KEY) as [it|] eqn:Hit.
  - destruct (expired it (now st)) eqn:Hexp.
    + intros [= <-] now' tr'. simpl. now rewrite lookup_delete_eq.
    + destruct (item_v it) as [rows|rows|users] eqn:Hv; [discriminate|discriminate|].
      intros [= <-] now' tr'. simpl. rewrite Hit.
      destruct (expired it now'); [reflexivity|]. now rewrite Hv.
  - intros [= <-] now' tr'. simpl. now rewrite Hit.
Qed.

(** Whenever a refresh is attempted and rejects, the request answers 500:
    the second [cache.get] of the handler cannot hit. *)
Lemma failed_refresh_answers_500 st st0 e st1 :
  get_leaderboard st = (None, st0) ->
  refresh env st0 = (Throw e, st1) ->
  fst (GET env st)
  = JsonError "Failed to fetch leaderboard" (Some "Please try again later.") 500.
Proof.
  intros Hmiss Hthrow. unfold GET. rewrite Hmiss, Hthrow.
  pose proof (miss_is_stable st st0 Hmiss (now st1) (trace st1)) as Hstable.
  apply refresh_throw_cache in Hthrow. rewrite <- Hthrow in Hstable.
  destruct st1 as [c1 n1 t1]. simpl in Hstable.
  destruct (get_leaderboard (mkSt c1 n1 t1)) as [[rows|] st2];
    simpl in *; [discriminate|reflexivity].
Qed.


End RefreshFacts.

(** ** LeaderboardAggregator: ranking *)

Section RankingFacts.

Import Leaderboard.

Lemma insert_row_In {N} `{HN : Number N} (a : Row N) l r :
  In r (insert_row a l) <-> r = a \/ In r l.
Proof.
  induction l as [|b l IH]; cbn [insert_row In]; [intuition|].
  destruct (behind a b); cbn [In]; rewrite ?IH; intuition.
Qed.

Lemma insert_row_length {N} `{HN : Number N} (a : Row N) l :
  List.length (insert_row a l) = S (List.length l).
Proof.
  induction l as [|b l IH]; cbn [insert_row List.length]; [reflexivity|].
  destruct (behind a b); cbn [List.length]; [now rewrite IH|reflexivity].
Qed.

Lemma insert_row_descending a l : descending l -> descending (insert_row a l).
Proof.
  unfold descending. induction 1 as [|b l Hl IH Hb]; cbn [insert_row].
  - repeat constructor.
  - unfold behind, difference_positive, Number_Q.
    destruct (Qle_bool (winnings b) (winnings a)) eqn:Hle; simpl.
    + apply Qle_bool_iff in Hle.
      constructor; [constructor; assumption|].
      constructor; [exact Hle|].
      rewrite Forall_forall in Hb |- *. intros x Hx.
      eapply Qle_trans; [apply (Hb x Hx)|exact Hle].
    + assert (winnings a < winnings b)%Q as Hlt.
      { apply Qnot_le_lt. intros H. apply Qle_bool_iff in H. congruence. }
      constructor; [exact IH|].
      apply Forall_forall. intros x Hx. apply list_elem_of_In in Hx.
      apply insert_row_In in Hx as [->|Hx]; [now apply Qlt_le_weak|].
      rewrite Forall_forall in Hb. apply Hb. now apply list_elem_of_In.
Qed.

Lemma sort_rows_In {N} `{HN : Number N} (l : list (Row N)) r :
  In r (sort_rows l) <-> In r l.
Proof.
  unfold sort_rows. induction l as [|a l IH]; cbn [fold_right In]; [tauto|].
  rewrite insert_row_In, IH. intuition.
Qed.

Lemma sort_rows_length {N} `{HN : Number N} (l : list (Row N)) :
  List.length (sort_rows l) = List.length l.
Proof.
  unfold sort_rows.
  induction l as [|a l IH]; cbn [fold_right List.length]; [reflexivity|].
  now rewrite insert_row_length, IH.
Qed.

Lemma sort_rows_descending l : descending (sort_rows l).
Proof.
  unfold sort_rows. induction l as [|a l IH]; cbn [fold_right]; [constructor|].
  now apply insert_row_descending.
Qed.

Lemma take_descending n l : descending l -> descending (take n l).
Proof.
  unfold descending. intros H. revert n.
  induction H as [|a l Hl IH Ha]; intros [|n]; simpl; try constructor.
  - apply IH.
  - rewrite Forall_forall in Ha |- *. intros x Hx. apply Ha.
    eapply subseteq_take. exact Hx.
Qed.

Lemma scale_pos x e : 0 < x -> 0 < scale x e.
Proof.
  intros Hx. unfold scale. destruct (Z.leb_spec 0 e); [|exact Hx].
  apply Z.mul_pos_pos; [exact Hx|]. now apply Z.pow_pos_nonneg.
Qed.

Lemma scale_max x e : scale x e = x * 2 ^ Z.max e 0.
Proof.
  unfold scale. destruct (Z.leb_spec 0 e).
  - now rewrite Z.max_l.
  - rewrite Z.max_r by lia. simpl. lia.
Qed.

(** [d * 2 ^ x <= n], read on integers for either sign of [x], holds for
    every smaller exponent as well. *)
Lemma scale_le_down n d x y :
  0 < n -> 0 < d -> y <= x ->
  scale d x <= scale n (- x) -> scale d y <= scale n (- y).
Proof.
  intros Hn Hd Hyx. rewrite !scale_max. intros H.
  pose proof (Z.pow_le_mono_r 2 (Z.max y 0) (Z.max x 0) ltac:(lia) ltac:(lia)) as H1.
  pose proof (Z.pow_le_mono_r 2 (Z.max (- x) 0) (Z.max (- y) 0)
                ltac:(lia) ltac:(lia)) as H2.
  apply (Z.mul_le_mono_nonneg_l _ _ d) in H1; [|lia].
  apply (Z.mul_le_mono_nonneg_l _ _ n) in H2; [|lia].
  lia.
Qed.

Lemma log2_quot_below n d :
  0 < n -> 0 < d ->
  scale d (log2_quot n d) <= scale n (- log2_quot n d).
Proof.
  intros Hn Hd. unfold log2_quot.
  set (k := Z.log2 n - Z.log2 d).
  destruct (Z.leb_spec (scale d k) (scale n (- k))) as [Hle|_]; [exact Hle|].
  pose proof (Z.log2_spec n Hn) as [Hn1 _].
  pose proof (Z.log2_spec d Hd) as [_ Hd2].
  pose proof (Z.log2_nonneg n) as Ha. pose proof (Z.log2_nonneg d) as Hb.
  rewrite !scale_max.
  assert (2 ^ Z.succ (Z.log2 d) * 2 ^ Z.max (k - 1) 0
          = 2 ^ Z.log2 n * 2 ^ Z.max (- (k - 1)) 0) as Hpow.
  { rewrite <- !Z.pow_add_r by lia. f_equal. lia. }
  pose proof (Z.pow_pos_nonneg 2 (Z.max (k - 1) 0) ltac:(lia) ltac:(lia)).
  pose proof (Z.pow_pos_nonneg 2 (Z.max (- (k - 1)) 0) ltac:(lia) ltac:(lia)).
  nia.
Qed.

Lemma nearest_even_ge n d : n / d <= nearest_even n d.
Proof.
  unfold nearest_even. destruct (_ <? _); [lia|].
  destruct (_ <? _); [lia|]. destruct (Z.even _); lia.
Qed.

Lemma to_double_pos q : (0 < q)%Q -> (0 < to_double q)%Q.
Proof.
  destruct q as [n d]. intros Hq.
  assert (0 < n) as Hn by (unfold Qlt in Hq; simpl in Hq; lia).
  unfold to_double. simpl Qnum. simpl Qden.
  rewrite (Z.abs_eq n) by lia.
  destruct (Z.eqb_spec n 0) as [|_]; [lia|].
  set (e := log2_quot n (Z.pos d) - 52).
  assert (scale (Z.pos d) e <= scale n (- e)) as Hscale.
  { apply (scale_le_down n (Z.pos d) (log2_quot n (Z.pos d))); try lia.
    apply log2_quot_below; lia. }
  assert (0 < scale (Z.pos d) e) as HD by (apply scale_pos; lia).
  set (m := nearest_even (scale n (- e)) (scale (Z.pos d) e)).
  assert (0 < m) as Hm.
  { pose proof (nearest_even_ge (scale n (- e)) (scale (Z.pos d) e)).
    pose proof (Z.div_str_pos (scale n (- e)) (scale (Z.pos d) e) ltac:(lia)).
    subst m. lia. }
  rewrite Z.sgn_pos by lia. rewrite Z.mul_1_l.
  rewrite Qred_correct. apply Qmult_lt_0_compat.
  - replace 0%Q with (inject_Z 0) by reflexivity. now rewrite <- Zlt_Qlt.
  - apply Qpower_0_lt. reflexivity.
Qed.

Lemma display_positive totalWinnings tokenDecimals :
  0 < totalWinnings -> (0 < display totalWinnings tokenDecimals)%Q.
Proof.
  intros Hpos. unfold display, pow10. apply to_double_pos.
  unfold Qdiv. apply Qmult_lt_0_compat.
  - apply to_double_pos. replace 0%Q with (inject_Z 0) by reflexivity.
    now rewrite <- Zlt_Qlt.
  - apply Qinv_lt_0_compat, to_double_pos, Qpower_0_lt. reflexivity.
Qed.

Lemma winners_of_In combined tokenDecimals w :
  In w (winners_of combined tokenDecimals) ->
  exists entry,
    In entry (map_values combined) /\ 0 < totalWinnings entry /\
    w = mkWinner (toLowerCase (user entry))
                 (display (totalWinnings entry) tokenDecimals)
                 (entryVotes entry).
Proof.
  unfold winners_of, winners_with. rewrite in_map_iff. intros (entry & <- & Hin).
  apply filter_In in Hin as [Hin Hpos]. apply Z.ltb_lt in Hpos. eauto.
Qed.

(** The ranked list built from any merged map, decimals and identities. *)
Lemma ranked_rows combined tokenDecimals users :
  let rows := take 10 (sort_rows (List.map (build_row users)
                                    (winners_of combined tokenDecimals))) in
  well_formed_board rows /\
  Forall (fun r => exists entry,
              In entry (map_values combined) /\ 0 < totalWinnings entry /\
              address r = toLowerCase (user entry) /\
              voteCount r = entryVotes entry /\
              winnings r = display (totalWinnings entry) tokenDecimals) rows.
Proof.
  intros rows.
  assert (Forall (fun r => exists entry,
              In entry (map_values combined) /\ 0 < totalWinnings entry /\
              address r = toLowerCase (user entry) /\
              voteCount r = entryVotes entry /\
              winnings r = display (totalWinnings entry) tokenDecimals) rows)
    as Hsrc.
  { apply Forall_forall. intros r Hr. subst rows.
    apply subseteq_take, list_elem_of_In in Hr.
    apply sort_rows_In, in_map_iff in Hr as (w & <- & Hw).
    apply winners_of_In in Hw as (entry & Hin & Hpos & ->).
    exists entry. simpl. auto. }
  split; [|exact Hsrc]. split; [|split].
  - subst rows. apply firstn_le_length.
  - subst rows. apply take_descending, sort_rows_descending.
  - eapply Forall_impl; [exact Hsrc|]. simpl.
    intros r (entry & _ & Hpos & _ & _ & ->). now apply display_positive.
Qed.

End RankingFacts.

(** ** The leaderboard request: what it returns *)

Section BoardFacts.

Import Leaderboard.

Variable env : Env.

Lemma rank_inv {N} `{HN : Number N} (winners : list (Winner N)) st rows st' :
  rank env winners st = (Ok rows, st') ->
  exists users,
    rows = take 10 (sort_rows (List.map (build_row users) winners)).
Proof.
  unfold rank. intros H.
  apply bind_ok_inv in H as (nc & st1 & _ & H).
  apply bind_ok_inv in H as (users & st2 & _ & H).
  unfold ret in H. injection H as <- _. now exists users.
Qed.

Lemma refresh_json_inv st rows st' :
  refresh env st = (Ok (Json rows), st') ->
  exists tokenDecimals entriesV1 entriesV2 users t,
    fetched env st (Some tokenDecimals) entriesV1 entriesV2 /\
    outcome (withRetry (decimals env) 3 2000) = Ok (Some tokenDecimals) /\
    rows = take 10 (sort_rows
                      (List.map (build_row users)
                         (winners_of (combinedEntries entriesV1 entriesV2)
                                     tokenDecimals))) /\
    cache st' !! CACHE_KEY = Some (mkItem (CLeaderboard rows) t).
Proof.
  unfold refresh. destruct (NEYNAR_API_KEY env) as [[|c k]|];
    try (unfold ret; discriminate).
  intros H.
  apply bind_ok_inv in H as (dec & st1 & Hd & H).
  apply bind_ok_inv in H as (v1 & st2 & Hv1 & H).
  apply bind_ok_inv in H as (v2 & st3 & Hv2 & H).
  unfold lift in Hv2. destruct (fetchV2 env st2) as [v2' st3'] eqn:Hf2.
  injection Hv2 as -> ->.
  destruct dec as [dec|].
  - apply bind_ok_inv in H as (board & st4 & Hrank & H).
    apply bind_ok_inv in H as ([] & st5 & Hset & H).
    unfold ret in H. injection H as <- <-.
    unfold lift, set_cache in Hset. injection Hset as <-.
    apply rank_inv in Hrank as [users ->].
    exists dec, v1, v2, users. eexists. split; [|split; [|split]].
    + exists st1, st2, st3. auto.
    + unfold await_withRetry in Hd. now injection Hd as Hd _.
    + reflexivity.
    + simpl. unfold cache_set. apply lookup_insert_eq.
  - apply bind_ok_inv in H as (board & st4 & _ & H).
    apply bind_ok_inv in H as ([] & st5 & _ & H).
    unfold ret in H. discriminate H.
Qed.

(** The stable sort of rows whose winnings are all [NaN] leaves them in
    place. *)
Lemma sort_rows_nan (l : list (Row NaN)) : sort_rows l = l.
Proof.
  unfold sort_rows. induction l as [|a l IH]; cbn [fold_right]; [reflexivity|].
  rewrite IH. destruct l; reflexivity.
Qed.

Lemma refresh_nan_inv st rows st' :
  refresh env st = (Ok (JsonNaN rows), st') ->
  exists entriesV1 entriesV2 users t,
    fetched env st None entriesV1 entriesV2 /\
    outcome (withRetry (decimals env) 3 2000) = Ok None /\
    rows = take 10 (List.map (build_row users)
                      (winners_nan (combinedEntries entriesV1 entriesV2))) /\
    cache st' !! CACHE_KEY = Some (mkItem (CLeaderboardNaN rows) t).
Proof.
  unfold refresh. destruct (NEYNAR_API_KEY env) as [[|c k]|];
    try (unfold ret; discriminate).
  intros H.
  apply bind_ok_inv in H as (dec & st1 & Hd & H).
  apply bind_ok_inv in H as (v1 & st2 & Hv1 & H).
  apply bind_ok_inv in H as (v2 & st3 & Hv2 & H).
  unfold lift in Hv2. destruct (fetchV2 env st2) as [v2' st3'] eqn:Hf2.
  injection Hv2 as -> ->.
  destruct dec as [dec|].
  - apply bind_ok_inv in H as (board & st4 & _ & H).
    apply bind_ok_inv in H as ([] & st5 & _ & H).
    unfold ret in H. discriminate H.
  - apply bind_ok_inv in H as (board & st4 & Hrank & H).
    apply bind_ok_inv in H as ([] & st5 & Hset & H).
    unfold ret in H. injection H as <- <-.
    unfold lift, set_cache in Hset. injection Hset as <-.
    apply rank_inv in Hrank as [users ->]. rewrite sort_rows_nan.
    exists v1, v2, users. eexists. split; [|split; [|split]].
    + exists st1, st2, st3. auto.
    + unfold await_withRetry in Hd. now injection Hd as Hd _.
    + reflexivity.
    + simpl. unfold cache_set. apply lookup_insert_eq.
Qed.

Lemma hit_inv st board st0 :
  get_leaderboard st = (Some board, st0) ->
  st0 = st /\
  exists t,
    cache st !! CACHE_KEY
    = Some (mkItem match board with
                   | Ranked rows => CLeaderboard rows
                   | Unranked rows => CLeaderboardNaN rows
                   end t).
Proof.
  unfold get_leaderboard, get_cache, cache_get.
  destruct (cache st !! CACHE_KEY) as [[v t]|]; [|discriminate].
  destruct (expired _ _); [discriminate|]. simpl.
  destruct v; [| |discriminate]; intros [= <- <-];
    (split; [now destruct st|eauto]).
Qed.

(** The claim of the specification, where the decimals entry of the
    multicall has succeeded.  Provided what the cache holds was produced
    by earlier requests (it is well formed), a leaderboard of numbers
    returned by [GET] has at most 10 rows, in descending order of
    winnings, all strictly positive, and the cache stays well formed; on a
    cache miss the rows are the first ten of the stable descending sort of
    the rows built from the merged entries with positive winnings, each
    carrying the double of its entry's winnings over ten to the token
    decimals, the one value settled by the request's [decimals] read. *)
Lemma ranked_board_well_formed st rows st' :
  cache_well_formed (cache st) ->
  GET env st = (Json rows, st') ->
  well_formed_board rows /\
  cache_well_formed (cache st') /\
  (fst (get_leaderboard st) = None ->
   exists st0 tokenDecimals entriesV1 entriesV2 users,
     get_leaderboard st = (None, st0) /\
     fetched env st0 (Some tokenDecimals) entriesV1 entriesV2 /\
     rows = take 10 (sort_rows
                       (List.map (build_row users)
                          (winners_of (combinedEntries entriesV1 entriesV2)
                                      tokenDecimals))) /\
     Forall (fun r => exists entry,
                 In entry (map_values (combinedEntries entriesV1 entriesV2)) /\
                 0 < totalWinnings entry /\
                 address r = toLowerCase (user entry) /\
                 voteCount r = entryVotes entry /\
                 winnings r = display (totalWinnings entry) tokenDecimals) rows).
Proof.
  intros Hwf. unfold GET.
  destruct (get_leaderboard st) as [[cached|] st0] eqn:Hg.
  - destruct cached as [cached|cached]; [|discriminate].
    intros [= <- <-]. apply hit_inv in Hg as [-> [t Ht]].
    split; [exact (Hwf _ _ Ht)|]. split; [exact Hwf|discriminate].
  - destruct (refresh env st0) as [[response|e] st1] eqn:Hr.
    + intros [= -> <-]. apply refresh_json_inv in Hr
        as (dec & v1 & v2 & users & t & Hf & Hd & -> & Hc).
      destruct (ranked_rows (combinedEntries v1 v2) dec users) as [Hboard Hsrc].
      split; [exact Hboard|]. split.
      * intros rows' t' Hc'. rewrite Hc in Hc'. injection Hc' as <- _.
        exact Hboard.
      * intros _. exists st0, dec, v1, v2, users. auto.
    + pose proof (miss_is_stable st st0 Hg (now st1) (trace st1)) as Hstable.
      apply refresh_throw_cache in Hr. rewrite <- Hr in Hstable.
      destruct st1 as [c1 n1 t1]. simpl in Hstable.
      destruct (get_leaderboard (mkSt c1 n1 t1)) as [[cached|] st2];
        simpl in *; discriminate.
Qed.

(** Where the decimals entry has failed, the request answers all the
    same: with the first ten merged entries of positive winnings in the
    order of the merged table, every winnings [null]. *)
Lemma failed_decimals_entry_gives_unranked_board st st0 rows st1 :
  get_leaderboard st = (None, st0) ->
  refresh env st0 = (Ok (JsonNaN rows), st1) ->
  GET env st = (JsonNaN rows, st1) /\
  exists entriesV1 entriesV2 users,
    fetched env st0 None entriesV1 entriesV2 /\
    rows = take 10 (List.map (build_row users)
                      (winners_nan (combinedEntries entriesV1 entriesV2))) /\
    List.map address rows
    = take 10 (List.map (fun entry => toLowerCase (user entry))
                 (List.filter (fun entry => 0 <? totalWinnings entry)
                    (map_values (combinedEntries entriesV1 entriesV2)))).
Proof.
  intros Hg Hr. split; [unfold GET; now rewrite Hg, Hr|].
  apply refresh_nan_inv in Hr as (v1 & v2 & users & t & Hf & _ & -> & _).
  exists v1, v2, users. split; [exact Hf|]. split; [reflexivity|].
  rewrite <- firstn_map. f_equal.
  unfold winners_nan, winners_with. rewrite !List.map_map. reflexivity.
Qed.

End BoardFacts.

(** C9, on the code. The request reads the decimals through a multicall
    and takes [results[0].result] without looking at the entry's status.
    When that entry has failed, [tokenDecimals] is [NaN]: the request
    answers with rows whose winnings are all [null], in the order of the
    merged table (bob, whose winnings are 7 tokens, before alice, whose
    winnings are 150), and serves them from the cache for the hour that
    follows.  With the entry at 18 the same ledger gives alice at 150
    before bob at 7. *)
Theorem failed_decimals_entry_is_served_unranked :
  outcome (withRetry (Leaderboard.decimals (env_bob_first None)) 3 2000)
  = Ok None /\
  fst (Leaderboard.GET (env_bob_first (Some 18)) st_cold)
  = Leaderboard.Json [row_alice 150%Q; row_bob 7%Q] /\
  fst (Leaderboard.GET (env_bob_first None) st_cold)
  = Leaderboard.JsonNaN [row_bob nan; row_alice nan] /\
  fst (Leaderboard.GET (env_down None)
         (later 3600000 (snd (Leaderboard.GET (env_bob_first None) st_cold))))
  = Leaderboard.JsonNaN [row_bob nan; row_alice nan].
Proof. repeat split; vm_compute; reflexivity. Qed.

Example board_live_well_formed :
  Leaderboard.GET env_live st_cold = (Leaderboard.Json board_live, st_warm) /\
  Leaderboard.well_formed_board board_live /\
  List.map Leaderboard.winnings board_live = [150%Q; 7%Q].
Proof.
  assert (Leaderboard.cache_well_formed (Leaderboard.cache st_cold)) as Hcold.
  { intros rows t H. unfold st_cold in H. simpl in H.
    rewrite lookup_empty in H. discriminate H. }
  assert (Leaderboard.GET env_live st_cold = (Leaderboard.Json board_live, st_warm))
    as HG by (vm_compute; reflexivity).
  destruct (ranked_board_well_formed env_live st_cold board_live st_warm Hcold HG)
    as (Hboard & _).
  split; [exact HG|]. split; [exact Hboard|]. vm_compute. reflexivity.
Qed.


(** ** ResultCache: what a failed refresh falls back on *)

(** C1, on the code. A first request fills the cache with a non-empty
    leaderboard.  One millisecond after that entry's hour has passed, with
    every remote read rejecting, the handler does not return the cached
    list: its fallback [cache.get] finds the expired entry gone, and the
    request answers 500. *)
Theorem stale_leaderboard_not_served :
  fst (Leaderboard.GET env_live st_cold) = Leaderboard.Json board_live /\
  board_live <> [] /\
  Leaderboard.cache st_warm !! Leaderboard.CACHE_KEY
  = Some (Leaderboard.mkItem (Leaderboard.CLeaderboard board_live) 3606000) /\
  Leaderboard.now (later 3600000 st_warm) = 3606000 /\
  fst (Leaderboard.GET (env_down (Some "neynar-key")) (later 3600000 st_warm))
  = Leaderboard.Json board_live /\
  fst (Leaderboard.GET (env_down (Some "neynar-key")) (later 3600001 st_warm))
  = Leaderboard.JsonError "Failed to fetch leaderboard"
      (Some "Please try again later.") 500.
Proof.
  split; [vm_compute; reflexivity|].
  split; [vm_compute; discriminate|].
  repeat split; vm_compute; reflexivity.
Qed.

(** ** ParticipationDiscovery: the fallback scan *)

(** What the fallback scan does guarantee: it is skipped when the trade
    history names a market, it stays below the cap of 300, and a market it
    reports has an option in which the wallet holds shares. *)
Section FallbackFacts.

Import Winnings.

Variable chain : Chain.
Variable userAddress : string.

Lemma option_loop_found marketId fuel : forall option optionCount,
  option_loop chain userAddress marketId fuel option optionCount = Ok true ->
  exists o shares,
    option <= o < optionCount /\
    getMarketOptionUserShares chain marketId o userAddress = Ok shares /\
    0 < shares.
Proof.
  induction fuel as [|fuel IH]; intros option optionCount; simpl; [discriminate|].
  destruct (Z.ltb_spec option optionCount) as [Hlt|]; [|discriminate].
  unfold rbind.
  destruct (getMarketOptionUserShares chain marketId option userAddress)
    as [shares|] eqn:Hs; [|discriminate].
  destruct (Z.ltb_spec 0 shares) as [Hpos|].
  - intros _. exists option, shares. repeat split; auto; lia.
  - intros Hrest. apply IH in Hrest as (o & s & Ho & Hr & Hp).
    exists o, s. repeat split; auto; lia.
Qed.

Lemma scan_fold_In ms : forall acc m,
  In m (fold_left (scan_step chain userAddress) ms acc) ->
  In m acc \/ (In m ms /\ scan_market chain userAddress m = Ok true).
Proof.
  induction ms as [|a ms IH]; intros acc m; simpl; [auto|].
  intros H. apply IH in H as [H|[H1 H2]]; [|right; auto].
  unfold scan_step in H.
  destruct (scan_market chain userAddress a) as [[]|] eqn:Ha; auto.
  apply in_app_iff in H as [H'|[<-|[]]]; auto.
Qed.

Lemma fallback_reports_holders l m :
  fallbackScanParticipation chain userAddress = Ok l -> In m l ->
  0 <= m < 300 /\
  exists option shares,
    getMarketOptionUserShares chain m option userAddress = Ok shares /\
    0 < shares.
Proof.
  unfold fallbackScanParticipation.
  destruct (marketCount chain) as [mCount|]; [|intros [= <-] []].
  destruct (mCount =? 0); [intros [= <-] []|].
  destruct (PAYOUT_PER_SHARE chain); [|intros [= <-] []].
  intros [= <-] Hin. apply scan_fold_In in Hin as [[]|[Hin Hscan]].
  apply list_elem_of_In, elem_of_seqZ in Hin. split; [lia|].
  unfold scan_market, rbind in Hscan.
  destruct (getMarketBasicInfo chain m) as [basic|]; [|discriminate].
  apply option_loop_found in Hscan as (o & s & _ & Hr & Hp). eauto.
Qed.

Lemma primary_hit_skips_fallback m ms :
  discoverUserMarketsFromTrades chain userAddress = Ok (m :: ms) ->
  participated chain userAddress = Ok (sort_asc (set_of (m :: ms))).
Proof.
  intros Hd. unfold participated, rbind. rewrite Hd. reflexivity.
Qed.

End FallbackFacts.


(** C4, on the code. The fallback scan reads each market's basic info but
    not its [resolved] flag: a market that is still open is reported as
    soon as the wallet holds shares of one of its options. *)
Theorem fallback_scans_unresolved :
  Winnings.discoverUserMarketsFromTrades chain_open wallet = Ok [] /\
  Winnings.resolved (Winnings.mkBasic 2 false false) = false /\
  Winnings.getMarketBasicInfo chain_open 0 = Ok (Winnings.mkBasic 2 false false) /\
  Winnings.fallbackScanParticipation chain_open wallet = Ok [0] /\
  Winnings.POST chain_open (Ok (Winnings.Object (Some wallet)))
  = Winnings.Json [0] [] 1 0.
Proof. repeat split; vm_compute; reflexivity. Qed.

(** ** LeaderboardAggregator: generation-1 paging *)

Section PagingFacts.

Import Leaderboard.

Variable env : Env.

Lemma page_starts_app tr1 tr2 :
  page_starts (tr1 ++ tr2) = (page_starts tr1 ++ page_starts tr2)%list.
Proof. unfold page_starts. apply flat_map_app. Qed.

Lemma withRetry_calls_pos {T} (fn : nat -> Res T) baseDelay :
  calls (withRetry fn 3 baseDelay) <> 0%nat.
Proof. unfold withRetry. simpl. destruct (fn 0%nat); simpl; discriminate. Qed.

Lemma retries_ask_no_page c (delays : list Z) :
  page_starts (flat_map (fun d => [EvSleep d; EvRetry c]) delays) = [].
Proof. induction delays as [|d delays IH]; simpl; [reflexivity|exact IH]. Qed.

Lemma page_read_starts {T} start size (r : Run T) :
  calls r <> 0%nat ->
  page_starts (retry_events (CLeaderboardPage start size) r) = [start].
Proof.
  unfold retry_events. destruct (calls r); [congruence|]. intros _.
  change (page_starts (EvCall ?c :: ?l)) with (start :: page_starts l).
  now rewrite retries_ask_no_page.
Qed.

Lemma count_read_starts {T} (r : Run T) :
  page_starts (retry_events CParticipantsCount r) = [].
Proof.
  unfold retry_events. destruct (calls r); [reflexivity|].
  change (page_starts (EvCall ?c :: ?l)) with (page_starts l).
  apply retries_ask_no_page.
Qed.

Lemma page_in_range total k :
  (k < pages_needed total)%nat -> Z.of_nat k * PAGE_SIZE < total.
Proof.
  unfold pages_needed, PAGE_SIZE. intros Hk.
  assert (Z.of_nat k < (total + 100 - 1) / 100) as Hlt.
  { destruct (Z.le_gt_cases 0 ((total + 100 - 1) / 100)); [lia|].
    rewrite Z2Nat.nonpos in Hk by lia. lia. }
  pose proof (Z.mul_div_le (total + 100 - 1) 100 ltac:(lia)). lia.
Qed.

(** The fuel given to the loop is what its own test allows: after
    [pages_needed total] turns, [start] has reached [total]. *)
Lemma pages_needed_covers total :
  total <= Z.of_nat (pages_needed total) * PAGE_SIZE.
Proof.
  unfold pages_needed, PAGE_SIZE.
  destruct (Z.le_gt_cases 0 ((total + 100 - 1) / 100)) as [Hge|Hlt].
  - rewrite Z2Nat.id by exact Hge.
    pose proof (Z.mod_pos_bound (total + 100 - 1) 100 ltac:(lia)).
    pose proof (Z.div_mod (total + 100 - 1) 100 ltac:(lia)). lia.
  - rewrite Z2Nat.nonpos by lia.
    pose proof (Z.div_pos (total + 100 - 1) 100). lia.
Qed.

Lemma fetchV1_loop_run total fuel : forall k acc st,
  (k + fuel = pages_needed total)%nat ->
  (forall start, In start (page_offsets total) ->
     is_ok (outcome (withRetry (getLeaderboard env start PAGE_SIZE) 3 2000)) = true) ->
  exists st',
    fetchV1_loop env fuel (Z.of_nat k * PAGE_SIZE) total acc st
    = (Ok (acc ++ flat_map (page_of env)
                    (List.map (fun j => Z.of_nat j * PAGE_SIZE) (seq k fuel)))%list,
       st') /\
    page_starts (trace st')
    = (page_starts (trace st)
       ++ List.map (fun j => Z.of_nat j * PAGE_SIZE) (seq k fuel))%list.
Proof.
  induction fuel as [|fuel IH]; intros k acc st Hfuel Hok; simpl.
  - exists st. unfold ret. now rewrite !app_nil_r.
  - pose proof (page_in_range total k ltac:(lia)) as Hlt.
    apply Z.ltb_lt in Hlt. rewrite Hlt. unfold bind, await_withRetry.
    assert (In (Z.of_nat k * PAGE_SIZE) (page_offsets total)) as Hin.
    { unfold page_offsets. apply in_map_iff. exists k. split; [reflexivity|].
      apply in_seq. lia. }
    specialize (Hok _ Hin) as Hpage. unfold page_of.
    destruct (outcome (withRetry (getLeaderboard env (Z.of_nat k * PAGE_SIZE) PAGE_SIZE) 3 2000))
      as [batch|e] eqn:Hout; [|discriminate].
    replace (Z.of_nat k * PAGE_SIZE + PAGE_SIZE) with (Z.of_nat (S k) * PAGE_SIZE)
      by (unfold PAGE_SIZE; lia).
    edestruct (IH (S k)) as (st' & Hrun & Htr); [lia|exact Hok|].
    exists st'. rewrite Hrun. split.
    + now rewrite <- app_assoc.
    + rewrite Htr. simpl. rewrite page_starts_app, page_read_starts
        by apply withRetry_calls_pos.
      now rewrite <- app_assoc.
Qed.

(** C5, as the code has it. Once the participant count [total] is read,
    generation 1 is paged at offsets [0, 100, 200, ...] below [total], one
    read per offset whatever the pages hold, and the entries of those
    pages are concatenated. *)
Theorem fetchV1_pages_by_count st total :
  outcome (withRetry (getAllParticipantsCount env) 3 2000) = Ok total ->
  (forall start, In start (page_offsets total) ->
     is_ok (outcome (withRetry (getLeaderboard env start PAGE_SIZE) 3 2000)) = true) ->
  exists st',
    fetchV1 env st = (Ok (flat_map (page_of env) (page_offsets total)), st') /\
    page_starts (trace st') = (page_starts (trace st) ++ page_offsets total)%list.
Proof.
  intros Hcount Hpages. unfold fetchV1, bind.
  unfold await_withRetry at 1. rewrite Hcount.
  edestruct (fetchV1_loop_run total (pages_needed total) 0%nat [])
    as (st' & Hrun & Htr); [lia|exact Hpages|].
  exists st'. split; [exact Hrun|].
  rewrite Htr. simpl. rewrite page_starts_app, count_read_starts.
  now rewrite app_nil_r.
Qed.

End PagingFacts.

Lemma fetchV1_pages_by_count_witness :
  outcome (withRetry (Leaderboard.getAllParticipantsCount env_full) 3 2000) = Ok 100 /\
  exists st',
    Leaderboard.fetchV1 env_full st_cold
    = (Ok (flat_map (Leaderboard.page_of env_full) (Leaderboard.page_offsets 100)), st') /\
    Leaderboard.page_starts (Leaderboard.trace st')
    = (Leaderboard.page_starts (Leaderboard.trace st_cold)
       ++ Leaderboard.page_offsets 100)%list.
Proof.
  split; [reflexivity|].
  apply (fetchV1_pages_by_count env_full st_cold 100); [reflexivity|].
  intros start _. unfold env_full, withRetry. simpl.
  destruct (start =? 0); reflexivity.
Defined.

(** C5, as stated, fails: with exactly one full page of participants the
    loop stops after a page that returned all 100 entries asked for. *)
Lemma paging_not_ended_by_short_page :
  Leaderboard.page_starts
    (Leaderboard.trace (snd (Leaderboard.fetchV1 env_full st_cold))) = [0] /\
  ~ Leaderboard.ended_by_short_page env_full
      (Leaderboard.page_starts
         (Leaderboard.trace (snd (Leaderboard.fetchV1 env_full st_cold)))).
Proof.
  assert (Leaderboard.page_starts
            (Leaderboard.trace (snd (Leaderboard.fetchV1 env_full st_cold))) = [0])
    as Hstarts by (vm_compute; reflexivity).
  split; [exact Hstarts|]. rewrite Hstarts.
  intros (full & last & Heq & _ & Hshort).
  destruct full as [|a [|b full]]; try discriminate Heq.
  injection Heq as <-. vm_compute in Hshort. discriminate Hshort.
Qed.

(** * Further properties of the winnings route *)

Section HistoryFacts.

Import Winnings.

Variable chain : Chain.
Variable userAddress : string.

Lemma history_loop_prefix fuel : forall index trades,
  Z.of_nat (List.length trades) = index ->
  (fuel + List.length trades = 100)%nat ->
  (forall i t, trades !! i = Some t ->
     userTradeHistory chain userAddress (Z.of_nat i) = Ok (Some t)) ->
  let l := history_loop chain userAddress fuel index trades in
  (List.length l <= 100)%nat /\
  (forall i t, l !! i = Some t ->
     userTradeHistory chain userAddress (Z.of_nat i) = Ok (Some t)) /\
  ((List.length l < 100)%nat ->
   forall t, userTradeHistory chain userAddress (Z.of_nat (List.length l))
             <> Ok (Some t)).
Proof.
  induction fuel as [|fuel IH]; intros index trades Hlen Hfuel Hread; simpl.
  - split; [lia|]. split; [exact Hread|lia].
  - destruct (Z.ltb_spec index 100) as [_|Hge]; [|lia].
    destruct (userTradeHistory chain userAddress index) as [[trade|]|e] eqn:Hr.
    + apply IH.
      * rewrite length_app. simpl. lia.
      * rewrite length_app. simpl. lia.
      * intros i t Hi. apply lookup_snoc_Some in Hi as [[_ Hi]|[-> <-]];
          [now apply Hread|]. now rewrite Hlen.
    + split; [lia|]. split; [exact Hread|].
      intros _ t. rewrite Hlen, Hr. discriminate.
    + split; [lia|]. split; [exact Hread|].
      intros _ t. rewrite Hlen, Hr. discriminate.
Qed.

(** X1. The trade history read for a wallet has at most 100 entries; they
    are the ledger's entries at indices 0, 1, 2, ... in order; and when
    fewer than 100 were read, the read at the next index was falsy or
    rejected. *)
Theorem trade_history_is_capped_prefix :
  exists trades,
    readUserTradeHistory chain userAddress = Ok trades /\
    (List.length trades <= 100)%nat /\
    (forall i t, trades !! i = Some t ->
       userTradeHistory chain userAddress (Z.of_nat i) = Ok (Some t)) /\
    ((List.length trades < 100)%nat ->
     forall t, userTradeHistory chain userAddress (Z.of_nat (List.length trades))
               <> Ok (Some t)).
Proof.
  exists (history_loop chain userAddress 100 0 []). split; [reflexivity|].
  apply history_loop_prefix; [reflexivity|reflexivity|].
  intros i t Hi. rewrite lookup_nil in Hi. discriminate.
Qed.

Lemma add_trade_fold_In history : forall acc m,
  In m (fold_left add_trade history acc) <->
  In m acc \/ exists t, In t history /\ tradeMarketId t = Some m.
Proof.
  induction history as [|t history IH]; intros acc m; simpl.
  - split; [auto|]. intros [H|(t & [] & _)]. exact H.
  - rewrite IH. unfold add_trade.
    destruct (tradeMarketId t) as [mId|] eqn:Ht.
    + rewrite set_add_In. split.
      * intros [[H| ->]|(t' & Hin & Ht')]; eauto.
      * intros [H|(t' & [<-|Hin] & Ht')]; eauto.
        rewrite Ht in Ht'. injection Ht' as ->. auto.
    + split.
      * intros [H|(t' & Hin & Ht')]; eauto.
      * intros [H|(t' & [<-|Hin] & Ht')]; eauto. congruence.
Qed.

(** X2. The markets discovered from the trade history are exactly the
    market ids that some entry of the history carries (entries whose id is
    not a number carry none), in strictly ascending order. *)
Theorem discovery_lists_exactly_the_traded_markets l :
  discoverUserMarketsFromTrades chain userAddress = Ok l ->
  StronglySorted Z.lt l /\
  forall m,
    In m l <->
    exists t, In t (history_loop chain userAddress 100 0 []) /\
              tradeMarketId t = Some m.
Proof.
  unfold discoverUserMarketsFromTrades, readUserTradeHistory, rbind.
  destruct (history_loop chain userAddress 100 0 []) as [|t ts] eqn:Hh.
  - intros [= <-]. split; [constructor|]. intros m. split; [intros []|].
    intros (t & [] & _).
  - intros [= <-]. split.
    + apply sort_asc_sorted. apply (add_trade_NoDup_from (t :: ts)). constructor.
    + intros m. rewrite sort_asc_In.
      rewrite (add_trade_fold_In (t :: ts) [] m). simpl. tauto.
Qed.

End HistoryFacts.

Lemma discovery_lists_exactly_the_traded_markets_witness :
  Winnings.discoverUserMarketsFromTrades chain_373 wallet = Ok [3; 7] /\
  StronglySorted Z.lt [3; 7] /\
  (In 7 [3; 7] <->
   exists t, In t (Winnings.history_loop chain_373 wallet 100 0 []) /\
             Winnings.tradeMarketId t = Some 7).
Proof.
  assert (Winnings.discoverUserMarketsFromTrades chain_373 wallet = Ok [3; 7])
    as Hd by reflexivity.
  destruct (discovery_lists_exactly_the_traded_markets chain_373 wallet _ Hd)
    as [Hs Hm].
  split; [exact Hd|]. split; [exact Hs|apply Hm].
Defined.

Section VerifierFacts.

Import Winnings.

Variable chain : Chain.
Variable userAddress : string.

(** X3. Conversely to C2: a market handed to the verifier that reads
    resolved, not invalidated and not disputed, in whose winning option the
    wallet holds shares, whose claim simulation succeeds and whose payout
    is not rounded down to zero, gets its row, with that payout. *)
Theorem claimable_market_is_reported markets m basic extended shares :
  In m markets ->
  getMarketBasicInfo chain m = Ok basic ->
  resolved basic = true -> invalidated basic = false ->
  getMarketExtendedMeta chain m = Ok extended ->
  disputed extended = false ->
  getMarketOptionUserShares chain m (winningOptionId extended) userAddress
  = Ok shares ->
  shares <> 0 ->
  simulateClaimWinnings chain m userAddress = Ok tt ->
  let payoutPerShare :=
    match PAYOUT_PER_SHARE chain with
    | Ok p => p
    | Throw _ => 100 * 10 ^ 18
    end in
  0 < Z.quot (shares * payoutPerShare) (10 ^ 18) ->
  exists results,
    computeClaimableWinnings chain userAddress markets = Ok results /\
    In (mkWinnings m (Z.quot (shares * payoutPerShare) (10 ^ 18)) true) results.
Proof.
  intros Hin Hb Hr Hi He Hd Hs Hne Hsim payoutPerShare Hpos.
  rewrite compute_unfold. eexists. split; [reflexivity|].
  apply (claim_fold_In_conv chain userAddress _ markets m); [exact Hin|].
  unfold check_market, rbind. rewrite Hb, Hr, Hi. simpl.
  rewrite He, Hd, Hs.
  destruct (Z.eqb_spec shares 0) as [|_]; [contradiction|].
  rewrite Hsim. simpl. fold payoutPerShare.
  apply Z.ltb_lt in Hpos. now rewrite Hpos.
Qed.

Lemma claim_fold_ids payoutPerShare ms :
  List.map marketId (fold_left (claim_step chain userAddress payoutPerShare) ms [])
  = List.filter
      (fun m => match check_market chain userAddress payoutPerShare m with
                | Ok (Some _) => true
                | _ => false
                end) ms.
Proof.
  induction ms as [|m ms IH]; simpl; [reflexivity|].
  rewrite claim_fold_acc, List.map_app, IH. unfold claim_step.
  destruct (check_market chain userAddress payoutPerShare m) as [[r|]|] eqn:Hc;
    try reflexivity.
  simpl. apply check_market_emits in Hc as (Hid & _). now rewrite Hid.
Qed.

Lemma filter_strongly_sorted (f : Z -> bool) l :
  StronglySorted Z.lt l -> StronglySorted Z.lt (List.filter f l).
Proof.
  induction 1 as [|a l Hl IH Ha]; simpl; [constructor|].
  destruct (f a); [|exact IH]. constructor; [exact IH|].
  rewrite Forall_forall in Ha |- *. intros x Hx. apply Ha.
  apply list_elem_of_In. apply list_elem_of_In, filter_In in Hx. tauto.
Qed.

Lemma filter_is_sublist (f : Z -> bool) l : sublist (List.filter f l) l.
Proof.
  induction l as [|a l IH]; simpl; [constructor|].
  destruct (f a); [now apply sublist_skip|now apply sublist_cons].
Qed.

(** X4. The rows the verifier returns follow the order of the markets it
    was given: their market ids are a sub-sequence of those markets, with
    one row at most for each market given, so they are strictly ascending
    whenever the markets are, as the handler's [participatedMarkets]
    always is. *)
Theorem winnings_rows_ascending markets results :
  computeClaimableWinnings chain userAddress markets = Ok results ->
  sublist (List.map marketId results) markets /\
  (List.length results <= List.length markets)%nat /\
  (StronglySorted Z.lt markets ->
   StronglySorted Z.lt (List.map marketId results)) /\
  (participated chain userAddress = Ok markets ->
   StronglySorted Z.lt (List.map marketId results)).
Proof.
  rewrite compute_unfold. intros [= <-]. rewrite claim_fold_ids.
  split; [apply filter_is_sublist|]. split; [|split].
  - rewrite <- (length_map marketId), claim_fold_ids. apply filter_length_le.
  - apply filter_strongly_sorted.
  - intros Hp. apply filter_strongly_sorted.
    destruct (participated_run chain userAddress) as (? & found & _ & _ & Hp').
    rewrite Hp in Hp'. injection Hp' as ->.
    apply sort_asc_sorted, set_of_NoDup.
Qed.

(** X5. Every row's amount is positive and is the wallet's winning-option
    balance times the payout per share, divided by 10^18 and truncated;
    when the payout constant cannot be read the verifier falls back on 100
    tokens per share, so the amount is then 100 times the balance. *)
Theorem winnings_amounts markets results r :
  computeClaimableWinnings chain userAddress markets = Ok results ->
  In r results ->
  0 < amount r /\
  exists extended shares,
    getMarketExtendedMeta chain (marketId r) = Ok extended /\
    getMarketOptionUserShares chain (marketId r) (winningOptionId extended)
      userAddress = Ok shares /\
    match PAYOUT_PER_SHARE chain with
    | Ok payoutPerShare => amount r = Z.quot (shares * payoutPerShare) (10 ^ 18)
    | Throw _ => amount r = 100 * shares
    end.
Proof.
  rewrite compute_unfold. intros [= <-] Hin.
  apply claim_fold_In in Hin as (m & _ & Hc).
  pose proof Hc as Hc'. unfold check_market, rbind in Hc'.
  apply check_market_emits in Hc
    as (<- & _ & Hamount & basic & extended & shares & Hb & Hr & Hi & He & Hd & Hs & _ & Hsim).
  rewrite Hb, Hr, Hi, He, Hd, Hs, Hsim in Hc'. simpl in Hc'.
  rewrite He, Hs in Hamount.
  split.
  - destruct (shares =? 0); [discriminate|]. simpl in Hc'.
    destruct (Z.ltb_spec 0
      (Z.quot (shares * match PAYOUT_PER_SHARE chain with
                        | Ok p => p
                        | Throw _ => 100 * 10 ^ 18
                        end) (10 ^ 18))) as [Hpos|]; [|discriminate].
    injection Hc' as <-. exact Hpos.
  - exists extended, shares. split; [exact He|]. split; [exact Hs|].
    destruct (PAYOUT_PER_SHARE chain); [exact Hamount|].
    rewrite Hamount. replace (shares * (100 * 10 ^ 18)) with ((100 * shares) * 10 ^ 18) by lia.
    apply Z.quot_mul. lia.
Qed.

End VerifierFacts.

Lemma claimable_market_is_reported_witness :
  exists results,
    Winnings.computeClaimableWinnings chain_claims wallet [4; 5; 6; 9] = Ok results /\
    In (Winnings.mkWinnings 4 (Z.quot (2 * 10 ^ 18 * (100 * 10 ^ 18)) (10 ^ 18)) true)
       results.
Proof.
  apply (claimable_market_is_reported chain_claims wallet [4; 5; 6; 9] 4
           (Winnings.mkBasic 2 true false) (Winnings.mkExtended 1 false)
           (2 * 10 ^ 18));
    try reflexivity; [now left | discriminate].
Defined.

Lemma winnings_rows_ascending_witness :
  Winnings.computeClaimableWinnings chain_claims wallet [4; 5; 6; 9] = Ok [won_4] /\
  sublist (List.map Winnings.marketId [won_4]) [4; 5; 6; 9] /\
  StronglySorted Z.lt (List.map Winnings.marketId [won_4]).
Proof.
  assert (Winnings.computeClaimableWinnings chain_claims wallet [4; 5; 6; 9]
          = Ok [won_4]) as Hc by reflexivity.
  destruct (winnings_rows_ascending chain_claims wallet _ _ Hc)
    as (Hsub & _ & Hsorted & _).
  split; [exact Hc|]. split; [exact Hsub|]. apply Hsorted.
  repeat constructor; lia.
Defined.

Lemma winnings_amounts_witness :
  Winnings.computeClaimableWinnings chain_claims wallet [4; 5; 6; 9] = Ok [won_4] /\
  In won_4 [won_4] /\
  0 < Winnings.amount won_4.
Proof.
  assert (Winnings.computeClaimableWinnings chain_claims wallet [4; 5; 6; 9]
          = Ok [won_4]) as Hc by reflexivity.
  assert (In won_4 [won_4]) as Hin by now left.
  split; [exact Hc|]. split; [exact Hin|].
  apply (winnings_amounts chain_claims wallet _ _ won_4 Hc Hin).
Defined.

Section ScanFacts.

Import Winnings.

Variable chain : Chain.
Variable userAddress : string.

Lemma option_loop_holder marketId fuel : forall option optionCount,
  0 <= option ->
  option_loop chain userAddress marketId fuel option optionCount = Ok true ->
  exists o shares,
    0 <= o < optionCount /\
    getMarketOptionUserShares chain marketId o userAddress = Ok shares /\
    0 < shares.
Proof.
  intros option optionCount Hpos H.
  apply option_loop_found in H as (o & s & Ho & Hr & Hs).
  exists o, s. repeat split; auto; lia.
Qed.

Lemma option_loop_finds marketId fuel : forall option optionCount,
  0 <= option ->
  (Z.of_nat fuel = optionCount - option) ->
  (forall o, option <= o < optionCount ->
     is_ok (getMarketOptionUserShares chain marketId o userAddress) = true) ->
  (exists o shares,
     option <= o < optionCount /\
     getMarketOptionUserShares chain marketId o userAddress = Ok shares /\
     0 < shares) ->
  option_loop chain userAddress marketId fuel option optionCount = Ok true.
Proof.
  induction fuel as [|fuel IH]; intros option optionCount Hpos Hfuel Hok Hex.
  - destruct Hex as (o & s & Ho & _). lia.
  - simpl. destruct (Z.ltb_spec option optionCount) as [Hlt|]; [|lia].
    unfold rbind. specialize (Hok option ltac:(lia)) as Hread.
    destruct (getMarketOptionUserShares chain marketId option userAddress)
      as [shares|] eqn:Hs; [|discriminate].
    destruct (Z.ltb_spec 0 shares) as [|Hle]; [reflexivity|].
    apply IH; [lia|lia| |].
    + intros o Ho. apply Hok. lia.
    + destruct Hex as (o & s & Ho & Hr & Hp).
      exists o, s. repeat split; auto; try lia.
      destruct (Z.eq_dec o option) as [->|]; [|lia].
      rewrite Hs in Hr. injection Hr as ->. lia.
Qed.

Lemma scan_fold_ids ms : forall acc,
  fold_left (scan_step chain userAddress) ms acc
  = (acc ++ List.filter
              (fun m => match scan_market chain userAddress m with
                        | Ok true => true
                        | _ => false
                        end) ms)%list.
Proof.
  induction ms as [|m ms IH]; intros acc; simpl; [now rewrite app_nil_r|].
  rewrite IH. unfold scan_step.
  destruct (scan_market chain userAddress m) as [[]|]; simpl;
    rewrite <- ?app_assoc; reflexivity.
Qed.

Lemma seqZ_strongly_sorted n : forall m, StronglySorted Z.lt (seqZ m (Z.of_nat n)).
Proof.
  induction n as [|n IH]; intros m.
  - rewrite seqZ_nil by lia. constructor.
  - rewrite seqZ_cons by lia. constructor.
    + replace (Z.pred (Z.of_nat (S n))) with (Z.of_nat n) by lia. apply IH.
    + apply Forall_forall. intros x Hx. apply elem_of_seqZ in Hx. lia.
Qed.

(** X6. What the fallback scan reports is in strictly ascending order, and
    each reported market lies below both the market count and the cap of
    300 and has an option, below its option count, in which the wallet's
    balance reads positive. *)
Theorem fallback_scan_sound l :
  fallbackScanParticipation chain userAddress = Ok l ->
  StronglySorted Z.lt l /\
  forall m, In m l ->
    exists mCount basic option shares,
      marketCount chain = Ok mCount /\ 0 <= m < Z.min mCount 300 /\
      getMarketBasicInfo chain m = Ok basic /\
      0 <= option < optionCount basic /\
      getMarketOptionUserShares chain m option userAddress = Ok shares /\
      0 < shares.
Proof.
  unfold fallbackScanParticipation.
  destruct (marketCount chain) as [mCount|];
    [|intros [= <-]; split; [constructor|intros ? []]].
  destruct (mCount =? 0); [intros [= <-]; split; [constructor|intros ? []]|].
  destruct (PAYOUT_PER_SHARE chain);
    [|intros [= <-]; split; [constructor|intros ? []]].
  intros [= <-]. rewrite scan_fold_ids. simpl. split.
  - apply filter_strongly_sorted.
    destruct (Z.le_gt_cases 0 (Z.min mCount 300)) as [Hge|Hlt].
    + rewrite <- (Z2Nat.id _ Hge). apply seqZ_strongly_sorted.
    + rewrite seqZ_nil by lia. constructor.
  - intros m Hin. apply filter_In in Hin as [Hin Hscan].
    apply list_elem_of_In, elem_of_seqZ in Hin.
    unfold scan_market, rbind in Hscan.
    destruct (getMarketBasicInfo chain m) as [basic|] eqn:Hb; [|discriminate].
    destruct (option_loop chain userAddress m (Z.to_nat (optionCount basic)) 0
                (optionCount basic)) as [[]|] eqn:Hloop; try discriminate.
    apply option_loop_holder in Hloop as (o & s & Ho & Hr & Hs); [|lia].
    exists mCount, basic, o, s. repeat split; auto; lia.
Qed.

(** X7. The scan misses no holder it can read: when the market count and
    the payout constant are readable, a market below the count and the cap
    whose basic info and option balances are all readable, and in one of
    whose options the wallet's balance is positive, is reported. *)
Theorem fallback_scan_complete mCount payout m basic :
  marketCount chain = Ok mCount ->
  PAYOUT_PER_SHARE chain = Ok payout ->
  0 <= m < Z.min mCount 300 ->
  getMarketBasicInfo chain m = Ok basic ->
  (forall o, 0 <= o < optionCount basic ->
     is_ok (getMarketOptionUserShares chain m o userAddress) = true) ->
  (exists o shares,
     0 <= o < optionCount basic /\
     getMarketOptionUserShares chain m o userAddress = Ok shares /\
     0 < shares) ->
  exists l, fallbackScanParticipation chain userAddress = Ok l /\ In m l.
Proof.
  intros Hcount Hpay Hm Hb Hreads Hholder.
  unfold fallbackScanParticipation. rewrite Hcount, Hpay.
  destruct (Z.eqb_spec mCount 0) as [->|_]; [lia|].
  eexists. split; [reflexivity|].
  rewrite scan_fold_ids. simpl. apply filter_In. split.
  - apply list_elem_of_In, elem_of_seqZ. lia.
  - unfold scan_market, rbind. rewrite Hb.
    rewrite option_loop_finds; auto; [lia|].
    destruct Hholder as (o & _ & Ho & _). lia.
Qed.

(** X8. The request answers with data only when no market is claimable:
    as soon as the verifier returns a row, serialising its bigint amount
    fails inside the [try] and the answer is 500.  A [null] body answers
    500 as well, a body without an address 400, and a body that cannot be
    read 500. *)
Theorem post_never_reports_winnings request :
  (forall pm wd n c,
     POST chain request = Json pm wd n c -> wd = [] /\ c = 0) /\
  (forall address pm rows,
     request = Ok (Object (Some address)) -> address <> "" ->
     participated chain address = Ok pm ->
     computeClaimableWinnings chain address pm = Ok rows ->
     POST chain request
     = match rows with
       | [] => Json pm [] (Z.of_nat (List.length pm)) 0
       | _ :: _ =>
           JsonError ("Failed to auto-discover user markets: "
                      ++ "Do not know how to serialize a BigInt") 500
       end) /\
  (request = Ok Null ->
   POST chain request
   = JsonError ("Failed to auto-discover user markets: "
                ++ "Cannot destructure property 'userAddress' of 'body' as it is null.")
               500) /\
  (request = Ok (Object None) \/ request = Ok (Object (Some "")) ->
   POST chain request = JsonError "User address is required" 400) /\
  (forall e, request = Throw e ->
     POST chain request
     = JsonError ("Failed to auto-discover user markets: " ++ message e) 500).
Proof.
  assert (forall address pm rows,
            address <> "" ->
            participated chain address = Ok pm ->
            computeClaimableWinnings chain address pm = Ok rows ->
            POST chain (Ok (Object (Some address)))
            = match rows with
              | [] => Json pm [] (Z.of_nat (List.length pm)) 0
              | _ :: _ =>
                  JsonError ("Failed to auto-discover user markets: "
                             ++ "Do not know how to serialize a BigInt") 500
              end) as Hrun.
  { intros address pm rows Hne Hp Hc.
    unfold POST, rbind, destructure. destruct address as [|a u]; [congruence|].
    rewrite Hp, Hc. destruct rows; reflexivity. }
  split; [|split; [|split; [|split]]].
  - intros pm wd n c HP.
    destruct request as [[|[address|]]|e]; try discriminate HP.
    destruct (string_dec address "") as [->|Hne]; [discriminate HP|].
    destruct (participated_run chain address) as (? & found & _ & _ & Hp).
    destruct (compute_total chain address (sort_asc (set_of found))) as [rows Hc].
    rewrite (Hrun _ _ _ Hne Hp Hc) in HP.
    destruct rows; [|discriminate HP]. now injection HP as <- <- <- <-.
  - intros address pm rows -> Hne Hp Hc. now apply Hrun.
  - intros ->. reflexivity.
  - intros [->| ->]; reflexivity.
  - intros e ->. reflexivity.
Qed.

(** X9. A wallet without trade history, on a ledger whose market count
    reads zero or cannot be read, or whose payout constant cannot be read,
    gets empty lists and zero counters. *)
Theorem no_participation_gives_empty_response :
  userAddress <> "" ->
  (forall t, userTradeHistory chain userAddress 0 <> Ok (Some t)) ->
  marketCount chain = Ok 0 \/ is_ok (marketCount chain) = false \/
  is_ok (PAYOUT_PER_SHARE chain) = false ->
  POST chain (Ok (Object (Some userAddress))) = Json [] [] 0 0.
Proof.
  intros Hne Hhist Hledger.
  destruct (POST_answer chain userAddress Hne)
    as (fromTrades & found & wd & Hd & Hf & Hc & HP).
  assert (fromTrades = []) as ->.
  { unfold discoverUserMarketsFromTrades, readUserTradeHistory, rbind in Hd.
    simpl in Hd.
    destruct (userTradeHistory chain userAddress 0) as [[t|]|];
      [now specialize (Hhist t)| |]; now injection Hd as <-. }
  assert (found = []) as ->.
  { unfold fallbackScanParticipation in Hf.
    destruct (marketCount chain) as [mCount|]; [|now injection Hf as <-].
    destruct Hledger as [[= ->]|[H|H]]; [now injection Hf as <-|discriminate|].
    destruct (mCount =? 0); [now injection Hf as <-|].
    destruct (PAYOUT_PER_SHARE chain); [discriminate|now injection Hf as <-]. }
  simpl in Hc. injection Hc as <-. exact HP.
Qed.

End ScanFacts.

(** * Further properties of the leaderboard route *)

Section BackoffFacts.

Context {T : Type}.
Variable fn : nat -> Res T.

(** X10. Under the default arguments a call sleeps twice at most, never
    more than 20 s in total, and at most 6 s when none of its failures
    carries status 429. *)
Theorem default_backoff_bounded :
  let r := withRetry fn 3 2000 in
  (List.length (sleeps r) <= 2)%nat /\
  0 <= Leaderboard.sumZ (sleeps r) <= 20000 /\
  ((forall i, rate_limited (fn i) = false) -> Leaderboard.sumZ (sleeps r) <= 6000).
Proof.
  unfold withRetry. simpl.
  pose proof (backoff_prescribed fn 2000 0%nat) as H0.
  pose proof (backoff_prescribed fn 2000 1%nat) as H1.
  unfold prescribed_delay in H0, H1.
  destruct (fn 0%nat) as [v0|e0] eqn:E0; simpl.
  { split; [lia|]. split; [lia|]. intros _. lia. }
  specialize (H0 e0 eq_refl).
  destruct (fn 1%nat) as [v1|e1] eqn:E1; simpl.
  { split; [lia|]. rewrite H0. split.
    - destruct (rate_limited (Throw e0)); simpl; lia.
    - intros Hno. specialize (Hno 0%nat). rewrite E0 in Hno. rewrite Hno. simpl. lia. }
  specialize (H1 e1 eq_refl).
  assert (Leaderboard.sumZ
            (sleeps (match fn 2%nat with
                     | Ok v => mkRun (Ok v) 1 []
                     | Throw error => mkRun (Throw error) 1 []
                     end)) = 0 /\
          List.length
            (sleeps (match fn 2%nat with
                     | Ok v => mkRun (Ok v) 1 []
                     | Throw error => mkRun (Throw error) 1 []
                     end)) = 0%nat) as [Hs Hl]
    by (destruct (fn 2%nat); auto).
  rewrite Hs, Hl, H0, H1. split; [lia|]. split.
  - destruct (rate_limited (Throw e0)), (rate_limited (Throw e1)); simpl; lia.
  - intros Hno. pose proof (Hno 0%nat) as N0. pose proof (Hno 1%nat) as N1.
    rewrite E0 in N0. rewrite E1 in N1. rewrite N0, N1. simpl. lia.
Qed.

End BackoffFacts.

Section ServingFacts.

Import Leaderboard.

Variable env : Env.

(** X11. On a cache miss without the identity-service credential (unset or
    empty) the request answers 500 with the configuration error at once:
    no remote call is made, no time passes and nothing is cached. *)
Theorem missing_credential_fails_fast st :
  NEYNAR_API_KEY env = None \/ NEYNAR_API_KEY env = Some "" ->
  fst (get_leaderboard st) = None ->
  fst (GET env st)
  = JsonError "Server configuration error: Missing NEYNAR_API_KEY" None 500 /\
  trace (snd (GET env st)) = trace st /\
  now (snd (GET env st)) = now st /\
  fst (get_leaderboard (snd (GET env st))) = None.
Proof.
  intros Hkey Hmiss. unfold GET.
  destruct (get_leaderboard st) as [[rows|] st0] eqn:Hg; [discriminate|].
  assert (refresh env st0
          = (Ok (JsonError "Server configuration error: Missing NEYNAR_API_KEY"
                   None 500), st0)) as ->.
  { unfold refresh. destruct Hkey as [-> | ->]; reflexivity. }
  simpl. pose proof (miss_is_stable st st0 Hg (now st0) (trace st0)) as Hst.
  assert (trace st0 = trace st /\ now st0 = now st) as [Ht Hn].
  { unfold get_leaderboard, get_cache in Hg.
    destruct (cache_get (cache st) (now st) CACHE_KEY) as [v c'].
    destruct v as [[rows|rows|users]|]; try discriminate Hg;
      injection Hg as <-; auto. }
  destruct st0 as [c0 n0 t0]. simpl in *. auto.
Qed.



End ServingFacts.

Section Generation2Facts.

Import Leaderboard Aggregation.

Variable env : Env.

Lemma participant_or_null_value index st :
  fst (participant_or_null env index st) = participant_at env index.
Proof.
  unfold participant_or_null, participant_at, await_withRetry.
  destruct (outcome (withRetry (allParticipants env index) 3 2000)); reflexivity.
Qed.

Lemma allS_participants base l : forall st,
  fst (allS (fun i => participant_or_null env (base + i)) l st)
  = List.map (fun i => participant_at env (base + i)) l.
Proof.
  induction l as [|i l IH]; intros st; simpl; [reflexivity|].
  pose proof (participant_or_null_value (base + i) st) as Hv.
  destruct (participant_or_null env (base + i) st) as [b st1]. simpl in Hv.
  specialize (IH (mkSt (cache st1) (now st) (trace st1))).
  destruct (allS _ l _) as [bs st2]. simpl in *. now rewrite Hv, IH.
Qed.

Lemma process_batch_consecutive n : forall b acc st,
  0 <= b ->
  (forall j, 0 <= j < b -> present env j = true) ->
  (forall e, In e acc ->
     exists i, 0 <= i < b /\ entry_from env e i /\
               forall j, 0 <= j <= i -> present env j = true) ->
  let r := process_batch env
             (List.map (participant_at env) (seqZ b (Z.of_nat n))) acc st in
  (forall e, In e (snd (fst r)) ->
     exists i, 0 <= i < b + Z.of_nat n /\ entry_from env e i /\
               forall j, 0 <= j <= i -> present env j = true) /\
  (fst (fst r) = true ->
   forall j, 0 <= j < b + Z.of_nat n -> present env j = true).
Proof.
  induction n as [|n IH]; intros b acc st Hb Hprev Hacc.
  - rewrite seqZ_nil by lia. simpl. split.
    + intros e He. destruct (Hacc e He) as (i & Hi & H). exists i. split; [lia|exact H].
    + intros _ j Hj. apply Hprev. lia.
  - rewrite seqZ_cons by lia. simpl.
    replace (Z.pred (Z.of_nat (S n))) with (Z.of_nat n) by lia.
    assert (forall e, In e acc ->
              exists i, 0 <= i < b + Z.of_nat (S n) /\ entry_from env e i /\
                        forall j, 0 <= j <= i -> present env j = true) as Hacc'.
    { intros e He. destruct (Hacc e He) as (i & Hi & H). exists i. split; [lia|exact H]. }
    destruct (participant_at env b) as [a|] eqn:Hp;
      [|split; [exact Hacc'|discriminate]].
    destruct (String.eqb_spec a "") as [->|Hne];
      [split; [exact Hacc'|discriminate]|].
    assert (present env b = true) as Hpb.
    { unfold present. rewrite Hp. now apply negb_true_iff, String.eqb_neq. }
    assert (forall j, 0 <= j < Z.succ b -> present env j = true) as Hprev'.
    { intros j Hj. destruct (Z.eq_dec j b) as [->|]; [exact Hpb|]. apply Hprev. lia. }
    unfold await_withRetry.
    destruct (outcome (withRetry (userPortfolios env a) 3 2000))
      as [portfolio|err] eqn:Hport.
    + destruct (Z.ltb_spec 0 (portfolioWinnings portfolio)) as [Hpos|_].
      * match goal with |- context [process_batch env _ ?acc' ?st'] =>
          destruct (IH (Z.succ b) acc' st') as [H1 H2]
        end; [lia|exact Hprev'| |].
        { intros e He. apply in_app_iff in He as [He|[<-|[]]].
          - destruct (Hacc e He) as (i & Hi & H). exists i. split; [lia|exact H].
          - exists b. split; [lia|]. split.
            + split; [exact Hp|]. exists portfolio. simpl. auto.
            + intros j Hj. apply Hprev'. lia. }
        split.
        { intros e He. destruct (H1 e He) as (i & Hi & H). exists i. split; [lia|exact H]. }
        { intros Hmore j Hj. apply H2; [exact Hmore|lia]. }
      * match goal with |- context [process_batch env _ acc ?st'] =>
          destruct (IH (Z.succ b) acc st') as [H1 H2]
        end; [lia|exact Hprev'| |].
        { intros e He. destruct (Hacc e He) as (i & Hi & H). exists i. split; [lia|exact H]. }
        split.
        { intros e He. destruct (H1 e He) as (i & Hi & H). exists i. split; [lia|exact H]. }
        { intros Hmore j Hj. apply H2; [exact Hmore|lia]. }
    + match goal with |- context [process_batch env _ acc ?st'] =>
        destruct (IH (Z.succ b) acc st') as [H1 H2]
      end; [lia|exact Hprev'| |].
      { intros e He. destruct (Hacc e He) as (i & Hi & H). exists i. split; [lia|exact H]. }
      split.
      { intros e He. destruct (H1 e He) as (i & Hi & H). exists i. split; [lia|exact H]. }
      { intros Hmore j Hj. apply H2; [exact Hmore|lia]. }
Qed.

Lemma fetchV2_loop_step fuel index acc st :
  fetchV2_loop env (S fuel) index acc st
  = if index <? 10000 then
      let (batchResults, st1) :=
        allS (fun i => participant_or_null env (index + i)) (seqZ 0 PAGE_SIZE) st in
      let '((hasMoreParticipants, entries'), st2) :=
        process_batch env batchResults acc st1 in
      if hasMoreParticipants
      then fetchV2_loop env fuel (index + PAGE_SIZE) entries' st2
      else (entries', st2)
    else (acc, st).
Proof. reflexivity. Qed.

Lemma fetchV2_loop_entries fuel : forall index acc st,
  index = 100 * (100 - Z.of_nat fuel) -> (fuel <= 100)%nat ->
  (forall j, 0 <= j < index -> present env j = true) ->
  (forall e, In e acc ->
     exists i, 0 <= i < index /\ entry_from env e i /\
               forall j, 0 <= j <= i -> present env j = true) ->
  forall e, In e (fst (fetchV2_loop env fuel index acc st)) ->
    exists i, 0 <= i < 10000 /\ entry_from env e i /\
              forall j, 0 <= j <= i -> present env j = true.
Proof.
  induction fuel as [|fuel IH]; intros index acc st Hidx Hfuel Hprev Hacc e He.
  - simpl in He. destruct (Hacc e He) as (i & Hi & H). exists i. split; [lia|exact H].
  - rewrite fetchV2_loop_step in He.
    destruct (Z.ltb_spec index 10000) as [Hlt|Hge]; [|lia].
    pose proof (allS_participants index (seqZ 0 PAGE_SIZE) st) as Hvals.
    destruct (allS _ (seqZ 0 PAGE_SIZE) st) as [batchResults st1].
    cbn [fst] in Hvals. subst batchResults.
    assert (List.map (fun i => participant_at env (index + i)) (seqZ 0 PAGE_SIZE)
            = List.map (participant_at env) (seqZ index (Z.of_nat 100))) as Heq.
    { change (Z.of_nat 100) with 100. unfold PAGE_SIZE.
      assert (seqZ index 100 = List.map (Z.add index) (seqZ 0 100)) as ->.
      { pose proof (fmap_add_seqZ index 0 100) as Hs.
        rewrite Z.add_0_r in Hs. symmetry. exact Hs. }
      now rewrite List.map_map. }
    rewrite Heq in He.
    pose proof (process_batch_consecutive 100 index acc st1 ltac:(lia) Hprev Hacc)
      as [H1 H2].
    destruct (process_batch env _ acc st1) as [[more entries'] st2].
    simpl in H1, H2. destruct more.
    + apply (IH (index + PAGE_SIZE) entries' st2);
        [unfold PAGE_SIZE; lia | lia | | | exact He].
      * intros j Hj. apply H2; [reflexivity|]. unfold PAGE_SIZE in Hj. lia.
      * intros e' He'. destruct (H1 e' He') as (i & Hi & H).
        exists i. split; [unfold PAGE_SIZE; lia|exact H].
    + destruct (H1 e He) as (i & Hi & H). exists i. split; [lia|exact H].
Qed.

(** X13. Every generation-2 entry has positive winnings and is built from
    the portfolio of a participant found at an index below 10000, all
    indices before which hold a participant as well: nothing behind the
    first absent participant is read into the leaderboard. *)
Theorem generation2_entries_come_from_the_participant_prefix st e :
  In e (fst (fetchV2 env st)) ->
  0 < totalWinnings e /\
  exists index,
    0 <= index < 10000 /\ entry_from env e index /\
    forall j, 0 <= j <= index -> present env j = true.
Proof.
  intros He. unfold fetchV2 in He.
  destruct (fetchV2_loop_entries (Z.to_nat (10000 / PAGE_SIZE)) 0 [] st) with (e := e)
    as (i & Hi & Hfrom & Hprefix); auto.
  - intros j Hj. lia.
  - intros e' [].
  - split; [|eauto]. destruct Hfrom as (_ & p & _ & _ & _ & Hpos). exact Hpos.
Qed.

End Generation2Facts.

Section TopTenFacts.

Import Leaderboard.

Lemma insert_row_perm {N} `{HN : Number N} (a : Row N) l :
  Permutation (insert_row a l) (a :: l).
Proof.
  induction l as [|b l IH]; cbn [insert_row]; [reflexivity|].
  destruct (behind a b); [|reflexivity].
  rewrite IH. apply perm_swap.
Qed.

Lemma sort_rows_perm {N} `{HN : Number N} (l : list (Row N)) :
  Permutation (sort_rows l) l.
Proof.
  unfold sort_rows. induction l as [|a l IH]; cbn [fold_right]; [reflexivity|].
  rewrite insert_row_perm. now constructor.
Qed.

Lemma descending_app_order l1 : forall l2,
  descending (l1 ++ l2) ->
  forall r r', In r l1 -> In r' l2 -> (winnings r' <= winnings r)%Q.
Proof.
  unfold descending. induction l1 as [|a l1 IH]; intros l2 Hs r r' Hr Hr';
    [destruct Hr|].
  simpl in Hs. apply StronglySorted_inv in Hs as [Hs Ha].
  destruct Hr as [<-|Hr].
  - rewrite Forall_forall in Ha. apply Ha, list_elem_of_In, in_app_iff. now right.
  - now apply (IH l2 Hs).
Qed.

(** X14. Ranking loses and invents nothing: the ten rows kept and the rows
    cut off are together a rearrangement of the candidates; every row cut
    off has winnings no higher than every row kept; and ten rows are kept
    unless there are fewer candidates, which are then all kept. *)
Theorem board_keeps_the_highest (candidates : list LeaderboardEntry) :
  let ranked := sort_rows candidates in
  let board := take 10 ranked in
  Permutation candidates (board ++ drop 10 ranked) /\
  (forall r r', In r board -> In r' (drop 10 ranked) ->
     (winnings r' <= winnings r)%Q) /\
  List.length board = Nat.min 10 (List.length candidates).
Proof.
  intros ranked board. subst board. split; [|split].
  - rewrite take_drop. subst ranked. symmetry. apply sort_rows_perm.
  - apply descending_app_order. rewrite take_drop. apply sort_rows_descending.
  - rewrite length_take. subst ranked. now rewrite sort_rows_length.
Qed.

End TopTenFacts.

Section MapFacts.

Import Leaderboard.

Lemma map_set_fst {V} k (v : V) m :
  forall k', In k' (List.map fst (map_set k v m)) <-> k' = k \/ In k' (List.map fst m).
Proof.
  induction m as [|[k0 v0] m IH]; intros k'; simpl; [intuition|].
  destruct (String.eqb_spec k0 k) as [->|Hne]; simpl; [intuition|].
  rewrite IH. intuition.
Qed.

Lemma map_set_NoDup {V} k (v : V) m :
  List.NoDup (List.map fst m) -> List.NoDup (List.map fst (map_set k v m)).
Proof.
  induction m as [|[k0 v0] m IH]; simpl; intros Hnd.
  - constructor; [intros []|constructor].
  - apply List.NoDup_cons_iff in Hnd as [Hk0 Hnd].
    destruct (String.eqb_spec k0 k) as [->|Hne]; simpl.
    + now constructor.
    + constructor; [|now apply IH].
      rewrite map_set_fst. intros [->|H]; [congruence|contradiction].
Qed.

Lemma map_get_Some_fst {V} k (m : list (string * V)) :
  In k (List.map fst m) <-> exists v, map_get k m = Some v.
Proof.
  induction m as [|[k0 v0] m IH]; simpl.
  - split; [intros []|intros [? [=]]].
  - destruct (String.eqb_spec k0 k) as [->|Hne].
    + split; eauto.
    + rewrite <- IH. intuition.
Qed.

Lemma add_v1_fst m entry k :
  In k (List.map fst (add_v1 m entry)) <->
  k = toLowerCase (user entry) \/ In k (List.map fst m).
Proof. unfold add_v1. apply map_set_fst. Qed.

Lemma add_v2_fst m entry k :
  In k (List.map fst (add_v2 m entry)) <->
  k = toLowerCase (user entry) \/ In k (List.map fst m).
Proof.
  unfold add_v2. destruct (map_get _ m); apply map_set_fst.
Qed.

Lemma fold_v1_fst V1 : forall m k,
  In k (List.map fst (fold_left add_v1 V1 m)) <->
  In k (List.map fst m) \/ exists e, In e V1 /\ k = toLowerCase (user e).
Proof.
  induction V1 as [|a V1 IH]; intros m k; simpl.
  - split; [auto|]. intros [H|(e & [] & _)]. exact H.
  - rewrite IH, add_v1_fst. split.
    + intros [[->|H]|(e & He & ->)]; eauto.
    + intros [H|(e & [<-|He] & ->)]; eauto.
Qed.

Lemma fold_v2_fst V2 : forall m k,
  In k (List.map fst (fold_left add_v2 V2 m)) <->
  In k (List.map fst m) \/ exists e, In e V2 /\ k = toLowerCase (user e).
Proof.
  induction V2 as [|a V2 IH]; intros m k; simpl.
  - split; [auto|]. intros [H|(e & [] & _)]. exact H.
  - rewrite IH, add_v2_fst. split.
    + intros [[->|H]|(e & He & ->)]; eauto.
    + intros [H|(e & [<-|He] & ->)]; eauto.
Qed.

Lemma fold_v1_NoDup V1 : forall m,
  List.NoDup (List.map fst m) -> List.NoDup (List.map fst (fold_left add_v1 V1 m)).
Proof.
  induction V1 as [|a V1 IH]; intros m Hm; simpl; [exact Hm|].
  apply IH. unfold add_v1. now apply map_set_NoDup.
Qed.

Lemma fold_v2_NoDup V2 : forall m,
  List.NoDup (List.map fst m) -> List.NoDup (List.map fst (fold_left add_v2 V2 m)).
Proof.
  induction V2 as [|a V2 IH]; intros m Hm; simpl; [exact Hm|].
  apply IH. unfold add_v2. destruct (map_get _ m); now apply map_set_NoDup.
Qed.

(** X15. The merged table is a map over the wallets of both generations: no
    key occurs twice, every entry of either generation has its lower-cased
    address as a key, and there is no other key. *)
Theorem merged_table_covers_both_generations entriesV1 entriesV2 :
  let merged := combinedEntries entriesV1 entriesV2 in
  NoDup (List.map fst merged) /\
  (forall e, In e entriesV1 \/ In e entriesV2 ->
     exists v, map_get (toLowerCase (user e)) merged = Some v) /\
  (forall k, In k (List.map fst merged) ->
     exists e, (In e entriesV1 \/ In e entriesV2) /\ k = toLowerCase (user e)).
Proof.
  intros merged. subst merged. unfold combinedEntries. split; [|split].
  - apply NoDup_ListNoDup, fold_v2_NoDup, fold_v1_NoDup. constructor.
  - intros e He. apply map_get_Some_fst, fold_v2_fst.
    destruct He as [He|He]; [left|right; eauto].
    apply fold_v1_fst. right. eauto.
  - intros k Hk. apply fold_v2_fst in Hk as [Hk|(e & He & ->)]; [|eauto].
    apply fold_v1_fst in Hk as [[]|(e & He & ->)]. eauto.
Qed.

Lemma map_set_sum (f : ChainEntry -> Z) k v m :
  sumZ (List.map f (map_values (map_set k v m)))
  = sumZ (List.map f (map_values m))
    - match map_get k m with Some old => f old | None => 0 end + f v.
Proof.
  unfold map_values. induction m as [|[k0 v0] m IH]; simpl; [lia|].
  destruct (String.eqb_spec k0 k) as [->|Hne]; simpl; [lia|].
  rewrite IH. lia.
Qed.

Lemma fold_v1_sum (f : ChainEntry -> Z) V1 : forall m,
  List.NoDup (List.map (fun e => toLowerCase (user e)) V1) ->
  (forall e, In e V1 -> map_get (toLowerCase (user e)) m = None) ->
  sumZ (List.map f (map_values (fold_left add_v1 V1 m)))
  = sumZ (List.map f (map_values m)) + sumZ (List.map f V1).
Proof.
  induction V1 as [|a V1 IH]; intros m Hnd Hfresh; simpl; [lia|].
  apply List.NoDup_cons_iff in Hnd as [Ha Hnd].
  rewrite IH; [|exact Hnd|].
  - unfold add_v1. rewrite map_set_sum, (Hfresh a) by now left. lia.
  - intros e He. unfold add_v1. rewrite map_get_set_ne.
    + apply Hfresh. now right.
    + intros Heq. apply Ha. rewrite Heq. apply in_map_iff. eauto.
Qed.

Lemma fold_v2_sum (f : ChainEntry -> Z) V2 :
  forall m,
  (forall existing entry,
     f (mkEntry (user entry)
                (totalWinnings existing + totalWinnings entry)
                (entryVotes existing + entryVotes entry))
     = f existing + f entry) ->
  sumZ (List.map f (map_values (fold_left add_v2 V2 m)))
  = sumZ (List.map f (map_values m)) + sumZ (List.map f V2).
Proof.
  induction V2 as [|a V2 IH]; intros m Hf; simpl; [lia|].
  rewrite IH by exact Hf. unfold add_v2.
  destruct (map_get (toLowerCase (user a)) m) as [existing|] eqn:Hg;
    rewrite map_set_sum, Hg; [rewrite Hf|]; lia.
Qed.

(** X16. Merging conserves the totals: when generation 1 lists each wallet
    once, the winnings of all merged entries add up to the winnings of
    both generations' entries, and so do the trade counts (a wallet that
    generation 2 lists several times is summed every time). *)
Theorem merge_conserves_totals entriesV1 entriesV2 :
  NoDup (List.map (fun e => toLowerCase (user e)) entriesV1) ->
  let merged := map_values (combinedEntries entriesV1 entriesV2) in
  sumZ (List.map totalWinnings merged)
  = sumZ (List.map totalWinnings entriesV1) + sumZ (List.map totalWinnings entriesV2) /\
  sumZ (List.map entryVotes merged)
  = sumZ (List.map entryVotes entriesV1) + sumZ (List.map entryVotes entriesV2).
Proof.
  intros Hnd merged. subst merged. unfold combinedEntries.
  apply NoDup_ListNoDup in Hnd. split.
  - rewrite (fold_v2_sum totalWinnings) by reflexivity.
    rewrite fold_v1_sum by (auto; reflexivity). simpl. lia.
  - rewrite (fold_v2_sum entryVotes) by reflexivity.
    rewrite fold_v1_sum by (auto; reflexivity). simpl. lia.
Qed.

End MapFacts.

Section BoardIdentityFacts.

Import Leaderboard Aggregation.

Variable env : Env.

Lemma combined_values_keys entriesV1 entriesV2 :
  List.map (fun e => toLowerCase (user e))
           (map_values (combinedEntries entriesV1 entriesV2))
  = List.map fst (combinedEntries entriesV1 entriesV2).
Proof.
  unfold map_values. rewrite List.map_map. apply map_ext_in.
  intros [k v] Hin. simpl. symmetry. revert k v Hin.
  unfold combinedEntries. apply fold_add_v2_keys, fold_add_v1_keys.
  intros ? ? [].
Qed.

Lemma filter_map_NoDup {A B} (f : A -> B) (p : A -> bool) l :
  List.NoDup (List.map f l) -> List.NoDup (List.map f (List.filter p l)).
Proof.
  induction l as [|a l IH]; simpl; intros Hnd; [constructor|].
  apply List.NoDup_cons_iff in Hnd as [Ha Hnd].
  destruct (p a); simpl; [|now apply IH].
  constructor; [|now apply IH].
  intros Hin. apply Ha. apply in_map_iff in Hin as (x & Hx & Hin).
  apply filter_In in Hin as [Hin _]. apply in_map_iff. eauto.
Qed.

(** X17. On a leaderboard obtained by a refresh every address is in lower
    case and no wallet has two rows. *)
Theorem board_lists_each_wallet_once st rows st' :
  fst (get_leaderboard st) = None ->
  GET env st = (Json rows, st') ->
  NoDup (List.map address rows) /\
  Forall (fun r => toLowerCase (address r) = address r) rows.
Proof.
  intros Hmiss HG. unfold GET in HG.
  destruct (get_leaderboard st) as [[cached|] st0] eqn:Hg; [discriminate|].
  destruct (refresh env st0) as [[response|e] st1] eqn:Hr.
  - injection HG as -> <-.
    apply refresh_json_inv in Hr as (dec & v1 & v2 & users & t & _ & _ & -> & _).
    set (candidates := List.map (build_row users)
                         (winners_of (combinedEntries v1 v2) dec)).
    assert (List.map address candidates
            = List.map (fun e => toLowerCase (user e))
                (List.filter (fun entry => 0 <? totalWinnings entry)
                   (map_values (combinedEntries v1 v2)))) as Haddr.
    { subst candidates. unfold winners_of, winners_with.
      now rewrite !List.map_map. }
    split.
    + rewrite <- firstn_map.
      apply (sublist_NoDup _ (List.map address (sort_rows candidates)));
        [|apply sublist_take].
      apply NoDup_ListNoDup.
      apply (Permutation_NoDup (l := List.map address candidates)).
      { apply Permutation_map. symmetry. apply sort_rows_perm. }
      rewrite Haddr. apply filter_map_NoDup.
      rewrite combined_values_keys.
      apply fold_v2_NoDup, fold_v1_NoDup. constructor.
    + apply Forall_forall. intros r Hr.
      subst candidates. apply subseteq_take, list_elem_of_In in Hr.
      apply sort_rows_In, in_map_iff in Hr as (w & <- & Hw).
      apply winners_of_In in Hw as (entry & _ & _ & ->). simpl.
      apply toLowerCase_idem.
  - pose proof (miss_is_stable st st0 Hg (now st1) (trace st1)) as Hstable.
    apply refresh_throw_cache in Hr. rewrite <- Hr in Hstable.
    destruct st1 as [c1 n1 t1]. simpl in Hstable.
    destruct (get_leaderboard (mkSt c1 n1 t1)) as [[cached|] st2];
      simpl in *; discriminate.
Qed.

Lemma neynar_batches_app tr1 tr2 :
  neynar_batches (tr1 ++ tr2) = (neynar_batches tr1 ++ neynar_batches tr2)%list.
Proof. unfold neynar_batches. apply flat_map_app. Qed.

Lemma retries_send_no_batch c (delays : list Z) :
  neynar_batches (flat_map (fun d => [EvSleep d; EvRetry c]) delays) = [].
Proof. induction delays as [|d delays IH]; simpl; [reflexivity|exact IH]. Qed.

Lemma bulk_read_batches {T} batch (r : Run T) :
  calls r <> 0%nat ->
  neynar_batches (retry_events (CNeynarBulk batch) r) = [batch].
Proof.
  unfold retry_events. destruct (calls r); [congruence|]. intros _.
  change (neynar_batches (EvCall ?c :: ?l)) with (batch :: neynar_batches l).
  now rewrite retries_send_no_batch.
Qed.

Lemma batch_loop_step fuel a addresses result st :
  batch_loop env (S fuel) (a :: addresses) result st
  = match await_withRetry (CNeynarBulk (take 25 (a :: addresses)))
            (fetchBulkUsersByEthOrSolAddress env (take 25 (a :: addresses))) st with
    | (Ok usersMap, st') =>
        batch_loop env fuel (drop 25 (a :: addresses))
                   (fold_left store_users usersMap result) st'
    | (Throw _, st') =>
        batch_loop env fuel (drop 25 (a :: addresses)) result st'
    end.
Proof. reflexivity. Qed.

Lemma batch_loop_chunks fuel : forall addresses result st,
  (List.length addresses <= fuel)%nat ->
  let out := batch_loop env fuel addresses result st in
  exists sent,
    trace (snd out) = (trace st ++ sent)%list /\
    concat (neynar_batches sent) = addresses /\
    Forall (fun batch => (1 <= List.length batch <= 25)%nat) (neynar_batches sent) /\
    cache (snd out) = cache st.
Proof.
  induction fuel as [|fuel IH]; intros addresses result st Hfuel.
  - destruct addresses; [|simpl in Hfuel; lia].
    exists []. simpl. rewrite app_nil_r. auto.
  - destruct addresses as [|a addresses].
    { exists []. simpl. rewrite app_nil_r. auto. }
    cbv zeta. rewrite batch_loop_step.
    assert (1 <= List.length (a :: addresses))%nat as Hlen by (simpl; lia).
    remember (a :: addresses) as all eqn:Hall. clear Hall a addresses.
    assert (List.length (drop 25 all) <= fuel)%nat as Hrest
      by (rewrite length_drop; lia).
    unfold await_withRetry.
    remember (withRetry (fetchBulkUsersByEthOrSolAddress env (take 25 all)) 3 2000)
      as r eqn:Hr.
    assert (calls r <> 0%nat) as Hcalls by (subst r; apply withRetry_calls_pos).
    clear Hr.
    assert (forall result',
              let out := batch_loop env fuel (drop 25 all) result'
                           (mkSt (cache st) (now st + sumZ (sleeps r))
                              (trace st ++ retry_events (CNeynarBulk (take 25 all)) r)) in
              exists sent,
                trace (snd out) = (trace st ++ sent)%list /\
                concat (neynar_batches sent) = all /\
                Forall (fun batch => (1 <= List.length batch <= 25)%nat)
                       (neynar_batches sent) /\
                cache (snd out) = cache st) as Hstep.
    { intros result'.
      destruct (IH (drop 25 all) result'
                  (mkSt (cache st) (now st + sumZ (sleeps r))
                     (trace st ++ retry_events (CNeynarBulk (take 25 all)) r)) Hrest)
        as (sent & Htr & Hcat & Hsizes & Hc).
      exists (retry_events (CNeynarBulk (take 25 all)) r ++ sent)%list.
      cbv zeta in *. cbn [cache trace] in Htr, Hc.
      rewrite Htr, Hc, app_assoc.
      rewrite neynar_batches_app, (bulk_read_batches _ _ Hcalls).
      cbn [app concat]. rewrite Hcat, take_drop.
      split; [reflexivity|]. split; [reflexivity|]. split; [|reflexivity].
      constructor; [|exact Hsizes]. rewrite length_take. lia. }
    destruct (outcome r); apply Hstep.
Qed.

(** X18. The identity service is asked in chunks of at most 25 addresses,
    never an empty one; in the order sent the chunks make up exactly the
    address list, also when some of them fail; and the cache is not
    touched. *)
Theorem identity_lookups_are_chunked addresses st :
  let out := batchFetchNeynarUsers env addresses st in
  exists sent,
    trace (snd out) = (trace st ++ sent)%list /\
    concat (neynar_batches sent) = addresses /\
    Forall (fun batch => (1 <= List.length batch <= 25)%nat) (neynar_batches sent) /\
    cache (snd out) = cache st.
Proof. apply batch_loop_chunks. reflexivity. Qed.

Lemma store_users_lower pairs : forall result : gmap string (list NeynarUser),
  (forall k users, result !! k = Some users -> toLowerCase k = k) ->
  forall k users, fold_left store_users pairs result !! k = Some users ->
                  toLowerCase k = k.
Proof.
  induction pairs as [|[addr raw] pairs IH]; intros result Hres; simpl; [exact Hres|].
  apply IH. intros k users. unfold store_users. simpl.
  rewrite lookup_insert. case_decide as Hk.
  - intros _. subst k. apply toLowerCase_idem.
  - apply Hres.
Qed.

Lemma batch_loop_lower fuel : forall addresses result st,
  (forall k users, result !! k = Some users -> toLowerCase k = k) ->
  forall k users,
    fst (batch_loop env fuel addresses result st) !! k = Some users ->
    toLowerCase k = k.
Proof.
  induction fuel as [|fuel IH]; intros addresses result st Hres; [exact Hres|].
  destruct addresses as [|a addresses]; [exact Hres|].
  rewrite batch_loop_step.
  destruct (await_withRetry _ _ st) as [[usersMap|e] st1].
  - apply IH. now apply store_users_lower.
  - now apply IH.
Qed.

(** X19. Every key of the identity table built from the service's answers
    is in lower case, whatever case the service answered in, so that the
    lower-cased addresses of the leaderboard find their identities. *)
Theorem identity_keys_are_lower_case addresses st k users :
  fst (batchFetchNeynarUsers env addresses st) !! k = Some users ->
  toLowerCase k = k.
Proof.
  apply batch_loop_lower. intros k' users' H. rewrite lookup_empty in H. discriminate.
Qed.

End BoardIdentityFacts.

(** * Properties of the on-chain views *)

Section CollectFacts.

Import Views.

Lemma new_array_length n : 0 <= n -> Z.of_nat (List.length (new_array n)) = n.
Proof. intros Hn. unfold new_array. rewrite length_replicate. lia. Qed.

Lemma array_set_end (found : list Z) k v :
  array_set (found ++ replicate (S k) 0) (Z.of_nat (List.length found)) v
  = Some ((found ++ [v]) ++ replicate k 0)%list.
Proof.
  unfold array_set. rewrite length_app, length_replicate.
  destruct (Z.leb_spec 0 (Z.of_nat (List.length found))) as [_|]; [|lia].
  destruct (Z.ltb_spec (Z.of_nat (List.length found))
              (Z.of_nat (List.length found + S k))) as [_|]; [|lia].
  simpl. rewrite Nat2Z.id.
  replace (List.length found) with (List.length found + 0)%nat at 1 by lia.
  rewrite insert_app_r. simpl. now rewrite <- app_assoc.
Qed.

Lemma array_set_at (pre : list Z) k v i :
  i = Z.of_nat (List.length pre) ->
  array_set (pre ++ replicate (S k) 0) i v = Some ((pre ++ [v]) ++ replicate k 0)%list.
Proof. intros ->. apply array_set_end. Qed.

Lemma collect_loop_all (test : Z -> Tx bool) (t : Z -> bool) more n fuel :
  forall i found,
  (forall c, more c = true) ->
  0 <= i -> Z.of_nat fuel = n - i ->
  (forall j, i <= j < n -> test j = Some (t j)) ->
  Z.of_nat (List.length found) <= i ->
  let found' := (found ++ List.filter t (seqZ i (n - i)))%list in
  collect_loop test more fuel i n
    (found ++ replicate (Z.to_nat n - List.length found) 0)
    (Z.of_nat (List.length found))
  = Some ((found' ++ replicate (Z.to_nat n - List.length found') 0)%list,
          Z.of_nat (List.length found')).
Proof.
  induction fuel as [|fuel IH]; intros i found Hmore Hi Hfuel Htest Hlen.
  - simpl. replace (n - i) with 0 by lia. rewrite seqZ_nil by lia. simpl.
    now rewrite app_nil_r.
  - cbn [collect_loop].
    destruct (Z.ltb_spec i n) as [Hlt|]; [|lia]. rewrite Hmore.
    rewrite (seqZ_cons i (n - i)) by lia.
    replace (Z.pred (n - i)) with (n - Z.succ i) by lia.
    rewrite (Htest i) by lia. simpl.
    replace (i + 1) with (Z.succ i) by lia.
    destruct (t i) eqn:Hti.
    + replace (Z.to_nat n - List.length found)%nat
        with (S (Z.to_nat n - List.length (found ++ [i])%list))
        by (rewrite length_app; simpl; lia).
      rewrite array_set_end. simpl.
      replace (Z.of_nat (List.length found) + 1)
        with (Z.of_nat (List.length (found ++ [i])%list))
        by (rewrite length_app; simpl; lia).
      rewrite (IH (Z.succ i) (found ++ [i])%list); auto; try lia.
      * now rewrite <- (app_assoc found [i]).
      * intros j Hj. apply Htest. lia.
      * rewrite length_app. simpl. lia.
    + rewrite (IH (Z.succ i) found); auto; try lia.
      intros j Hj. apply Htest. lia.
Qed.

Lemma collect_loop_limited (test : Z -> Tx bool) (t : Z -> bool) limit more n fuel :
  forall i found,
  (forall c, more c = (c <? limit)) ->
  0 <= i -> Z.of_nat fuel = n - i ->
  (forall j, i <= j < n -> test j = Some (t j)) ->
  Z.of_nat (List.length found) <= i ->
  Z.of_nat (List.length found) <= limit ->
  let found' :=
    (found ++ take (Z.to_nat limit - List.length found)
                   (List.filter t (seqZ i (n - i))))%list in
  collect_loop test more fuel i n
    (found ++ replicate (Z.to_nat n - List.length found) 0)
    (Z.of_nat (List.length found))
  = Some ((found' ++ replicate (Z.to_nat n - List.length found') 0)%list,
          Z.of_nat (List.length found')).
Proof.
  induction fuel as [|fuel IH]; intros i found Hmore Hi Hfuel Htest Hlen Hcap.
  - simpl. replace (n - i) with 0 by lia. rewrite seqZ_nil by lia. simpl.
    rewrite take_nil. now rewrite app_nil_r.
  - cbn [collect_loop].
    destruct (Z.ltb_spec i n) as [Hlt|]; [|lia]. rewrite Hmore.
    rewrite (seqZ_cons i (n - i)) by lia.
    replace (Z.pred (n - i)) with (n - Z.succ i) by lia.
    destruct (Z.ltb_spec (Z.of_nat (List.length found)) limit) as [Hroom|Hfull]; simpl.
    + rewrite (Htest i) by lia. simpl.
      replace (i + 1) with (Z.succ i) by lia.
      destruct (t i) eqn:Hti.
      * replace (Z.to_nat n - List.length found)%nat
          with (S (Z.to_nat n - List.length (found ++ [i])%list))
          by (rewrite length_app; simpl; lia).
        rewrite array_set_end. simpl.
        replace (Z.of_nat (List.length found) + 1)
          with (Z.of_nat (List.length (found ++ [i])%list))
          by (rewrite length_app; simpl; lia).
        rewrite (IH (Z.succ i) (found ++ [i])%list); auto; try lia.
        -- replace (Z.to_nat limit - List.length found)%nat
             with (S (Z.to_nat limit - List.length (found ++ [i])%list))
             by (rewrite length_app; simpl; lia).
           simpl. now rewrite <- (app_assoc found [i]).
        -- intros j Hj. apply Htest. lia.
        -- rewrite length_app. simpl. lia.
        -- rewrite length_app. simpl. lia.
      * rewrite (IH (Z.succ i) found); auto; try lia.
        intros j Hj. apply Htest. lia.
    + replace (Z.to_nat limit - List.length found)%nat with 0%nat by lia.
      simpl. now rewrite app_nil_r.
Qed.

Lemma collect_loop_spec (test : Z -> Tx bool) (t : Z -> bool) limit more n :
  (forall c, more c = (limit =? 0) || (c <? limit)) ->
  0 <= limit -> 0 <= n ->
  (forall j, 0 <= j < n -> test j = Some (t j)) ->
  let found :=
    if limit =? 0 then List.filter t (seqZ 0 n)
    else take (Z.to_nat limit) (List.filter t (seqZ 0 n)) in
  collect_loop test more (Z.to_nat n) 0 n (new_array n) 0
  = Some ((found ++ replicate (Z.to_nat n - List.length found) 0)%list,
          Z.of_nat (List.length found)).
Proof.
  intros Hmore Hlimit Hn Htest.
  destruct (Z.eqb_spec limit 0) as [Hz|Hnz]; cbv zeta.
  - pose proof (collect_loop_all test t more n (Z.to_nat n) 0 []) as H.
    cbv zeta in H. simpl in H. rewrite Nat.sub_0_r, Z.sub_0_r in H.
    apply H;
      first [lia | exact Htest | (simpl; lia)
            | (intros c; rewrite Hmore, Hz; reflexivity)].
  - pose proof (collect_loop_limited test t limit more n (Z.to_nat n) 0 []) as H.
    cbv zeta in H. simpl in H. rewrite !Nat.sub_0_r, Z.sub_0_r in H.
    apply H;
      first [lia | exact Htest | (simpl; lia)
            | (intros c; rewrite Hmore;
               destruct (Z.eqb_spec limit 0); [contradiction|reflexivity])].
Qed.

Lemma copy_loop_spec fuel : forall i count temp,
  0 <= i -> Z.of_nat fuel = count - i ->
  count <= Z.of_nat (List.length temp) ->
  copy_loop fuel i count temp
    (take (Z.to_nat i) temp ++ replicate (Z.to_nat (count - i)) 0)
  = Some (take (Z.to_nat count) temp).
Proof.
  induction fuel as [|fuel IH]; intros i count temp Hi Hfuel Hlen.
  - simpl. replace (count - i) with 0 by lia. simpl. rewrite app_nil_r.
    f_equal. f_equal. lia.
  - cbn [copy_loop]. destruct (Z.ltb_spec i count) as [Hlt|]; [|lia].
    unfold array_get.
    destruct (Z.leb_spec 0 i) as [_|]; [|lia].
    destruct (Z.ltb_spec i (Z.of_nat (List.length temp))) as [_|]; [|lia].
    simpl.
    destruct (lookup_lt_is_Some_2 temp (Z.to_nat i) ltac:(lia)) as [v Hv].
    rewrite Hv. simpl.
    replace (Z.to_nat (count - i)) with (S (Z.to_nat (count - (i + 1)))) by lia.
    assert (List.length (take (Z.to_nat i) temp) = Z.to_nat i) as Htl
      by (rewrite length_take; lia).
    rewrite (array_set_at (take (Z.to_nat i) temp) _ v i) by (rewrite Htl; lia).
    simpl.
    rewrite <- (take_S_r temp (Z.to_nat i) v Hv).
    replace (S (Z.to_nat i)) with (Z.to_nat (i + 1)) by lia.
    apply IH; lia.
Qed.

Lemma collect_spec p (test : Z -> Tx bool) (t : Z -> bool) limit more :
  (forall c, more c = (limit =? 0) || (c <? limit)) ->
  0 <= limit -> 0 <= marketCount p ->
  (forall j, 0 <= j < marketCount p -> test j = Some (t j)) ->
  collect p test more
  = Some (if limit =? 0 then List.filter t (seqZ 0 (marketCount p))
          else take (Z.to_nat limit) (List.filter t (seqZ 0 (marketCount p)))).
Proof.
  intros Hmore Hlimit Hcount Htest. unfold collect.
  rewrite (collect_loop_spec test t limit more (marketCount p) Hmore Hlimit Hcount Htest).
  cbn [tbind fst snd].
  set (found := if limit =? 0 then List.filter t (seqZ 0 (marketCount p))
                else take (Z.to_nat limit) (List.filter t (seqZ 0 (marketCount p)))).
  assert (List.length found <= Z.to_nat (marketCount p))%nat as Hfl.
  { subst found. destruct (limit =? 0).
    - etransitivity; [apply filter_length_le|]. now rewrite length_seqZ.
    - rewrite length_take. etransitivity; [apply Nat.le_min_r|].
      etransitivity; [apply filter_length_le|]. now rewrite length_seqZ. }
  pose proof (copy_loop_spec (List.length found) 0 (Z.of_nat (List.length found))
                (found ++ replicate (Z.to_nat (marketCount p) - List.length found) 0)%list
                ltac:(lia) ltac:(lia)) as Hcopy.
  rewrite Nat2Z.id in *. simpl in Hcopy. rewrite Z.sub_0_r, Nat2Z.id in Hcopy.
  unfold new_array. rewrite Nat2Z.id.
  rewrite Hcopy; [now rewrite take_app_length|].
  rewrite length_app, length_replicate. lia.
Qed.

End CollectFacts.

Section ListingFacts.

Import Views.

Variable p : Policast.

Hypothesis count_is_uint : 0 <= marketCount p.
Hypothesis markets_readable :
  forall i, 0 <= i < marketCount p -> is_Some (getMarketBasicInfo p i).

(** X20. With every market readable, [getMarketsByCategory] returns the ids
    of the markets of the category in ascending order: all of them for
    [_limit = 0], otherwise the first [_limit] of them. *)
Theorem markets_by_category_are_the_first_matches _category _limit :
  0 <= _limit ->
  getMarketsByCategory p _category _limit
  = Some (let matches :=
            List.filter
              (fun i => match getMarketBasicInfo p i with
                        | Some basic => category basic =? _category
                        | None => false
                        end) (seqZ 0 (marketCount p)) in
          if _limit =? 0 then matches else take (Z.to_nat _limit) matches).
Proof.
  intros Hlimit. unfold getMarketsByCategory.
  apply collect_spec; auto.
  intros j Hj. destruct (markets_readable j Hj) as [basic ->]. reflexivity.
Qed.

(** X21. With every market readable, [getUnresolvedMarkets] lists exactly
    the markets below the market count for which [isMarketTradable]
    answers true at the same block time. *)
Theorem unresolved_markets_are_the_tradable_ones timestamp :
  exists l,
    getUnresolvedMarkets p timestamp = Some l /\
    forall m, In m l <->
              0 <= m < marketCount p /\ isMarketTradable p timestamp m = Some true.
Proof.
  eexists. split.
  - unfold getUnresolvedMarkets.
    apply (collect_spec p _
             (fun i => match getMarketBasicInfo p i with
                       | Some basic => tradable basic timestamp
                       | None => false
                       end) 0); auto; [lia|].
    intros j Hj. destruct (markets_readable j Hj) as [basic ->]. reflexivity.
  - intros m. simpl. rewrite filter_In, <- list_elem_of_In, elem_of_seqZ.
    unfold isMarketTradable.
    destruct (getMarketBasicInfo p m) as [basic|].
    + split; [intros [H1 H2]|intros [H1 [= H2]]]; (split; [lia|congruence]).
    + split; [intros [_ [=]]|intros [_ [=]]].
Qed.

End ListingFacts.

Section FillFacts.

Import Views.

Lemma array_set_length a i v a' :
  array_set a i v = Some a' -> List.length a' = List.length a.
Proof.
  unfold array_set. destruct (_ && _); [|discriminate].
  intros [= <-]. apply length_insert.
Qed.

Lemma array_set_lookup a i v a' j :
  array_set a i v = Some a' ->
  0 <= i < Z.of_nat (List.length a) /\
  a' !! j = if decide (j = Z.to_nat i) then Some v else a !! j.
Proof.
  unfold array_set.
  destruct (Z.leb_spec 0 i); [|discriminate].
  destruct (Z.ltb_spec i (Z.of_nat (List.length a))); [|discriminate].
  simpl. intros [= <-]. split; [lia|]. case_decide as Hj.
  - subst j. apply list_lookup_insert_eq. lia.
  - now apply list_lookup_insert_ne.
Qed.

Lemma fill_loop_inv read fuel : forall i n a0 a,
  0 <= i -> Z.of_nat fuel = n - i ->
  fill_loop read fuel i n a0 = Some a ->
  List.length a = List.length a0 /\
  (forall j, i <= j < n -> is_Some (read j) /\ read j = a !! Z.to_nat j) /\
  (forall j, (j < Z.to_nat i)%nat -> a !! j = a0 !! j).
Proof.
  induction fuel as [|fuel IH]; intros i n a0 a Hi Hfuel.
  - simpl. intros [= <-]. split; [reflexivity|]. split; [intros j Hj; lia|auto].
  - cbn [fill_loop]. destruct (Z.ltb_spec i n) as [Hlt|]; [|lia].
    destruct (read i) as [v|] eqn:Hr; [|discriminate]. simpl.
    destruct (array_set a0 i v) as [a1|] eqn:Hset; [|discriminate]. simpl.
    intros Hrest. apply IH in Hrest as (Hlen & Hread & Hkeep); [|lia|lia].
    pose proof (array_set_length _ _ _ _ Hset) as Hlen1.
    split; [congruence|]. split.
    + intros j Hj. destruct (Z.eq_dec j i) as [->|Hne].
      * split; [rewrite Hr; eauto|].
        rewrite Hr, Hkeep by lia.
        destruct (array_set_lookup _ _ _ _ (Z.to_nat i) Hset) as [_ ->].
        now rewrite decide_True.
      * apply Hread. lia.
    + intros j Hj. rewrite Hkeep by lia.
      destruct (array_set_lookup _ _ _ _ j Hset) as [_ ->].
      rewrite decide_False by lia. reflexivity.
Qed.

Lemma fill_inv read n a :
  fill read n = Some a ->
  List.length a = Z.to_nat n /\
  forall j, 0 <= j < n -> is_Some (read j) /\ read j = a !! Z.to_nat j.
Proof.
  unfold fill. intros H.
  destruct (Z.le_gt_cases 0 n) as [Hn|Hn].
  - apply fill_loop_inv in H as (Hlen & Hread & _); [|lia|lia].
    split; [|exact Hread]. rewrite Hlen. unfold new_array. apply length_replicate.
  - replace (Z.to_nat n) with 0%nat in H by lia. simpl in H. injection H as <-.
    split; [|intros j Hj; lia]. unfold new_array. now rewrite length_replicate.
Qed.

Lemma fill_loop_total read fuel : forall i n a0,
  0 <= i -> Z.of_nat fuel = n - i -> Z.of_nat (List.length a0) = n ->
  (forall j, i <= j < n -> is_Some (read j)) ->
  is_Some (fill_loop read fuel i n a0).
Proof.
  induction fuel as [|fuel IH]; intros i n a0 Hi Hfuel Hlen Hread; [simpl; eauto|].
  cbn [fill_loop]. destruct (Z.ltb_spec i n) as [Hlt|]; [|lia].
  destruct (Hread i ltac:(lia)) as [v ->]. simpl.
  unfold array_set.
  destruct (Z.leb_spec 0 i); [|lia].
  destruct (Z.ltb_spec i (Z.of_nat (List.length a0))); [|lia]. simpl.
  apply IH; try lia.
  - rewrite length_insert. lia.
  - intros j Hj. apply Hread. lia.
Qed.

Lemma fill_total read n :
  0 <= n -> (forall j, 0 <= j < n -> is_Some (read j)) -> is_Some (fill read n).
Proof.
  intros Hn Hread. unfold fill. apply fill_loop_total; auto; try lia.
  unfold new_array. rewrite length_replicate. lia.
Qed.

Lemma fill_loop_reverts read fuel : forall i n a0 k,
  0 <= i -> Z.of_nat fuel = n - i -> Z.of_nat (List.length a0) = n ->
  i <= k < n -> read k = None ->
  fill_loop read fuel i n a0 = None.
Proof.
  induction fuel as [|fuel IH]; intros i n a0 k Hi Hfuel Hlen Hk Hnone; [lia|].
  cbn [fill_loop]. destruct (Z.ltb_spec i n) as [Hlt|]; [|lia].
  destruct (read i) as [v|] eqn:Hr; [|reflexivity]. simpl.
  unfold array_set.
  destruct (Z.leb_spec 0 i); [|lia].
  destruct (Z.ltb_spec i (Z.of_nat (List.length a0))); [|lia]. simpl.
  assert (k <> i) by congruence.
  apply (IH _ _ _ k); try lia; auto.
  rewrite length_insert. lia.
Qed.

Lemma fill_reverts read n k :
  0 <= k < n -> read k = None -> fill read n = None.
Proof.
  intros Hk Hnone. unfold fill. apply (fill_loop_reverts _ _ _ _ _ k); auto; try lia.
  unfold new_array. rewrite length_replicate. lia.
Qed.

(** X22. For a market below the market count whose option balances are all
    readable, [getUserShares] returns one balance per option, in option
    order; it reverts for a market id at or beyond the count, and as soon
    as one balance cannot be read. *)
Theorem user_shares_lists_every_option p _marketId _user basic :
  getMarketBasicInfo p _marketId = Some basic ->
  (_marketId < marketCount p ->
   (forall j, 0 <= j < optionCount basic ->
      is_Some (getMarketOptionUserShares p _marketId j _user)) ->
   exists shares,
     getUserShares p _marketId _user = Some shares /\
     List.length shares = Z.to_nat (optionCount basic) /\
     forall j, 0 <= j < optionCount basic ->
       getMarketOptionUserShares p _marketId j _user = shares !! Z.to_nat j) /\
  (marketCount p <= _marketId -> getUserShares p _marketId _user = None) /\
  (forall k, 0 <= k < optionCount basic ->
     getMarketOptionUserShares p _marketId k _user = None ->
     getUserShares p _marketId _user = None).
Proof.
  intros Hb. unfold getUserShares. rewrite Hb. split; [|split].
  - intros Hm Hread.
    destruct (Z.ltb_spec _marketId (marketCount p)); [|lia]. simpl.
    destruct (Z.le_gt_cases 0 (optionCount basic)) as [Hn|Hn].
    + destruct (fill_total (fun i => getMarketOptionUserShares p _marketId i _user)
                  (optionCount basic) Hn Hread) as [shares Hfill].
      rewrite Hfill. exists shares. split; [reflexivity|].
      apply fill_inv in Hfill as [Hlen Hr]. split; [exact Hlen|].
      intros j Hj. now destruct (Hr j Hj).
    + unfold fill. replace (Z.to_nat (optionCount basic)) with 0%nat by lia.
      simpl. eexists. split; [reflexivity|]. split.
      * unfold new_array. rewrite length_replicate. lia.
      * intros j Hj. lia.
  - intros Hm. destruct (Z.ltb_spec _marketId (marketCount p)); [lia|reflexivity].
  - intros k Hk Hnone. destruct (_marketId <? marketCount p); [|reflexivity].
    simpl. now apply (fill_reverts _ _ k).
Qed.

End FillFacts.

Section OddsFacts.

Import Views.

Lemma any_shares_loop_none p _marketId fuel : forall i n,
  (forall j, i <= j < n ->
     exists option, getMarketOption p _marketId j = Some option /\
                    totalShares option = 0) ->
  any_shares_loop p _marketId fuel i n false = Some false.
Proof.
  induction fuel as [|fuel IH]; intros i n Hnone; [reflexivity|].
  cbn [any_shares_loop]. destruct (Z.ltb_spec i n) as [Hlt|]; [|reflexivity].
  destruct (Hnone i ltac:(lia)) as (option & -> & Hzero). simpl.
  rewrite Hzero. simpl. apply IH. intros j Hj. apply Hnone. lia.
Qed.

Lemma fill_const read n x :
  0 <= n -> (forall j, 0 <= j < n -> read j = Some x) ->
  fill read n = Some (replicate (Z.to_nat n) x).
Proof.
  intros Hn Hread.
  destruct (fill_total read n Hn) as [a Ha].
  { intros j Hj. rewrite (Hread j Hj). eauto. }
  rewrite Ha. f_equal. apply fill_inv in Ha as [Hlen Hat].
  apply list_eq. intros i.
  destruct (Nat.lt_ge_cases i (Z.to_nat n)) as [Hi|Hi].
  - destruct (Hat (Z.of_nat i) ltac:(lia)) as [_ Hr].
    rewrite Nat2Z.id, Hread in Hr by lia. rewrite <- Hr.
    symmetry. now apply lookup_replicate_2.
  - rewrite !lookup_ge_None_2; [reflexivity| |]; [rewrite length_replicate|]; lia.
Qed.

Lemma sum_replicate n x : fold_right Z.add 0 (replicate n x) = Z.of_nat n * x.
Proof. induction n as [|n IH]; [reflexivity|]. cbn [replicate fold_right]. lia. Qed.

(** X23. In a market none of whose options has shares outstanding,
    [getMarketOdds] gives every option the same price, 1e18 divided by the
    option count and rounded down.  The odds therefore add up to 1e18 only
    when the option count divides 1e18; otherwise they fall short of it, by
    less than one unit per option. *)
Theorem untraded_market_has_equal_odds p _marketId basic :
  getMarketBasicInfo p _marketId = Some basic ->
  0 < optionCount basic ->
  (forall j, 0 <= j < optionCount basic ->
     exists option, getMarketOption p _marketId j = Some option /\
                    totalShares option = 0) ->
  exists odds,
    getMarketOdds p _marketId = Some odds /\
    odds = replicate (Z.to_nat (optionCount basic)) (10 ^ 18 / optionCount basic) /\
    10 ^ 18 - optionCount basic < fold_right Z.add 0 odds <= 10 ^ 18 /\
    (fold_right Z.add 0 odds = 10 ^ 18 <-> 10 ^ 18 mod optionCount basic = 0).
Proof.
  intros Hb Hn Hnone. eexists. split; [|split; [reflexivity|]].
  - unfold getMarketOdds, getMarketOptionCount. rewrite Hb. cbn [tbind].
    apply fill_const; [lia|]. intros j Hj.
    unfold calculateCurrentPrice. rewrite Hb.
    destruct (Z.leb_spec (optionCount basic) j); [lia|].
    destruct (Hnone j Hj) as (option & -> & ->). simpl Z.eqb. cbv iota.
    rewrite any_shares_loop_none by (intros k Hk; apply Hnone; lia).
    cbn [tbind negb]. unfold div.
    destruct (Z.eqb_spec (optionCount basic) 0); [lia|reflexivity].
  - rewrite sum_replicate, Z2Nat.id by lia.
    pose proof (Z.div_mod (10 ^ 18) (optionCount basic) ltac:(lia)) as Hdm.
    pose proof (Z.mod_pos_bound (10 ^ 18) (optionCount basic) Hn) as Hmod.
    split; lia.
Qed.

End OddsFacts.

Section QuoteFacts.

Import Views.

Variable p : Policast.

Lemma total_shares_inv _marketId n sharesBefore :
  total_shares p _marketId n = Some sharesBefore ->
  List.length sharesBefore = Z.to_nat n /\
  forall j, 0 <= j < n ->
    exists option, getMarketOption p _marketId j = Some option /\
                   sharesBefore !! Z.to_nat j = Some (totalShares option).
Proof.
  unfold total_shares. intros H. apply fill_inv in H as [Hlen Hat].
  split; [exact Hlen|]. intros j Hj. destruct (Hat j Hj) as [_ Hr].
  destruct (getMarketOption p _marketId j) as [option|]; simpl in Hr.
  - exists option. split; [reflexivity|]. now symmetry.
  - symmetry in Hr. apply lookup_ge_None_1 in Hr. lia.
Qed.

Lemma array_get_lookup a i v :
  array_get a i = Some v ->
  0 <= i < Z.of_nat (List.length a) /\ a !! Z.to_nat i = Some v.
Proof.
  unfold array_get.
  destruct (Z.leb_spec 0 i) as [Hlo|]; [|discriminate].
  destruct (Z.ltb_spec i (Z.of_nat (List.length a))) as [Hhi|]; [|discriminate].
  simpl. intros Hget. split; [lia|exact Hget].
Qed.

Lemma copy_shares_inv n sharesBefore sharesAfter :
  List.length sharesBefore = Z.to_nat n ->
  copy_shares n sharesBefore = Some sharesAfter ->
  sharesAfter = sharesBefore.
Proof.
  unfold copy_shares. intros Hlen H. apply fill_inv in H as [Hlen' Hat].
  apply list_eq. intros i.
  destruct (Nat.lt_ge_cases i (Z.to_nat n)) as [Hi|Hi].
  - destruct (Hat (Z.of_nat i) ltac:(lia)) as [_ Hr].
    rewrite Nat2Z.id in Hr. rewrite <- Hr. unfold array_get.
    destruct (Z.leb_spec 0 (Z.of_nat i)); [|lia].
    destruct (Z.ltb_spec (Z.of_nat i) (Z.of_nat (List.length sharesBefore))); [|lia].
    simpl. now rewrite Nat2Z.id.
  - rewrite !lookup_ge_None_2; [reflexivity| |]; lia.
Qed.

Lemma array_set_value a i v a' :
  array_set a i v = Some a' -> a' = <[Z.to_nat i := v]> a.
Proof. unfold array_set. destruct (_ && _); [|discriminate]. now intros [= <-]. Qed.

Lemma require_true cond u : require cond = Some u -> cond = true.
Proof. destruct cond; [reflexivity|discriminate]. Qed.

Lemma sub_value a b c : sub a b = Some c -> b <= a /\ c = a - b.
Proof.
  unfold sub. destruct (Z.leb_spec b a); [|discriminate]. intros [= <-]. lia.
Qed.

Lemma add_value a b c : add a b = Some c -> c = a + b /\ c <= uint256_max.
Proof.
  unfold add. destruct (Z.leb_spec (a + b) uint256_max); [|discriminate].
  intros [= <-]. lia.
Qed.

Lemma mul_value a b c : mul a b = Some c -> c = a * b /\ c <= uint256_max.
Proof.
  unfold mul. destruct (Z.leb_spec (a * b) uint256_max); [|discriminate].
  intros [= <-]. lia.
Qed.

Lemma div_value a b c : div a b = Some c -> b <> 0 /\ c = a / b.
Proof.
  unfold div. destruct (Z.eqb_spec b 0); [discriminate|]. now intros [= <-].
Qed.

Ltac step H x Hx :=
  match type of H with
  | tbind ?t _ = Some _ =>
      destruct t as [x|] eqn:Hx; [cbn [tbind] in H|discriminate H]
  end.

(** X24. A sell quote is given only for a market below the market count, a
    positive quantity and an option of the market with at least that many
    shares outstanding.  The raw refund is the LMSR cost of the current
    share totals minus the cost of the totals with the quantity taken off
    the option; the fee is the platform's rate on it in basis points,
    rounded down; the net refund is the raw refund less the fee, and is
    what [calculateSellPrice] returns; the average price is the net refund
    per share, scaled by 1e18. *)
Theorem sell_quote_breakdown _marketId _optionId _quantity quote :
  quoteSell p _marketId _optionId _quantity = Some quote ->
  _marketId < marketCount p /\ 0 < _quantity /\
  exists basic b sharesBefore held costBefore costAfter,
    getMarketBasicInfo p _marketId = Some basic /\
    getMarketLMSRB p _marketId = Some b /\
    0 <= _optionId < optionCount basic /\
    List.length sharesBefore = Z.to_nat (optionCount basic) /\
    (forall j, 0 <= j < optionCount basic ->
       exists option, getMarketOption p _marketId j = Some option /\
                      sharesBefore !! Z.to_nat j = Some (totalShares option)) /\
    sharesBefore !! Z.to_nat _optionId = Some held /\
    _quantity <= held /\
    calculateLMSRCostWithShares p (market_data (optionCount basic) b) sharesBefore
    = Some costBefore /\
    calculateLMSRCostWithShares p (market_data (optionCount basic) b)
      (<[Z.to_nat _optionId := held - _quantity]> sharesBefore)
    = Some costAfter /\
    costAfter <= costBefore /\
    raw quote = costBefore - costAfter /\
    fee quote = raw quote * platformFeeRate p / 10000 /\
    fee quote <= raw quote /\
    total quote = raw quote - fee quote /\
    avgPricePerShare quote = total quote * 10 ^ 18 / _quantity /\
    calculateSellPrice p _marketId _optionId _quantity = Some (total quote).
Proof.
  intros H. pose proof H as Hq. unfold quoteSell in H.
  step H u1 Hm. apply require_true, Z.ltb_lt in Hm.
  step H u2 Hpos. apply require_true, Z.ltb_lt in Hpos.
  step H basic Hb. cbv zeta in H.
  step H b HB.
  step H sharesBefore Hsb. apply total_shares_inv in Hsb as [Hlen Hsb].
  step H held Hheld. apply array_get_lookup in Hheld as [Hrange Hheld].
  step H u3 Henough. apply require_true, Z.leb_le in Henough.
  step H sharesAfter Hsa. apply (copy_shares_inv _ _ _ Hlen) in Hsa. subst sharesAfter.
  step H held2 Hheld2. apply array_get_lookup in Hheld2 as [_ Hheld2].
  assert (held2 = held) as -> by congruence.
  step H held' Hsub. apply sub_value in Hsub as [_ ->].
  step H sharesAfter Hset. apply array_set_value in Hset. subst sharesAfter.
  step H costBefore Hcb.
  step H costAfter Hca.
  step H rawRefund Hraw. apply sub_value in Hraw as [Hle ->].
  step H scaled Hscaled. apply mul_value in Hscaled as [-> _].
  step H fee0 Hfee. apply div_value in Hfee as [_ ->].
  step H netRefund Hnet. apply sub_value in Hnet as [Hfee_le ->].
  step H scaledNet Hsn. apply mul_value in Hsn as [-> _].
  step H avg Havg. apply div_value in Havg as [_ ->].
  injection H as <-. cbn [raw fee total avgPricePerShare].
  split; [exact Hm|]. split; [exact Hpos|].
  exists basic, b, sharesBefore, held, costBefore, costAfter.
  repeat (split; [first [assumption|reflexivity|lia]|]).
  unfold calculateSellPrice. rewrite Hq. reflexivity.
Qed.

(** X25. A buy quote is given only for a market below the market count, a
    positive quantity and an option of the market.  The raw cost is the
    LMSR cost of the share totals with the quantity added to the option
    minus the cost of the current totals; the fee is the platform's rate on
    it in basis points, rounded down; the total is the raw cost plus the
    fee; the average price is the total per share, scaled by 1e18. *)
Theorem buy_quote_breakdown _marketId _optionId _quantity quote :
  quoteBuy p _marketId _optionId _quantity = Some quote ->
  _marketId < marketCount p /\ 0 < _quantity /\
  exists basic b sharesBefore held costBefore costAfter,
    getMarketBasicInfo p _marketId = Some basic /\
    getMarketLMSRB p _marketId = Some b /\
    0 <= _optionId < optionCount basic /\
    List.length sharesBefore = Z.to_nat (optionCount basic) /\
    (forall j, 0 <= j < optionCount basic ->
       exists option, getMarketOption p _marketId j = Some option /\
                      sharesBefore !! Z.to_nat j = Some (totalShares option)) /\
    sharesBefore !! Z.to_nat _optionId = Some held /\
    held + _quantity <= uint256_max /\
    calculateLMSRCostWithShares p (market_data (optionCount basic) b) sharesBefore
    = Some costBefore /\
    calculateLMSRCostWithShares p (market_data (optionCount basic) b)
      (<[Z.to_nat _optionId := held + _quantity]> sharesBefore)
    = Some costAfter /\
    costBefore <= costAfter /\
    raw quote = costAfter - costBefore /\
    fee quote = raw quote * platformFeeRate p / 10000 /\
    total quote = raw quote + fee quote /\
    total quote <= uint256_max /\
    avgPricePerShare quote = total quote * 10 ^ 18 / _quantity.
Proof.
  intros H. unfold quoteBuy in H.
  step H u1 Hm. apply require_true, Z.ltb_lt in Hm.
  step H u2 Hpos. apply require_true, Z.ltb_lt in Hpos.
  step H basic Hb. cbv zeta in H.
  step H b HB.
  step H sharesBefore Hsb. apply total_shares_inv in Hsb as [Hlen Hsb].
  step H sharesAfter Hsa. apply (copy_shares_inv _ _ _ Hlen) in Hsa. subst sharesAfter.
  step H held Hheld. apply array_get_lookup in Hheld as [Hrange Hheld].
  step H held' Hadd. apply add_value in Hadd as [-> Hfit].
  step H sharesAfter Hset. apply array_set_value in Hset. subst sharesAfter.
  step H costBefore Hcb.
  step H costAfter Hca.
  step H rawCost Hraw. apply sub_value in Hraw as [Hle ->].
  step H scaled Hscaled. apply mul_value in Hscaled as [-> _].
  step H fee0 Hfee. apply div_value in Hfee as [_ ->].
  step H totalCost Htotal. apply add_value in Htotal as [-> Htfit].
  step H scaledTotal Hst. apply mul_value in Hst as [-> _].
  step H avg Havg. apply div_value in Havg as [_ ->].
  injection H as <-. cbn [raw fee total avgPricePerShare].
  split; [exact Hm|]. split; [exact Hpos|].
  exists basic, b, sharesBefore, held, costBefore, costAfter.
  repeat (split; [first [assumption|reflexivity|lia]|]).
  reflexivity.
Qed.

End QuoteFacts.

Section HoldingFacts.

Import Views.

Variable p : Policast.
Variable _user : string.

Hypothesis count_is_uint : 0 <= marketCount p.
Hypothesis holdings_readable :
  forall i, 0 <= i < marketCount p ->
    exists basic,
      getMarketBasicInfo p i = Some basic /\
      forall j, 0 <= j < optionCount basic ->
        is_Some (getMarketOptionUserShares p i j _user).

Lemma holds_loop_true i fuel : forall j n,
  holds_loop p _user i fuel j n = Some true ->
  exists o shares,
    j <= o < n /\ getMarketOptionUserShares p i o _user = Some shares /\ 0 < shares.
Proof.
  induction fuel as [|fuel IH]; intros j n; cbn [holds_loop]; [discriminate|].
  destruct (Z.ltb_spec j n) as [Hlt|]; [|discriminate].
  destruct (getMarketOptionUserShares p i j _user) as [shares|] eqn:Hs;
    [|discriminate].
  cbn [tbind]. destruct (Z.ltb_spec 0 shares) as [Hpos|].
  - intros _. exists j, shares. split; [lia|]. split; [exact Hs|exact Hpos].
  - intros Hrest. apply IH in Hrest as (o & s & Ho & Hr & Hp).
    exists o, s. split; [lia|]. split; [exact Hr|exact Hp].
Qed.

Lemma holds_loop_finds i fuel : forall j n,
  Z.of_nat fuel = n - j ->
  (forall o, j <= o < n -> is_Some (getMarketOptionUserShares p i o _user)) ->
  exists hit,
    holds_loop p _user i fuel j n = Some hit /\
    ((exists o shares,
        j <= o < n /\ getMarketOptionUserShares p i o _user = Some shares /\
        0 < shares) -> hit = true).
Proof.
  induction fuel as [|fuel IH]; intros j n Hfuel Hread; cbn [holds_loop].
  - exists false. split; [reflexivity|]. intros (o & s & Ho & _). lia.
  - destruct (Z.ltb_spec j n) as [Hlt|]; [|lia].
    destruct (Hread j ltac:(lia)) as [shares Hs]. rewrite Hs. cbn [tbind].
    destruct (Z.ltb_spec 0 shares) as [Hpos|Hzero].
    + exists true. split; [reflexivity|auto].
    + destruct (IH (j + 1) n ltac:(lia)) as (hit & Hrun & Hhit).
      { intros o Ho. apply Hread. lia. }
      exists hit. split; [exact Hrun|].
      intros (o & s & Ho & Hr & Hp). apply Hhit.
      exists o, s. split; [|split; [exact Hr|exact Hp]].
      destruct (Z.eq_dec o j) as [->|]; [|lia].
      rewrite Hs in Hr. injection Hr as ->. lia.
Qed.

(** X26. With the market count and every balance of the user readable,
    [getUserMarkets] returns, in ascending order and without repetition,
    exactly the markets below the market count in one of whose options the
    user holds shares. *)
Theorem user_markets_are_the_held_ones :
  exists l,
    getUserMarkets p _user = Some l /\
    StronglySorted Z.lt l /\
    forall i, In i l <->
      0 <= i < marketCount p /\
      exists basic o shares,
        getMarketBasicInfo p i = Some basic /\
        0 <= o < optionCount basic /\
        getMarketOptionUserShares p i o _user = Some shares /\
        0 < shares.
Proof.
  set (test := fun i => do* basic := getMarketBasicInfo p i in
                        holds_loop p _user i (Z.to_nat (optionCount basic)) 0
                                   (optionCount basic)).
  set (t := fun i => match test i with Some hit => hit | None => false end).
  assert (forall i, 0 <= i < marketCount p -> test i = Some (t i)) as Htest.
  { intros i Hi. unfold t. destruct (holdings_readable i Hi) as (basic & Hb & Hread).
    unfold test. rewrite Hb. cbn [tbind].
    destruct (Z.le_gt_cases 0 (optionCount basic)) as [Hn|Hn].
    - destruct (holds_loop_finds i (Z.to_nat (optionCount basic)) 0 (optionCount basic)
                  ltac:(lia) Hread) as (hit & -> & _). reflexivity.
    - replace (Z.to_nat (optionCount basic)) with 0%nat by lia. reflexivity. }
  exists (List.filter t (seqZ 0 (marketCount p))). split; [|split].
  - unfold getUserMarkets.
    apply (collect_spec p test t 0 (fun _ => true)); auto. lia.
  - apply filter_strongly_sorted.
    rewrite <- (Z2Nat.id (marketCount p)) by lia. apply seqZ_strongly_sorted.
  - intros i. rewrite filter_In, <- list_elem_of_In, elem_of_seqZ. split.
    + intros [Hi Ht]. split; [lia|].
      destruct (holdings_readable i ltac:(lia)) as (basic & Hb & Hread).
      unfold t, test in Ht. rewrite Hb in Ht. cbn [tbind] in Ht.
      destruct (holds_loop _ _ _ _ _ _) as [[]|] eqn:Hl; try discriminate.
      apply holds_loop_true in Hl as (o & s & Ho & Hr & Hp).
      exists basic, o, s. auto.
    + intros [Hi (basic & o & s & Hb & Ho & Hr & Hp)]. split; [lia|].
      destruct (holdings_readable i Hi) as (basic' & Hb' & Hread).
      assert (basic' = basic) as -> by congruence.
      unfold t, test. rewrite Hb. cbn [tbind].
      destruct (holds_loop_finds i (Z.to_nat (optionCount basic)) 0 (optionCount basic)
                  ltac:(lia) Hread) as (hit & -> & Hhit).
      apply Hhit. exists o, s. auto.
Qed.

Variable userTradeHistory : string -> Z -> Res (option Winnings.Trade).
Variable simulateClaimWinnings : Z -> string -> Res unit.

Lemma option_loop_as_chain i fuel : forall j n,
  Winnings.option_loop (as_chain p userTradeHistory simulateClaimWinnings)
    _user i fuel j n
  = rpc (fun hit => hit) (holds_loop p _user i fuel j n).
Proof.
  induction fuel as [|fuel IH]; intros j n; [reflexivity|].
  cbn [Winnings.option_loop holds_loop].
  destruct (j <? n); [|reflexivity].
  unfold Winnings.rbind, as_chain. cbn [Winnings.getMarketOptionUserShares].
  destruct (getMarketOptionUserShares p i j _user) as [shares|]; [|reflexivity].
  cbn [rpc tbind]. destruct (0 <? shares); [reflexivity|apply IH].
Qed.

Lemma scan_market_as_chain i :
  Winnings.scan_market (as_chain p userTradeHistory simulateClaimWinnings) _user i
  = rpc (fun hit => hit)
        (do* basic := getMarketBasicInfo p i in
         holds_loop p _user i (Z.to_nat (optionCount basic)) 0 (optionCount basic)).
Proof.
  unfold Winnings.scan_market, Winnings.rbind, as_chain.
  cbn [Winnings.getMarketBasicInfo].
  destruct (getMarketBasicInfo p i) as [basic|]; [|reflexivity].
  cbn [rpc tbind Winnings.optionCount]. apply option_loop_as_chain.
Qed.

Lemma filter_below (t : Z -> bool) count bound :
  0 <= count -> 0 <= bound ->
  List.filter t (seqZ 0 (Z.min count bound))
  = List.filter (fun m => m <? bound) (List.filter t (seqZ 0 count)).
Proof.
  intros Hc Hb.
  replace count with (Z.min count bound + (count - Z.min count bound)) at 2 by lia.
  rewrite seqZ_app by lia. rewrite !List.filter_app.
  assert (forall l, Forall (fun m => m < bound) l ->
                    List.filter (fun m => m <? bound) l = l) as Hall.
  { induction 1 as [|a l Ha _ IH]; simpl; [reflexivity|].
    destruct (Z.ltb_spec a bound); [now rewrite IH|lia]. }
  assert (forall l, Forall (fun m => bound <= m) l ->
                    List.filter (fun m => m <? bound) l = []) as Hnone.
  { induction 1 as [|a l Ha _ IH]; simpl; [reflexivity|].
    destruct (Z.ltb_spec a bound); [lia|exact IH]. }
  rewrite Hall, Hnone; [now rewrite app_nil_r| |].
  - apply Forall_forall. intros m Hm.
    apply list_elem_of_In, filter_In in Hm as [Hm _].
    apply list_elem_of_In, elem_of_seqZ in Hm.
    destruct (Z.le_gt_cases count bound); lia.
  - apply Forall_forall. intros m Hm.
    apply list_elem_of_In, filter_In in Hm as [Hm _].
    apply list_elem_of_In, elem_of_seqZ in Hm. lia.
Qed.

(** X27. Run against the same ledger, the winnings route's fallback scan
    reports the markets that the contract's [getUserMarkets] reports, cut
    down to those with an id below 300: the two agree as long as there are
    at most 300 markets. *)
Theorem fallback_scan_agrees_with_contract_view :
  exists l,
    getUserMarkets p _user = Some l /\
    Winnings.fallbackScanParticipation
      (as_chain p userTradeHistory simulateClaimWinnings) _user
    = Ok (List.filter (fun m => m <? 300) l) /\
    (marketCount p <= 300 ->
     Winnings.fallbackScanParticipation
       (as_chain p userTradeHistory simulateClaimWinnings) _user = Ok l).
Proof.
  set (chain := as_chain p userTradeHistory simulateClaimWinnings).
  set (test := fun i => do* basic := getMarketBasicInfo p i in
                        holds_loop p _user i (Z.to_nat (optionCount basic)) 0
                                   (optionCount basic)).
  set (t := fun i => match test i with Some hit => hit | None => false end).
  assert (forall i, 0 <= i < marketCount p -> test i = Some (t i)) as Htest.
  { intros i Hi. unfold t. destruct (holdings_readable i Hi) as (basic & Hb & Hread).
    unfold test. rewrite Hb. cbn [tbind].
    destruct (Z.le_gt_cases 0 (optionCount basic)) as [Hn|Hn].
    - destruct (holds_loop_finds i (Z.to_nat (optionCount basic)) 0 (optionCount basic)
                  ltac:(lia) Hread) as (hit & -> & _). reflexivity.
    - replace (Z.to_nat (optionCount basic)) with 0%nat by lia. reflexivity. }
  assert (Winnings.fallbackScanParticipation chain _user
          = Ok (List.filter (fun m => m <? 300)
                  (List.filter t (seqZ 0 (marketCount p))))) as Hscan.
  { unfold Winnings.fallbackScanParticipation, chain, as_chain.
    cbn [Winnings.marketCount Winnings.PAYOUT_PER_SHARE]. fold chain.
    destruct (Z.eqb_spec (marketCount p) 0) as [Hz|Hz].
    - rewrite Hz. reflexivity.
    - f_equal. rewrite scan_fold_ids. cbn [app].
      rewrite <- filter_below by lia.
      apply filter_ext_in. intros m Hm.
      apply list_elem_of_In, elem_of_seqZ in Hm.
      unfold chain. rewrite scan_market_as_chain. fold (test m).
      rewrite Htest by lia. simpl. now destruct (t m). }
  exists (List.filter t (seqZ 0 (marketCount p))). split; [|split].
  - unfold getUserMarkets.
    apply (collect_spec p test t 0 (fun _ => true)); auto. lia.
  - exact Hscan.
  - intros Hsmall. rewrite Hscan. f_equal.
    rewrite <- filter_below by lia. now rewrite Z.min_l.
Qed.

End HoldingFacts.

Section PayoutAgreement.

Import Views.

Variable p : Policast.
Variable userTradeHistory : string -> Z -> Res (option Winnings.Trade).
Variable simulateClaimWinnings : Z -> string -> Res unit.
Variable _user : string.

(** X28. Run against the same ledger, every row the route's verifier
    returns carries the amount that the contract's [getUserWinnings]
    returns for that user and market, provided the product of the balance
    and the payout per share fits in 256 bits, which the contract requires
    and the route does not. *)
Theorem route_amounts_agree_with_contract_view markets results r :
  Winnings.computeClaimableWinnings
    (as_chain p userTradeHistory simulateClaimWinnings) _user markets
  = Ok results ->
  In r results ->
  (forall o shares,
     getMarketOptionUserShares p (Winnings.marketId r) o _user = Some shares ->
     shares * PAYOUT_PER_SHARE p <= uint256_max) ->
  getUserWinnings p _user (Winnings.marketId r) = Some (Winnings.amount r).
Proof.
  set (chain := as_chain p userTradeHistory simulateClaimWinnings).
  rewrite compute_unfold. intros [= <-] Hin Hfit.
  apply claim_fold_In in Hin as (m & _ & Hc).
  pose proof Hc as Hc'. unfold Winnings.check_market, Winnings.rbind in Hc'.
  apply check_market_emits in Hc
    as (<- & _ & Hamount & basic & extended & shares
        & Hb & Hr & Hi & He & Hd & Hs & _ & Hsim).
  rewrite Hb, Hr, Hi, He, Hd, Hs, Hsim in Hc'. simpl in Hc'.
  rewrite He, Hs in Hamount.
  unfold chain, as_chain in Hb, He, Hs, Hamount, Hc'.
  cbn [Winnings.getMarketBasicInfo Winnings.getMarketExtendedMeta
       Winnings.getMarketOptionUserShares Winnings.PAYOUT_PER_SHARE] in *.
  unfold getUserWinnings.
  destruct (getMarketExtendedMeta p (Winnings.marketId r)) as [meta|];
    [|discriminate]. injection He as <-.
  destruct (getMarketBasicInfo p (Winnings.marketId r)) as [info|];
    [|discriminate]. injection Hb as <-.
  cbn [tbind Winnings.resolved Winnings.winningOptionId] in *.
  rewrite Hr. cbn [negb].
  destruct (getMarketOptionUserShares p (Winnings.marketId r)
              (winningOptionId meta) _user) as [held|] eqn:Hheld;
    [|discriminate]. injection Hs as <-.
  cbn [tbind]. unfold mul.
  destruct (Z.leb_spec (held * PAYOUT_PER_SHARE p) uint256_max) as [_|Hover];
    [|specialize (Hfit _ _ Hheld); lia].
  cbn [tbind]. unfold div. simpl Z.eqb. cbv iota. f_equal.
  destruct (held =? 0); [discriminate|]. simpl in Hc'.
  destruct (Z.ltb_spec 0 (Z.quot (held * PAYOUT_PER_SHARE p) (10 ^ 18)))
    as [Hpos|]; [|discriminate].
  rewrite Hamount. symmetry. apply Z.quot_div_nonneg; [|lia].
  destruct (Z.le_gt_cases 0 (held * PAYOUT_PER_SHARE p)) as [|Hneg]; [assumption|].
  pose proof (Z.quot_opp_l (held * PAYOUT_PER_SHARE p) (10 ^ 18) ltac:(lia)) as Hopp.
  pose proof (Z.quot_pos (- (held * PAYOUT_PER_SHARE p)) (10 ^ 18)
                ltac:(lia) ltac:(lia)). lia.
Qed.

End PayoutAgreement.

(** * Properties of the position table *)

Section PositionFacts.

Import Positions.

Variable userShares : option (list Z).
Variable liveData : list (option Z).
Variable options : list MarketOption.

Lemma position_fields optionId option :
  let pos := position userShares liveData optionId option in
  (shares pos <= 0 -> currentValue pos = 0 /\ unrealizedPnL pos = 0) /\
  (0 < shares pos -> 5 * 10 ^ 17 <= currentPrice pos -> 0 <= unrealizedPnL pos) /\
  (currentPrice pos <= 5 * 10 ^ 17 -> unrealizedPnL pos <= 0) /\
  (0 <= currentPrice pos -> 0 <= currentValue pos).
Proof.
  unfold position. cbn [shares currentValue unrealizedPnL currentPrice].
  set (s := shares_of userShares optionId).
  set (price := price_of liveData optionId option).
  assert (0 < 10 ^ 18) as Hscale by lia.
  split; [|split; [|split]].
  - intros Hs. destruct (Z.ltb_spec 0 s); [lia|]. simpl. auto.
  - intros Hs Hprice.
    destruct (Z.ltb_spec 0 s); [|lia].
    destruct (Z.ltb_spec 0 price); [|lia]. simpl.
    pose proof (Z.quot_le_mono (s * (5 * 10 ^ 17)) (s * price) (10 ^ 18) Hscale
                  ltac:(nia)). lia.
  - intros Hprice.
    destruct (Z.ltb_spec 0 s); [|simpl; lia].
    destruct (Z.ltb_spec 0 price); [|simpl; lia]. simpl.
    pose proof (Z.quot_le_mono (s * price) (s * (5 * 10 ^ 17)) (10 ^ 18) Hscale
                  ltac:(nia)). lia.
  - intros Hprice. destruct (Z.ltb_spec 0 s); [|lia].
    apply Z.quot_pos; nia.
Qed.

Lemma positions_In pos :
  In pos (positions userShares liveData options) ->
  exists optionId option,
    options !! optionId = Some option /\
    pos = position userShares liveData optionId option.
Proof.
  unfold positions. intros H. apply list_elem_of_In, elem_of_lookup_imap in H
    as (i & option & -> & Hi). eauto.
Qed.

Lemma sum_from (f : UserPosition -> Z) ps : forall acc,
  fold_left (fun sum pos => sum + f pos) ps acc
  = acc + fold_left (fun sum pos => sum + f pos) ps 0.
Proof.
  induction ps as [|pos ps IH]; intros acc; simpl; [lia|].
  rewrite IH, (IH (0 + f pos)). lia.
Qed.

Lemma sum_held (f : UserPosition -> Z) ps :
  (forall pos, In pos ps -> shares pos <= 0 -> f pos = 0) ->
  fold_left (fun sum pos => sum + f pos)
            (List.filter (fun pos => 0 <? shares pos) ps) 0
  = fold_left (fun sum pos => sum + f pos) ps 0.
Proof.
  induction ps as [|pos ps IH]; intros Hzero; [reflexivity|].
  cbn [fold_left List.filter].
  rewrite (sum_from f ps (0 + f pos)).
  destruct (Z.ltb_spec 0 (shares pos)) as [Hpos|Hnone].
  - cbn [fold_left]. rewrite (sum_from f _ (0 + f pos)), IH; [reflexivity|].
    intros q Hq. apply Hzero. now right.
  - rewrite IH by (intros q Hq; apply Hzero; now right).
    rewrite (Hzero pos); [lia|now left|exact Hnone].
Qed.

(** X29. The totals under the position table count only held positions: an
    option without shares adds nothing to the total value or to the total
    unrealized P&L, so both totals are the sums over the rows shown,
    whether or not empty positions are hidden; and when no option is held
    the table with empty positions hidden is empty and both totals are
    zero. *)
Theorem totals_count_only_held_positions showZeroPositions :
  let ps := positions userShares liveData options in
  totalValue (filteredPositions showZeroPositions ps) = totalValue ps /\
  totalUnrealizedPnL (filteredPositions showZeroPositions ps)
  = totalUnrealizedPnL ps /\
  (hasPositions ps = false ->
   filteredPositions false ps = [] /\
   totalValue ps = 0 /\ totalUnrealizedPnL ps = 0).
Proof.
  intros ps.
  assert (forall pos, In pos ps -> shares pos <= 0 -> currentValue pos = 0) as Hv.
  { intros pos Hin Hs. apply positions_In in Hin as (i & option & _ & ->).
    now apply position_fields. }
  assert (forall pos, In pos ps -> shares pos <= 0 -> unrealizedPnL pos = 0) as Hp.
  { intros pos Hin Hs. apply positions_In in Hin as (i & option & _ & ->).
    now apply position_fields. }
  assert (totalValue (List.filter (fun pos => 0 <? shares pos) ps) = totalValue ps)
    as Htv by (apply (sum_held currentValue); exact Hv).
  assert (totalUnrealizedPnL (List.filter (fun pos => 0 <? shares pos) ps)
          = totalUnrealizedPnL ps)
    as Htp by (apply (sum_held unrealizedPnL); exact Hp).
  split; [|split].
  - destruct showZeroPositions; [reflexivity|exact Htv].
  - destruct showZeroPositions; [reflexivity|exact Htp].
  - intros Hnone. unfold hasPositions in Hnone.
    assert (List.filter (fun pos => 0 <? shares pos) ps = []) as Hempty.
    { clear Hv Hp Htv Htp. induction ps as [|pos l IH]; [reflexivity|].
      simpl in Hnone |- *. apply orb_false_iff in Hnone as [-> Hrest]. auto. }
    split; [exact Hempty|]. rewrite <- Htv, <- Htp, Hempty. auto.
Qed.

(** X30. The unrealized P&L of a position is measured against a cost of half
    a token per share: it is never negative for a held option priced at
    0.5e18 or more, and never positive for an option priced at 0.5e18 or
    less; the value of a position is never negative when the price is not. *)
Theorem pnl_is_measured_against_half_a_token pos :
  In pos (positions userShares liveData options) ->
  (0 < shares pos -> 5 * 10 ^ 17 <= currentPrice pos -> 0 <= unrealizedPnL pos) /\
  (currentPrice pos <= 5 * 10 ^ 17 -> unrealizedPnL pos <= 0) /\
  (0 <= currentPrice pos -> 0 <= currentValue pos).
Proof.
  intros Hin. apply positions_In in Hin as (i & option & _ & ->).
  apply position_fields.
Qed.

End PositionFacts.

(** ** The properties above at concrete inputs *)

Lemma fallback_scan_sound_witness :
  Winnings.fallbackScanParticipation chain_open wallet = Ok [0] /\
  StronglySorted Z.lt [0] /\
  exists mCount basic option shares,
    Winnings.marketCount chain_open = Ok mCount /\ 0 <= 0 < Z.min mCount 300 /\
    Winnings.getMarketBasicInfo chain_open 0 = Ok basic /\
    0 <= option < Winnings.optionCount basic /\
    Winnings.getMarketOptionUserShares chain_open 0 option wallet = Ok shares /\
    0 < shares.
Proof.
  assert (Winnings.fallbackScanParticipation chain_open wallet = Ok [0])
    as Hscan by reflexivity.
  destruct (fallback_scan_sound chain_open wallet [0] Hscan) as [Hsorted Hheld].
  split; [exact Hscan|]. split; [exact Hsorted|]. apply Hheld. now left.
Defined.

Lemma fallback_scan_complete_witness :
  Winnings.getMarketOptionUserShares chain_open 0 1 wallet = Ok 5 /\
  exists l, Winnings.fallbackScanParticipation chain_open wallet = Ok l /\ In 0 l.
Proof.
  split; [reflexivity|].
  apply (fallback_scan_complete chain_open wallet 1 (100 * 10 ^ 18) 0
           (Winnings.mkBasic 2 false false)).
  - reflexivity.
  - reflexivity.
  - split; [lia|reflexivity].
  - reflexivity.
  - intros o _. simpl. destruct (o =? 1); reflexivity.
  - exists 1, 5. split; [simpl; lia|]. split; [reflexivity|lia].
Defined.

Lemma no_participation_gives_empty_response_witness :
  Winnings.marketCount chain_empty = Ok 0 /\
  Winnings.POST chain_empty (Ok (Winnings.Object (Some wallet)))
  = Winnings.Json [] [] 0 0.
Proof.
  split; [reflexivity|].
  apply (no_participation_gives_empty_response chain_empty wallet).
  - discriminate.
  - intros t. discriminate.
  - left. reflexivity.
Defined.

Lemma missing_credential_fails_fast_witness :
  Leaderboard.NEYNAR_API_KEY (env_down None) = None /\
  fst (Leaderboard.GET (env_down None) st_cold)
  = Leaderboard.JsonError "Server configuration error: Missing NEYNAR_API_KEY"
      None 500 /\
  Leaderboard.trace (snd (Leaderboard.GET (env_down None) st_cold)) = [].
Proof.
  split; [reflexivity|].
  destruct (missing_credential_fails_fast (env_down None) st_cold)
    as (Hanswer & Htrace & _).
  - left. reflexivity.
  - reflexivity.
  - split; [exact Hanswer|exact Htrace].
Defined.


Lemma generation2_entries_come_from_the_participant_prefix_witness :
  In (Leaderboard.mkEntry (toLowerCase alice) (50 * 10 ^ 18) 2)
     (fst (Leaderboard.fetchV2 env_live st_cold)) /\
  exists index,
    0 <= index < 10000 /\
    Aggregation.entry_from env_live
      (Leaderboard.mkEntry (toLowerCase alice) (50 * 10 ^ 18) 2) index /\
    forall j, 0 <= j <= index -> Aggregation.present env_live j = true.
Proof.
  assert (In (Leaderboard.mkEntry (toLowerCase alice) (50 * 10 ^ 18) 2)
             (fst (Leaderboard.fetchV2 env_live st_cold)))
    as Hin by (vm_compute; left; reflexivity).
  split; [exact Hin|].
  apply (generation2_entries_come_from_the_participant_prefix env_live st_cold _ Hin).
Defined.

Lemma merge_conserves_totals_witness :
  Leaderboard.sumZ
    (List.map Leaderboard.totalWinnings
       (Leaderboard.map_values
          (Leaderboard.combinedEntries
             [Leaderboard.mkEntry "0xABC1" 100 3; Leaderboard.mkEntry "0xdef2" 7 1]
             [Leaderboard.mkEntry "0xabc1" 50 2; Leaderboard.mkEntry "0xABC1" 1 1])))
  = 107 + 51.
Proof.
  apply (merge_conserves_totals
           [Leaderboard.mkEntry "0xABC1" 100 3; Leaderboard.mkEntry "0xdef2" 7 1]
           [Leaderboard.mkEntry "0xabc1" 50 2; Leaderboard.mkEntry "0xABC1" 1 1]).
  repeat constructor; rewrite ?list_elem_of_In; simpl; intuition discriminate.
Defined.

Lemma board_lists_each_wallet_once_witness :
  Leaderboard.GET env_live st_cold = (Leaderboard.Json board_live, st_warm) /\
  NoDup (List.map Leaderboard.address board_live) /\
  Forall (fun r => toLowerCase (Leaderboard.address r) = Leaderboard.address r)
         board_live.
Proof.
  assert (Leaderboard.GET env_live st_cold = (Leaderboard.Json board_live, st_warm))
    as HG by (vm_compute; reflexivity).
  split; [exact HG|].
  apply (board_lists_each_wallet_once env_live st_cold board_live st_warm);
    [vm_compute; reflexivity | exact HG].
Defined.

Lemma identity_keys_are_lower_case_witness :
  fst (Leaderboard.batchFetchNeynarUsers env_live [alice] st_cold)
    !! toLowerCase alice
  = Some [Leaderboard.mkNeynarUser "alice" "42" None] /\
  toLowerCase (toLowerCase alice) = toLowerCase alice.
Proof.
  assert (fst (Leaderboard.batchFetchNeynarUsers env_live [alice] st_cold)
            !! toLowerCase alice
          = Some [Leaderboard.mkNeynarUser "alice" "42" None])
    as Hkey by (vm_compute; reflexivity).
  split; [exact Hkey|].
  apply (identity_keys_are_lower_case env_live [alice] st_cold _ _ Hkey).
Defined.

Lemma ledger_readable i :
  0 <= i < Views.marketCount ledger -> is_Some (Views.getMarketBasicInfo ledger i).
Proof.
  simpl. intros Hi.
  destruct (Z.leb_spec 0 i); [|lia]. destruct (Z.ltb_spec i 3); [|lia].
  simpl. eauto.
Qed.

Lemma ledger_holdings_readable who i :
  0 <= i < Views.marketCount ledger ->
  exists basic,
    Views.getMarketBasicInfo ledger i = Some basic /\
    forall j, 0 <= j < Views.optionCount basic ->
      is_Some (Views.getMarketOptionUserShares ledger i j who).
Proof.
  intros Hi. destruct (ledger_readable i Hi) as [basic Hb].
  exists basic. split; [exact Hb|]. intros j _. simpl. eauto.
Qed.

Lemma markets_by_category_are_the_first_matches_witness :
  Views.getMarketsByCategory ledger 0 1 = Some [0] /\
  Views.getMarketsByCategory ledger 0 0 = Some [0; 2].
Proof.
  split.
  - apply (markets_by_category_are_the_first_matches ledger ltac:(simpl; lia)
             ledger_readable 0 1). lia.
  - apply (markets_by_category_are_the_first_matches ledger ltac:(simpl; lia)
             ledger_readable 0 0). lia.
Defined.

Lemma unresolved_markets_are_the_tradable_ones_witness :
  exists l,
    Views.getUnresolvedMarkets ledger 500 = Some l /\
    forall m, In m l <->
              0 <= m < Views.marketCount ledger /\
              Views.isMarketTradable ledger 500 m = Some true.
Proof.
  apply (unresolved_markets_are_the_tradable_ones ledger ltac:(simpl; lia)
           ledger_readable 500).
Defined.

Lemma user_shares_lists_every_option_witness :
  exists shares,
    Views.getUserShares ledger 0 wallet = Some shares /\
    List.length shares = 2%nat /\
    Views.getMarketOptionUserShares ledger 0 1 wallet = shares !! 1%nat.
Proof.
  destruct (user_shares_lists_every_option ledger 0 wallet
              (Views.mkBasicInfo "question" "description" 1000 0 2 false 0 false 0)
              eq_refl) as (Hlist & _).
  destruct Hlist as (shares & Hs & Hlen & Hat).
  - simpl. lia.
  - intros j _. simpl. eauto.
  - exists shares. split; [exact Hs|]. split; [exact Hlen|].
    apply (Hat 1). simpl. lia.
Defined.

Lemma untraded_market_has_equal_odds_witness :
  exists odds,
    Views.getMarketOdds ledger 1 = Some odds /\
    odds = replicate 3 333333333333333333 /\
    fold_right Z.add 0 odds <> 10 ^ 18.
Proof.
  destruct (untraded_market_has_equal_odds ledger 1
              (Views.mkBasicInfo "question" "description" 1000 1 3 false 0 false 0)
              eq_refl) as (odds & Hodds & Heq & _ & Hsum).
  - simpl. lia.
  - intros j _. eexists. split; reflexivity.
  - exists odds. split; [exact Hodds|]. split; [exact Heq|].
    intros Hfull. apply Hsum in Hfull. discriminate Hfull.
Defined.

Lemma sell_quote_breakdown_witness :
  Views.quoteSell ledger 0 1 100 = Some (Views.mkQuote 100 2 98 (98 * 10 ^ 16)) /\
  Views.calculateSellPrice ledger 0 1 100 = Some 98.
Proof.
  assert (Views.quoteSell ledger 0 1 100
          = Some (Views.mkQuote 100 2 98 (98 * 10 ^ 16))) as Hq by reflexivity.
  split; [exact Hq|].
  destruct (sell_quote_breakdown ledger 0 1 100 _ Hq)
    as (_ & _ & basic & b & sb & held & cb & ca & Hrest).
  apply Hrest.
Defined.

Lemma buy_quote_breakdown_witness :
  Views.quoteBuy ledger 0 1 100 = Some (Views.mkQuote 100 2 102 (102 * 10 ^ 16)) /\
  0 <= 0 < Views.marketCount ledger.
Proof.
  assert (Views.quoteBuy ledger 0 1 100
          = Some (Views.mkQuote 100 2 102 (102 * 10 ^ 16))) as Hq by reflexivity.
  split; [exact Hq|].
  destruct (buy_quote_breakdown ledger 0 1 100 _ Hq) as (Hm & _).
  split; [lia|exact Hm].
Defined.

Lemma user_markets_are_the_held_ones_witness :
  exists l,
    Views.getUserMarkets ledger wallet = Some l /\
    StronglySorted Z.lt l /\ In 2 l /\ ~ In 1 l.
Proof.
  destruct (user_markets_are_the_held_ones ledger wallet ltac:(simpl; lia)
              (ledger_holdings_readable wallet)) as (l & Hl & Hsorted & Hmem).
  exists l. split; [exact Hl|]. split; [exact Hsorted|]. split.
  - apply Hmem. split; [simpl; lia|].
    exists (Views.mkBasicInfo "question" "description" 1000 0 2 true 0 false 0),
           1, (2 * 10 ^ 18).
    split; [reflexivity|]. split; [simpl; lia|]. split; [reflexivity|lia].
  - intros Hin. apply Hmem in Hin as (_ & basic & o & s & _ & _ & Hs & Hpos).
    simpl in Hs. rewrite andb_false_r in Hs. injection Hs as <-. lia.
Defined.

Lemma fallback_scan_agrees_with_contract_view_witness :
  exists l,
    Views.getUserMarkets ledger wallet = Some l /\
    Winnings.fallbackScanParticipation ledger_chain wallet = Ok l.
Proof.
  destruct (fallback_scan_agrees_with_contract_view ledger wallet
              ltac:(simpl; lia) (ledger_holdings_readable wallet)
              (fun _ _ => reverted) (fun _ _ => Ok tt))
    as (l & Hview & _ & Hscan).
  exists l. split; [exact Hview|]. apply Hscan. simpl. lia.
Defined.

Lemma route_amounts_agree_with_contract_view_witness :
  Winnings.computeClaimableWinnings ledger_chain wallet [0; 2] = Ok [won_2] /\
  Views.getUserWinnings ledger wallet 2 = Some (200 * 10 ^ 18).
Proof.
  assert (Winnings.computeClaimableWinnings ledger_chain wallet [0; 2]
          = Ok [won_2]) as Hc by (vm_compute; reflexivity).
  split; [exact Hc|].
  apply (route_amounts_agree_with_contract_view ledger _ _ wallet _ _ won_2 Hc).
  - now left.
  - intros o shares Hs. simpl in Hs. injection Hs as <-.
    destruct (_ && _); vm_compute; discriminate.
Defined.

Lemma post_never_reports_winnings_witness :
  Winnings.participated chain_claims wallet = Ok [4; 5; 6; 9] /\
  Winnings.computeClaimableWinnings chain_claims wallet [4; 5; 6; 9] = Ok [won_4] /\
  Winnings.POST chain_claims (Ok (Winnings.Object (Some wallet)))
  = Winnings.JsonError
      "Failed to auto-discover user markets: Do not know how to serialize a BigInt"
      500.
Proof.
  assert (Winnings.participated chain_claims wallet = Ok [4; 5; 6; 9])
    as Hp by reflexivity.
  assert (Winnings.computeClaimableWinnings chain_claims wallet [4; 5; 6; 9]
          = Ok [won_4]) as Hc by reflexivity.
  split; [exact Hp|]. split; [exact Hc|].
  destruct (post_never_reports_winnings chain_claims
              (Ok (Winnings.Object (Some wallet)))) as (_ & Hrun & _).
  apply (Hrun wallet [4; 5; 6; 9] [won_4] eq_refl ltac:(discriminate) Hp Hc).
Defined.

Lemma pnl_is_measured_against_half_a_token_witness :
  In (Positions.position held_yes live_no 0 (Positions.mkOption "Yes" (6 * 10 ^ 17)))
     (Positions.positions held_yes live_no yes_no) /\
  0 <= Positions.unrealizedPnL
         (Positions.position held_yes live_no 0
            (Positions.mkOption "Yes" (6 * 10 ^ 17))).
Proof.
  assert (In (Positions.position held_yes live_no 0
                (Positions.mkOption "Yes" (6 * 10 ^ 17)))
             (Positions.positions held_yes live_no yes_no))
    as Hin by (left; reflexivity).
  split; [exact Hin|].
  destruct (pnl_is_measured_against_half_a_token held_yes live_no yes_no _ Hin)
    as (Hgain & _).
  apply Hgain; vm_compute; [reflexivity|discriminate].
Defined.
